(** * Guidance recomputation pipeline: Guidance Controller and EFIS Symbols

    A shallow embedding of [GuidanceController] (geometry cache, per-tick
    update, EFIS state records) and of [EfisSymbols] (edit area, symbol
    merge-by-identity, symbol budget, per-side pass), with the properties
    the specification states about them.

    JavaScript numbers that the code only compares, adds or divides are
    rationals ([Q]); the bit mask [NdSymbol.type] is an integer with the
    32-bit wrap-around of the [|] operator written out; trigonometry of
    the edit-area test is done over the reals. *)

From Stdlib Require Import ZArith QArith Qround Reals Qreals Lqa Lra Lia List Ascii String.
From stdpp Require Import gmap strings list pretty.

Close Scope R_scope.
Close Scope Q_scope.
Open Scope Z_scope.

(** ** JavaScript primitives the code relies on *)

Module Js.

(** [ToInt32]: the operand conversion of the bitwise operators. *)
Definition toInt32 (z : Z) : Z :=
  let m := z mod 2 ^ 32 in
  if m <? 2 ^ 31 then m else m - 2 ^ 32.

(** [a | b] on numbers holding integers. *)
Definition bitor (a b : Z) : Z :=
  toInt32 (Z.lor (toInt32 a) (toInt32 b)).

Definition is_int32 (z : Z) : Prop := - 2 ^ 31 <= z < 2 ^ 31.

(** [t1 | t2 | ... | tn], as [|] computes it. *)
Definition bitorAll (l : list Z) : Z := fold_right bitor 0 l.

(** [a ?? b] where [undefined] is [None]. *)
Definition nullish {A : Type} (a b : option A) : option A :=
  match a with
  | Some v => Some v
  | None => b
  end.

(** [Array.prototype.findIndex]; the result [-1] is [None]. *)
Fixpoint findIndex {A : Type} (p : A -> bool) (l : list A) : option nat :=
  match l with
  | [] => None
  | x :: t => if p x then Some 0%nat else S <$> findIndex p t
  end.

(** [ToIntegerOrInfinity] on a finite number: truncation toward zero.
    The numbers truncated here are an array length minus [640 / 6]; their
    fractional part is about a third, so the rounding of double
    arithmetic does not change the integer part and exact rationals give
    the same result. *)
Definition toInteger (q : Q) : Z := Z.quot (Qnum q) (Zpos (Qden q)).

(** [arr.splice(0, deleteCount)]: the array that is left. The count is
    truncated and clamped to [0 .. arr.length]. *)
Definition splice_front {A : Type} (deleteCount : Q) (arr : list A) : list A :=
  let n := Z.min (Z.max (toInteger deleteCount) 0) (Z.of_nat (length arr)) in
  drop (Z.to_nat n) arr.

(** [Math.round]: the nearest integer, a half going up. *)
Definition round (x : Q) : Z := Qfloor (x + (1 # 2)).

(** [`${n}`] for an integer [n] below 10^21 in magnitude: its decimal
    digits, with a minus sign when negative. *)
Definition numberToString (n : Z) : string := pretty n.

(** A number that is a multiple of 2^-10 and below 2^42 in magnitude.
    Such a number is a double, and so is the sum of two of them: on
    these numbers [+] and the comparisons of doubles are those of the
    rationals. *)
Definition exactlySummed (q : Q) : bool :=
  let scaled := Qred (q * 1024) in
  (Qden scaled =? 1)%positive && (Z.abs (Qnum scaled) <? 2 ^ 52).

End Js.

Infix "??" := Js.nullish (at level 61, left associativity).

(** ** Shared display types ([@shared/NavigationDisplay], [FmsState]) *)

(** The display sides ['L'] and ['R']. *)
Module Side.
Inductive EfisSide : Type := L | R.
End Side.
Abbreviation EfisSide := Side.EfisSide.

(** An object literal [{ L: ..., R: ... }]. *)
Record PerSide (A : Type) : Type := { onL : A; onR : A }.

Arguments onL {A} p.
Arguments onR {A} p.

Definition sideGet {A : Type} (side : EfisSide) (p : PerSide A) : A :=
  match side with
  | Side.L => onL p
  | Side.R => onR p
  end.

Definition sideSet {A : Type} (side : EfisSide) (v : A) (p : PerSide A) : PerSide A :=
  match side with
  | Side.L => {| onL := v; onR := onR p |}
  | Side.R => {| onL := onL p; onR := v |}
  end.

(** Modelled from the spec: the [EfisNdMode] enumeration is declared in
    [@shared/NavigationDisplay], outside the files at hand. The code and
    the specification name [ARC], [ROSE_NAV] and [PLAN]; any other value
    reaches the [default] branches of the code. *)
Inductive EfisNdMode : Type := ARC | ROSE_NAV | PLAN | OtherMode (code : Z).

(** Modelled from the spec: the [EfisOption] enumeration, with the six
    members that the code and the specification name ([OptNone] is
    [EfisOption.None], the value [0] that [lastEfisOption] starts with). *)
Inductive EfisOption : Type :=
  | OptNone | Constraints | VorDmes | Waypoints | Ndbs | Airports.

#[global] Instance EfisSide_eq_dec : EqDecision EfisSide.
Proof. solve_decision. Defined.
#[global] Instance EfisNdMode_eq_dec : EqDecision EfisNdMode.
Proof. solve_decision. Defined.
#[global] Instance EfisOption_eq_dec : EqDecision EfisOption.
Proof. solve_decision. Defined.

Record Coordinates : Type := { lat : Q; long : Q }.

Record EfisState : Type := {
  mode : EfisNdMode;
  range : Q;
  dataLimitReached : bool;
  legsCulled : bool;
}.

Record NdSymbol : Type := {
  databaseId : string;
  ident : string;
  location : option Coordinates;
  type : Z;
  constraints : option (list string);
  direction : option Q;
  length_nm : option Q;      (* the [length] field *)
  radials : option (list Q);
  radii : option (list Q);
}.

(** ** Completions: a call either returns or throws *)

Inductive Exn : Type :=
  | TypeError (msg : string)
  | Error (msg : string).

Inductive Completion (A : Type) : Type :=
  | Normal (a : A)
  | Throw (e : Exn).

Arguments Normal {A} a.
Arguments Throw {A} e.

(** A method body over a mutable state [S]: what has been written before
    a [throw] stays written. *)
Definition M (S A : Type) : Type := S -> Completion A * S.

Definition ret {S A : Type} (a : A) : M S A := fun s => (Normal a, s).

Definition throw {S A : Type} (e : Exn) : M S A := fun s => (Throw e, s).

Definition bind {S A B : Type} (m : M S A) (k : A -> M S B) : M S B :=
  fun s =>
    match m s with
    | (Normal a, s') => k a s'
    | (Throw e, s') => (Throw e, s')
    end.

Definition get {S : Type} : M S S := fun s => (Normal s, s).

Definition modify {S : Type} (f : S -> S) : M S unit := fun s => (Normal tt, f s).

(** [try { body } catch (e) { handler(e) }] *)
Definition try_catch {S A : Type} (body : M S A) (handler : Exn -> M S A) : M S A :=
  fun s =>
    match body s with
    | (Normal a, s') => (Normal a, s')
    | (Throw e, s') => handler e s'
    end.

Notation "x <- m ;; k" := (bind m (fun x => k))
  (at level 100, m at next level, right associativity).
Notation "m ;;; k" := (bind m (fun _ => k))
  (at level 100, right associativity).

(** Every run of [m] takes a state to one that [R] relates to it,
    whether it returns or throws. *)
Definition respects {S A : Type} (R : S -> S -> Prop) (m : M S A) : Prop :=
  forall s, R s (snd (m s)).

Definition Qgt_bool (a b : Q) : bool := negb (Qle_bool a b).

Definition Qneq_bool (a b : Q) : bool := negb (Qeq_bool a b).

(** ** Flight plans, as the flight-plan service hands them out *)

Inductive FlightPlanElement : Type :=
  | Discontinuity
  | Leg (terminationLocation : option Coordinates).

(** The flight-plan classes and the [FlightPlanIndex] enumeration are
    declared outside the files at hand; the code is read against this
    interface of them. *)
Class FlightPlanning : Type := {
  BaseFlightPlan : Type;
  version : BaseFlightPlan -> Z;
  activeLegIndex : BaseFlightPlan -> Z;
  hasElement : BaseFlightPlan -> Z -> bool;
  elementAt : BaseFlightPlan -> Z -> option FlightPlanElement;
  Active : Z;
  Temporary : Z;
  FirstSecondary : Z;
}.

(** A [FlightPlan] is a base plan that carries its alternate. *)
Record FlightPlan `{FlightPlanning} : Type := {
  primary : BaseFlightPlan;
  alternateFlightPlan : BaseFlightPlan;
}.

(** ** GuidanceController *)

Module GuidanceController.

Definition GEOMETRY_RECOMPUTATION_TIMER : Q := 5000.

(** *** The EfisState objects

    [init] creates two [EfisState] objects and keeps references to them
    in [leftEfisState], [rightEfisState] and in the object
    [efisStateForSide]. [efisHeap] holds the objects, a reference is an
    index into it, and [None] is [undefined]. *)
Record EfisStore : Type := {
  efisHeap : list EfisState;
  leftEfisState : option nat;
  rightEfisState : option nat;
  efisStateForSide : option (PerSide (option nat));
}.

Definition emptyEfisStore : EfisStore :=
  {| efisHeap := []; leftEfisState := None; rightEfisState := None;
     efisStateForSide := None |}.

Definition with_efisHeap (h : list EfisState) (e : EfisStore) : EfisStore :=
  {| efisHeap := h; leftEfisState := leftEfisState e;
     rightEfisState := rightEfisState e; efisStateForSide := efisStateForSide e |}.

Definition with_leftEfisState (r : option nat) (e : EfisStore) : EfisStore :=
  {| efisHeap := efisHeap e; leftEfisState := r;
     rightEfisState := rightEfisState e; efisStateForSide := efisStateForSide e |}.

Definition with_rightEfisState (r : option nat) (e : EfisStore) : EfisStore :=
  {| efisHeap := efisHeap e; leftEfisState := leftEfisState e;
     rightEfisState := r; efisStateForSide := efisStateForSide e |}.

Definition with_efisStateForSide (o : option (PerSide (option nat))) (e : EfisStore) : EfisStore :=
  {| efisHeap := efisHeap e; leftEfisState := leftEfisState e;
     rightEfisState := rightEfisState e; efisStateForSide := o |}.

(** [new EfisState]: the reference to the fresh object. *)
Definition allocEfisState (v : EfisState) : M EfisStore nat :=
  fun e => (Normal (length (efisHeap e)), with_efisHeap (efisHeap e ++ [v]) e).

(** [ref.field]: reading through an undefined reference throws. *)
Definition readEfisState (ref : option nat) : M EfisStore EfisState :=
  fun e =>
    match ref ≫= (fun l => efisHeap e !! l) with
    | Some v => (Normal v, e)
    | None => (Throw (TypeError "Cannot read properties of undefined"), e)
    end.

(** [ref.field = v]: writing through an undefined reference throws. *)
Definition writeEfisState (ref : option nat) (f : EfisState -> EfisState) : M EfisStore unit :=
  fun e =>
    match ref with
    | Some l =>
        match efisHeap e !! l with
        | Some v => (Normal tt, with_efisHeap (<[l := f v]> (efisHeap e)) e)
        | None => (Throw (TypeError "Cannot set properties of undefined"), e)
        end
    | None => (Throw (TypeError "Cannot set properties of undefined"), e)
    end.

(** [this.efisStateForSide[side]] *)
Definition efisStateRefForSide (side : EfisSide) : M EfisStore (option nat) :=
  fun e =>
    match efisStateForSide e with
    | Some o => (Normal (sideGet side o), e)
    | None => (Throw (TypeError "Cannot read properties of undefined"), e)
    end.

(** [this.efisStateForSide[side] = ref] *)
Definition assignEfisStateForSide (side : EfisSide) (ref : option nat) : M EfisStore unit :=
  fun e =>
    match efisStateForSide e with
    | Some o => (Normal tt, with_efisStateForSide (Some (sideSet side ref o)) e)
    | None => (Throw (TypeError "Cannot set properties of undefined"), e)
    end.

Definition set_mode (m : EfisNdMode) (s : EfisState) : EfisState :=
  {| mode := m; range := range s; dataLimitReached := dataLimitReached s;
     legsCulled := legsCulled s |}.

Definition set_range (r : Q) (s : EfisState) : EfisState :=
  {| mode := mode s; range := r; dataLimitReached := dataLimitReached s;
     legsCulled := legsCulled s |}.

Definition set_dataLimitReached (b : bool) (s : EfisState) : EfisState :=
  {| mode := mode s; range := range s; dataLimitReached := b;
     legsCulled := legsCulled s |}.

Definition set_legsCulled (b : bool) (s : EfisState) : EfisState :=
  {| mode := mode s; range := range s; dataLimitReached := dataLimitReached s;
     legsCulled := b |}.

(** [guidanceController.efisStateForSide[side].dataLimitReached = b], the
    write the EFIS Symbols generator performs. *)
Definition writeDataLimitReached (side : EfisSide) (b : bool) : M EfisStore unit :=
  ref <- efisStateRefForSide side ;;
  writeEfisState ref (set_dataLimitReached b).

(** Two versions of an object that agree on the two saturation flags. *)
Definition keepsFlags (v v' : EfisState) : Prop :=
  dataLimitReached v' = dataLimitReached v /\ legsCulled v' = legsCulled v.

(** [e'] has the references of [e], and its objects differ from those of
    [e] at most in [mode] and [range]. *)
Definition refreshOf (e e' : EfisStore) : Prop :=
  leftEfisState e' = leftEfisState e
  /\ rightEfisState e' = rightEfisState e
  /\ efisStateForSide e' = efisStateForSide e
  /\ length (efisHeap e') = length (efisHeap e)
  /\ forall i v v', efisHeap e !! i = Some v -> efisHeap e' !! i = Some v' -> keepsFlags v v'.

(** *** Simulator variables the controller reads and writes *)
Record SimVars : Type := {
  EFIS_ND_MODE : PerSide EfisNdMode;
  EFIS_ND_RANGE : PerSide Q;        (* [rangeSettings] already applied *)
  EFIS_MAP_PARTLY_DISPLAYED : PerSide bool;
  AIRSPEED_TRUE : Q;
  GPS_GROUND_SPEED : Q;
  GPS_GROUND_TRUE_TRACK : Q;
}.

Definition set_MAP_PARTLY_DISPLAYED (side : EfisSide) (b : bool) (v : SimVars) : SimVars :=
  {| EFIS_ND_MODE := EFIS_ND_MODE v; EFIS_ND_RANGE := EFIS_ND_RANGE v;
     EFIS_MAP_PARTLY_DISPLAYED := sideSet side b (EFIS_MAP_PARTLY_DISPLAYED v);
     AIRSPEED_TRUE := AIRSPEED_TRUE v; GPS_GROUND_SPEED := GPS_GROUND_SPEED v;
     GPS_GROUND_TRUE_TRACK := GPS_GROUND_TRUE_TRACK v |}.

Inductive ConsoleLine : Type :=
  | Message (text : string)
  | Exception (e : Exn).

(** *** Collaborators

    The drivers, the geometry factory and the flight-plan service live
    outside the files at hand. Each call is a computation on the state of
    that outside world and may throw; a [Geometry] is an object that the
    factory and [recomputeWithParameters] change in place.
    [updateEfisApproachMessage], [updateEfisIdent] and [updateMrpState]
    are methods of the controller that only pass data between the
    flight-plan service, the geometries and the simulator; they are kept
    as calls here as well. *)
Class Collaborators `{FlightPlanning} : Type := {
  World : Type;
  Geometry : Type;
  flightPlanService : World -> Z -> option FlightPlan;
  lnavDriver_ppos : World -> Coordinates;
  createFromFlightPlan : BaseFlightPlan -> bool -> Completion Geometry;
  updateFromFlightPlan : BaseFlightPlan -> bool -> M Geometry unit;
  recomputeWithParameters : Q -> Q -> Coordinates -> Q -> Z -> Z -> M Geometry unit;
  taskQueue_cancelAllInCategory_EfisVectors : M World unit;
  efisVectors_forceUpdate : M World unit;
  updateEfisApproachMessage : M World unit;
  verticalProfileComputationParametersObserver_update : M World unit;
  windProfileFactory_updateFmgcInputs : M World unit;
  atmosphericConditions_update : M World unit;
  vnavDriver_acceptMultipleLegGeometry : Geometry -> M World unit;
  pseudoWaypoints_acceptMultipleLegGeometry : Geometry -> M World unit;
  updateEfisIdent : option Geometry -> M World unit;
  updateMrpState : gmap Z Geometry -> M World unit;
  lnavDriver_ppos_assign : M World unit;
  lnavDriver_init : M World unit;
  vnavDriver_init : M World unit;
  pseudoWaypoints_init : M World unit;
  lnavDriver_update : Q -> M World unit;
  vnavDriver_update : Q -> M World unit;
  pseudoWaypoints_update : Q -> M World unit;
  efisVectors_update : Q -> M World unit;
  taskQueue_update : Q -> M World unit;
  Coherent_on_IMM_EXIT : M World unit;
}.

Section Controller.

Context `{Collaborators}.

Record State : Type := {
  geometryRecomputationTimer : Q;
  lastFlightPlanVersions : gmap Z Z;
  flightPlanGeometries : gmap Z Geometry;
  efis : EfisStore;
  simVars : SimVars;
  console : list ConsoleLine;
  world : World;
}.

Definition with_timer (t : Q) (st : State) : State :=
  {| geometryRecomputationTimer := t;
     lastFlightPlanVersions := lastFlightPlanVersions st;
     flightPlanGeometries := flightPlanGeometries st;
     efis := efis st; simVars := simVars st; console := console st;
     world := world st |}.

Definition with_versions (v : gmap Z Z) (st : State) : State :=
  {| geometryRecomputationTimer := geometryRecomputationTimer st;
     lastFlightPlanVersions := v;
     flightPlanGeometries := flightPlanGeometries st;
     efis := efis st; simVars := simVars st; console := console st;
     world := world st |}.

Definition with_geometries (g : gmap Z Geometry) (st : State) : State :=
  {| geometryRecomputationTimer := geometryRecomputationTimer st;
     lastFlightPlanVersions := lastFlightPlanVersions st;
     flightPlanGeometries := g;
     efis := efis st; simVars := simVars st; console := console st;
     world := world st |}.

Definition with_efis (e : EfisStore) (st : State) : State :=
  {| geometryRecomputationTimer := geometryRecomputationTimer st;
     lastFlightPlanVersions := lastFlightPlanVersions st;
     flightPlanGeometries := flightPlanGeometries st;
     efis := e; simVars := simVars st; console := console st;
     world := world st |}.

Definition with_simVars (v : SimVars) (st : State) : State :=
  {| geometryRecomputationTimer := geometryRecomputationTimer st;
     lastFlightPlanVersions := lastFlightPlanVersions st;
     flightPlanGeometries := flightPlanGeometries st;
     efis := efis st; simVars := v; console := console st;
     world := world st |}.

Definition with_console (c : list ConsoleLine) (st : State) : State :=
  {| geometryRecomputationTimer := geometryRecomputationTimer st;
     lastFlightPlanVersions := lastFlightPlanVersions st;
     flightPlanGeometries := flightPlanGeometries st;
     efis := efis st; simVars := simVars st; console := c;
     world := world st |}.

Definition with_world (w : World) (st : State) : State :=
  {| geometryRecomputationTimer := geometryRecomputationTimer st;
     lastFlightPlanVersions := lastFlightPlanVersions st;
     flightPlanGeometries := flightPlanGeometries st;
     efis := efis st; simVars := simVars st; console := console st;
     world := w |}.

(** A call into a collaborator. A geometry that was handed to a driver
    and is changed in place afterwards is not followed into [World]:
    the properties below say nothing about the collaborators' state
    after a geometry update. *)
Definition call {A : Type} (m : M World A) : M State A :=
  fun st => let '(c, w) := m (world st) in (c, with_world w st).

(** An access to the EfisState objects. *)
Definition onEfis {A : Type} (m : M EfisStore A) : M State A :=
  fun st => let '(c, e) := m (efis st) in (c, with_efis e st).

Definition console_error (l : ConsoleLine) : M State unit :=
  modify (fun st => with_console (console st ++ [l]) st).

Definition geometryKey (index : Z) (alternate : bool) : Z :=
  (if alternate then 100 else 0) + index.

Definition hasGeometryForFlightPlan (index : Z) (alternate : bool) (st : State) : bool :=
  let finalIndex := geometryKey index alternate in
  bool_decide (is_Some (flightPlanGeometries st !! finalIndex)).

(** The [if] on [hasGeometryForFlightPlan] in the body guards a
    commented-out [throw] and does nothing. *)
Definition getGeometryForFlightPlan (index : Z) (alternate : bool) (st : State) : option Geometry :=
  let finalIndex := geometryKey index alternate in
  flightPlanGeometries st !! finalIndex.

Definition activeGeometry (st : State) : option Geometry :=
  getGeometryForFlightPlan Active false st.

Definition updateEfisState (side : EfisSide) (state : option nat) : M State unit :=
  st <- get ;;
  let ndMode := sideGet side (EFIS_ND_MODE (simVars st)) in
  let ndRange := sideGet side (EFIS_ND_RANGE (simVars st)) in
  let current := state ≫= (fun l => efisHeap (efis st) !! l) in
  let modeDiffers := bool_decide (mode <$> current ≠ Some ndMode) in
  let rangeDiffers :=
    match current with
    | Some s => Qneq_bool (range s) ndRange
    | None => true
    end in
  (if modeDiffers || rangeDiffers
   then call taskQueue_cancelAllInCategory_EfisVectors ;;; call efisVectors_forceUpdate
   else ret tt) ;;;
  onEfis (writeEfisState state (set_mode ndMode)) ;;;
  onEfis (writeEfisState state (set_range ndRange)) ;;;
  call updateEfisApproachMessage.

Definition updateMapPartlyDisplayed : M State unit :=
  l <- onEfis (ref <- efisStateRefForSide Side.L ;; readEfisState ref) ;;
  modify (fun st =>
    with_simVars (set_MAP_PARTLY_DISPLAYED Side.L
                    (dataLimitReached l || legsCulled l) (simVars st)) st) ;;;
  r <- onEfis (ref <- efisStateRefForSide Side.R ;; readEfisState ref) ;;
  modify (fun st =>
    with_simVars (set_MAP_PARTLY_DISPLAYED Side.R
                    (dataLimitReached r || legsCulled r) (simVars st)) st).

Definition init : M State unit :=
  call lnavDriver_ppos_assign ;;;
  l <- onEfis (allocEfisState
         {| mode := ARC; range := 10; dataLimitReached := false; legsCulled := false |}) ;;
  onEfis (modify (with_leftEfisState (Some l))) ;;;
  r <- onEfis (allocEfisState
         {| mode := ARC; range := 10; dataLimitReached := false; legsCulled := false |}) ;;
  onEfis (modify (with_rightEfisState (Some r))) ;;;
  onEfis (modify (fun e =>
    with_efisStateForSide
      (Some {| onL := leftEfisState e; onR := rightEfisState e |}) e)) ;;;
  (st <- get ;; updateEfisState Side.L (leftEfisState (efis st))) ;;;
  (st <- get ;; updateEfisState Side.R (rightEfisState (efis st))) ;;;
  (st <- get ;; onEfis (assignEfisStateForSide Side.L (leftEfisState (efis st)))) ;;;
  (st <- get ;; onEfis (assignEfisStateForSide Side.R (leftEfisState (efis st)))) ;;;
  call lnavDriver_init ;;;
  call vnavDriver_init ;;;
  call pseudoWaypoints_init ;;;
  call Coherent_on_IMM_EXIT.

(** [geometry.recomputeWithParameters(...)] with the current kinematics. *)
Definition recomputeGeometry (plan : BaseFlightPlan) (st : State) : M Geometry unit :=
  let tas := AIRSPEED_TRUE (simVars st) in
  let gs := GPS_GROUND_SPEED (simVars st) in
  let trueTrack := GPS_GROUND_TRUE_TRACK (simVars st) in
  recomputeWithParameters tas gs (lnavDriver_ppos (world st)) trueTrack
    (activeLegIndex plan) (activeLegIndex plan).

Definition tryUpdateFlightPlanGeometry (flightPlanIndex : Z) (alternate force : bool)
    : M State unit :=
  fun st =>
    let geometryPIndex := (if alternate then 100 else 0) + flightPlanIndex in
    let lastVersion := lastFlightPlanVersions st !! flightPlanIndex in
    match flightPlanService (world st) flightPlanIndex with
    | None =>
        (Normal tt, with_geometries (delete geometryPIndex (flightPlanGeometries st)) st)
    | Some fp =>
        let plan := if alternate then alternateFlightPlan fp else primary fp in
        let currentVersion := version plan in
        if negb force && bool_decide (lastVersion = Some currentVersion)
        then (Normal tt, st)
        else
          let st1 :=
            with_versions (<[flightPlanIndex := currentVersion]> (lastFlightPlanVersions st)) st in
          let isPrimary := negb alternate && (flightPlanIndex <? FirstSecondary) in
          match flightPlanGeometries st1 !! geometryPIndex with
          | Some geometry =>
              (* the stored object is changed in place *)
              let '(c, geometry') :=
                (updateFromFlightPlan plan isPrimary ;;; recomputeGeometry plan st1) geometry in
              (c, with_geometries (<[geometryPIndex := geometry']> (flightPlanGeometries st1)) st1)
          | None =>
              match createFromFlightPlan plan isPrimary with
              | Normal newGeometry =>
                  match recomputeGeometry plan st1 newGeometry with
                  | (Normal _, newGeometry') =>
                      (Normal tt,
                       with_geometries
                         (<[geometryPIndex := newGeometry']> (flightPlanGeometries st1)) st1)
                  | (Throw e, _) => (Throw e, st1)
                  end
              | Throw e => (Throw e, st1)
              end
          end
    end.

(** [try { body } catch (e) { console.error(prefix); console.error(e); }] *)
Definition logged (prefix : string) (body : M State unit) : M State unit :=
  try_catch body
    (fun e => console_error (Message prefix) ;;; console_error (Exception e)).

Definition update (deltaTime : Q) : M State unit :=
  modify (fun st => with_timer (geometryRecomputationTimer st + deltaTime)%Q st) ;;;
  (st <- get ;; updateEfisState Side.L (leftEfisState (efis st))) ;;;
  (st <- get ;; updateEfisState Side.R (rightEfisState (efis st))) ;;;
  logged "[FMS] Error during update of VNAV input parameters. See exception below."
    (call verticalProfileComputationParametersObserver_update ;;;
     call windProfileFactory_updateFmgcInputs ;;;
     call atmosphericConditions_update) ;;;
  logged "[FMS] Error during LNAV update. See exception below."
    (tryUpdateFlightPlanGeometry Active false false ;;;
     tryUpdateFlightPlanGeometry Active true false ;;;
     tryUpdateFlightPlanGeometry Temporary false false ;;;
     tryUpdateFlightPlanGeometry FirstSecondary false false ;;;
     tryUpdateFlightPlanGeometry FirstSecondary true false ;;;
     (st <- get ;;
      if Qgt_bool (geometryRecomputationTimer st) GEOMETRY_RECOMPUTATION_TIMER
      then
        modify (with_timer 0) ;;;
        tryUpdateFlightPlanGeometry Active false true ;;;
        tryUpdateFlightPlanGeometry Active true true ;;;
        tryUpdateFlightPlanGeometry Temporary false true ;;;
        tryUpdateFlightPlanGeometry FirstSecondary false true ;;;
        tryUpdateFlightPlanGeometry FirstSecondary true true ;;;
        (st' <- get ;;
         match activeGeometry st' with
         | Some g =>
             logged "[FMS] Error during active geometry profile recomputation. See exception below."
               (call (vnavDriver_acceptMultipleLegGeometry g) ;;;
                call (pseudoWaypoints_acceptMultipleLegGeometry g))
         | None => ret tt
         end)
      else ret tt) ;;;
     (st <- get ;; call (updateEfisIdent (activeGeometry st)))) ;;;
  logged "[FMS] Error during map state computation. See exception below."
    (st <- get ;; call (updateMrpState (flightPlanGeometries st))) ;;;
  logged "[FMS] Error during map partly displayed computation. See exception below."
    updateMapPartlyDisplayed ;;;
  logged "[FMS] Error during LNAV driver update. See exception below."
    (call (lnavDriver_update deltaTime)) ;;;
  logged "[FMS] Error during VNAV driver update. See exception below."
    (call (vnavDriver_update deltaTime)) ;;;
  logged "[FMS] Error during pseudo waypoints update. See exception below."
    (call (pseudoWaypoints_update deltaTime)) ;;;
  logged "[FMS] Error during EFIS vectors update. See exception below."
    (call (efisVectors_update deltaTime)) ;;;
  logged "[FMS] Error during task queue update. See exception below."
    (call (taskQueue_update deltaTime)).

(** The controller as its constructor and field initialisers leave it. *)
Definition constructed (v : SimVars) (w : World) : State :=
  {| geometryRecomputationTimer := GEOMETRY_RECOMPUTATION_TIMER + 1;
     lastFlightPlanVersions := ∅;
     flightPlanGeometries := ∅;
     efis := emptyEfisStore;
     simVars := v;
     console := [];
     world := w |}.

(** A method that leaves the EfisState objects as they are, up to a
    refresh of [mode] and [range]. *)
Definition steady {A : Type} (m : M State A) : Prop :=
  forall st, refreshOf (efis st) (efis (snd (m st))).

(** The console lines of caught exceptions: a stage prefix, then the
    exception. *)
Definition logLines (entries : list (string * Exn)) : list ConsoleLine :=
  entries ≫= (fun entry => [Message (fst entry); Exception (snd entry)]).

(** What a stage may do to the controller's own fields without the
    periodic reset: refresh [mode] and [range] of the EfisState
    objects and log caught exceptions. *)
Definition quietStep (st st' : State) : Prop :=
  refreshOf (efis st) (efis st')
  /\ geometryRecomputationTimer st' = geometryRecomputationTimer st
  /\ exists entries, console st' = console st ++ logLines entries.

(** The geometry factory and the recomputation return for every input. *)
Definition geometryNeverThrows : Prop :=
  (forall plan isPrimary, exists g, createFromFlightPlan plan isPrimary = Normal g)
  /\ (forall plan isPrimary g, fst (updateFromFlightPlan plan isPrimary g) = Normal tt)
  /\ (forall tas gs ppos trueTrack leg transition g,
        fst (recomputeWithParameters tas gs ppos trueTrack leg transition g) = Normal tt).

(** The bodies of the guarded stages of [update]. *)
Definition vnavInputsStage : M State unit :=
  call verticalProfileComputationParametersObserver_update ;;;
  call windProfileFactory_updateFmgcInputs ;;;
  call atmosphericConditions_update.

Definition profileStage (g : Geometry) : M State unit :=
  call (vnavDriver_acceptMultipleLegGeometry g) ;;;
  call (pseudoWaypoints_acceptMultipleLegGeometry g).

Definition lnavStage : M State unit :=
  tryUpdateFlightPlanGeometry Active false false ;;;
  tryUpdateFlightPlanGeometry Active true false ;;;
  tryUpdateFlightPlanGeometry Temporary false false ;;;
  tryUpdateFlightPlanGeometry FirstSecondary false false ;;;
  tryUpdateFlightPlanGeometry FirstSecondary true false ;;;
  (st <- get ;;
   if Qgt_bool (geometryRecomputationTimer st) GEOMETRY_RECOMPUTATION_TIMER
   then
     modify (with_timer 0) ;;;
     tryUpdateFlightPlanGeometry Active false true ;;;
     tryUpdateFlightPlanGeometry Active true true ;;;
     tryUpdateFlightPlanGeometry Temporary false true ;;;
     tryUpdateFlightPlanGeometry FirstSecondary false true ;;;
     tryUpdateFlightPlanGeometry FirstSecondary true true ;;;
     (st' <- get ;;
      match activeGeometry st' with
      | Some g =>
          logged "[FMS] Error during active geometry profile recomputation. See exception below."
            (profileStage g)
      | None => ret tt
      end)
   else ret tt) ;;;
  (st <- get ;; call (updateEfisIdent (activeGeometry st))).

Definition mapStateStage : M State unit :=
  st <- get ;; call (updateMrpState (flightPlanGeometries st)).

(** The guards of [update]: the prefix that a guard logs and the body
    that it guards. *)
Inductive guardedStage (deltaTime : Q) : string -> M State unit -> Prop :=
  | guards_vnav_inputs :
      guardedStage deltaTime
        "[FMS] Error during update of VNAV input parameters. See exception below."
        vnavInputsStage
  | guards_profile (g : Geometry) :
      guardedStage deltaTime
        "[FMS] Error during active geometry profile recomputation. See exception below."
        (profileStage g)
  | guards_lnav :
      guardedStage deltaTime "[FMS] Error during LNAV update. See exception below." lnavStage
  | guards_map_state :
      guardedStage deltaTime "[FMS] Error during map state computation. See exception below."
        mapStateStage
  | guards_map_partly_displayed :
      guardedStage deltaTime
        "[FMS] Error during map partly displayed computation. See exception below."
        updateMapPartlyDisplayed
  | guards_lnav_driver :
      guardedStage deltaTime "[FMS] Error during LNAV driver update. See exception below."
        (call (lnavDriver_update deltaTime))
  | guards_vnav_driver :
      guardedStage deltaTime "[FMS] Error during VNAV driver update. See exception below."
        (call (vnavDriver_update deltaTime))
  | guards_pseudo_waypoints :
      guardedStage deltaTime "[FMS] Error during pseudo waypoints update. See exception below."
        (call (pseudoWaypoints_update deltaTime))
  | guards_efis_vectors :
      guardedStage deltaTime "[FMS] Error during EFIS vectors update. See exception below."
        (call (efisVectors_update deltaTime))
  | guards_task_queue :
      guardedStage deltaTime "[FMS] Error during task queue update. See exception below."
        (call (taskQueue_update deltaTime)).

(** A pair of lines that a guard of [update] writes: the prefix of a
    stage, and an exception that the body of this stage threw. *)
Definition caughtInStage (deltaTime : Q) (entry : string * Exn) : Prop :=
  exists body s, guardedStage deltaTime (fst entry) body /\ fst (body s) = Throw (snd entry).

(** A step that writes nothing to the console. *)
Definition silentStep (st st' : State) : Prop := console st' = console st.

(** A step that writes to the console only what guards of [update] log. *)
Definition guardLogStep (deltaTime : Q) (st st' : State) : Prop :=
  exists entries,
    console st' = console st ++ logLines entries
    /\ Forall (caughtInStage deltaTime) entries.

End Controller.

Module MapReferencePoint.

(** *** The map reference point

    [updateMrpState] with what it reads and writes. The legs of a
    geometry and the [isXF] test of a flight-plan leg live outside the
    files at hand and are parameters; [hasActive] of the flight-plan
    service is taken as [has(FlightPlanIndex.Active)]. *)

Inductive TerminationWaypoint : Type :=
  | RawCoordinates (coordinates : Coordinates)   (* an object with a [lat] of its own *)
  | DatabaseFix (location : Coordinates).

Record MrpVars : Type := {
  SELECTED_WAYPOINT_FP_INDEX : Z;
  SELECTED_WAYPOINT_INDEX : Z;
  SELECTED_WAYPOINT_IN_ALTERNATE : bool;
  PLANE_LATITUDE : Q;
  PLANE_LONGITUDE : Q;
  SELECTED_WAYPOINT_LAT : Q;
  SELECTED_WAYPOINT_LONG : Q;
}.

Definition set_SELECTED_WAYPOINT (position : Coordinates) (v : MrpVars) : MrpVars :=
  {| SELECTED_WAYPOINT_FP_INDEX := SELECTED_WAYPOINT_FP_INDEX v;
     SELECTED_WAYPOINT_INDEX := SELECTED_WAYPOINT_INDEX v;
     SELECTED_WAYPOINT_IN_ALTERNATE := SELECTED_WAYPOINT_IN_ALTERNATE v;
     PLANE_LATITUDE := PLANE_LATITUDE v;
     PLANE_LONGITUDE := PLANE_LONGITUDE v;
     SELECTED_WAYPOINT_LAT := lat position;
     SELECTED_WAYPOINT_LONG := long position |}.

Section MapReferencePoint.

Context `{Collaborators}.

Variable GeometryLeg : Type.

(** [geometry.legs.get(index)] *)
Variable legsGet : Geometry -> Z -> option GeometryLeg.

(** [geometryLeg.terminationWaypoint] *)
Variable terminationWaypoint : GeometryLeg -> option TerminationWaypoint.

(** [leg.isXF()] *)
Variable isXF : FlightPlanElement -> bool.

Record MrpState : Type := {
  controller : State;
  mrpVars : MrpVars;
  lastFocusedWpIndex : Z;
  focusedWaypointCoordinates : Coordinates;
}.

Definition with_controller (c : State) (s : MrpState) : MrpState :=
  {| controller := c; mrpVars := mrpVars s; lastFocusedWpIndex := lastFocusedWpIndex s;
     focusedWaypointCoordinates := focusedWaypointCoordinates s |}.

Definition with_mrpVars (v : MrpVars) (s : MrpState) : MrpState :=
  {| controller := controller s; mrpVars := v; lastFocusedWpIndex := lastFocusedWpIndex s;
     focusedWaypointCoordinates := focusedWaypointCoordinates s |}.

Definition with_lastFocusedWpIndex (i : Z) (s : MrpState) : MrpState :=
  {| controller := controller s; mrpVars := mrpVars s; lastFocusedWpIndex := i;
     focusedWaypointCoordinates := focusedWaypointCoordinates s |}.

Definition with_focusedWaypointCoordinates (c : Coordinates) (s : MrpState) : MrpState :=
  {| controller := controller s; mrpVars := mrpVars s;
     lastFocusedWpIndex := lastFocusedWpIndex s; focusedWaypointCoordinates := c |}.

Definition onController {A : Type} (m : M State A) : M MrpState A :=
  fun s => let '(c, st) := m (controller s) in (c, with_controller st s).

Definition updateMrpState : M MrpState unit :=
  s <- get ;;
  let st := controller s in
  if negb (bool_decide (is_Some (flightPlanService (world st) Active))) then ret tt
  else
    let focusedWpFpIndex := SELECTED_WAYPOINT_FP_INDEX (mrpVars s) in
    let focusedWpIndex := SELECTED_WAYPOINT_INDEX (mrpVars s) in
    let focusedWpInAlternate := SELECTED_WAYPOINT_IN_ALTERNATE (mrpVars s) in
    match flightPlanService (world st) focusedWpFpIndex with
    | None => ret tt
    | Some fp =>
        let plan := if focusedWpInAlternate then alternateFlightPlan fp else primary fp in
        if negb (hasElement plan focusedWpIndex) then ret tt
        else
          match elementAt plan focusedWpIndex with
          | None => ret tt
          | Some Discontinuity => ret tt
          | Some matchingLeg =>
              if negb (isXF matchingLeg) then ret tt
              else if negb (hasGeometryForFlightPlan focusedWpFpIndex false st) then ret tt
              else
                match getGeometryForFlightPlan focusedWpFpIndex focusedWpInAlternate st with
                | None => throw (TypeError "Cannot read properties of undefined")
                | Some geometry =>
                    match legsGet geometry focusedWpIndex with
                    | None =>
                        modify (fun s =>
                          with_mrpVars
                            (set_SELECTED_WAYPOINT
                               {| lat := PLANE_LATITUDE (mrpVars s);
                                  long := PLANE_LONGITUDE (mrpVars s) |} (mrpVars s)) s)
                    | Some matchingGeometryLeg =>
                        (if bool_decide (lastFocusedWpIndex s ≠ focusedWpIndex)
                         then
                           modify (with_lastFocusedWpIndex focusedWpIndex) ;;;
                           onController (call efisVectors_forceUpdate)
                         else ret tt) ;;;
                        match terminationWaypoint matchingGeometryLeg with
                        | None => throw (TypeError "Cannot use 'in' operator to search for 'lat' in undefined")
                        | Some waypoint =>
                            let termination :=
                              match waypoint with
                              | RawCoordinates c => c
                              | DatabaseFix location => location
                              end in
                            modify (with_focusedWaypointCoordinates termination) ;;;
                            modify (fun s =>
                              with_mrpVars
                                (set_SELECTED_WAYPOINT (focusedWaypointCoordinates s)
                                   (mrpVars s)) s)
                        end
                    end
                end
          end
    end.

End MapReferencePoint.

End MapReferencePoint.

End GuidanceController.

(** ** EfisSymbols *)

Module EfisSymbols.

(** *** Merge by identity *)

Definition sameDatabaseId (symbol s : NdSymbol) : bool :=
  bool_decide (databaseId s = databaseId symbol).

(** The [radials] / [radii] part of the merge: the old list is pushed
    onto the new one, or adopted when the new symbol has none. *)
Definition mergeList (new old : option (list Q)) : option (list Q) :=
  match old with
  | Some o =>
      match new with
      | Some n => Some (n ++ o)
      | None => Some o
      end
  | None => new
  end.

(** The assignments made to [symbol] when [oldSymbol] was found. Every
    call site hands [upsertSymbol] an object it has just built, so the
    argument that the code changes in place is rendered as the value
    that ends up in the list. *)
Definition mergeSymbol (symbol oldSymbol : NdSymbol) : NdSymbol :=
  {| databaseId := databaseId symbol;
     ident := ident symbol;
     location := location symbol ?? location oldSymbol;
     type := Js.bitor (type symbol) (type oldSymbol);
     constraints := constraints symbol ?? constraints oldSymbol;
     direction := direction symbol ?? direction oldSymbol;
     length_nm := length_nm symbol ?? length_nm oldSymbol;
     radials := mergeList (radials symbol) (radials oldSymbol);
     radii := mergeList (radii symbol) (radii oldSymbol) |}.

Definition upsertSymbol (symbols : list NdSymbol) (symbol : NdSymbol) : list NdSymbol :=
  match Js.findIndex (sameDatabaseId symbol) symbols with
  | Some symbolIdx =>
      match symbols !! symbolIdx with
      | Some oldSymbol => delete symbolIdx symbols ++ [mergeSymbol symbol oldSymbol]
      | None => symbols ++ [symbol]
      end
  | None => symbols ++ [symbol]
  end.

(** No symbol of [l] has the identifier of [s]. *)
Definition freshFor (s : NdSymbol) (l : list NdSymbol) : Prop :=
  Forall (fun x => databaseId x <> databaseId s) l.

(** The calls that named the identifier [id]. *)
Definition occurrences (id : string) (calls : list NdSymbol) : list NdSymbol :=
  filter (fun s => databaseId s = id) calls.

Definition absentOrEmpty (l : option (list Q)) : Prop := l = None \/ l = Some [].

(** A symbol without fix-info radials and radii. *)
Definition carriesNoRings (s : NdSymbol) : Prop :=
  absentOrEmpty (radials s) /\ absentOrEmpty (radii s).

(** The visible result, in the specification's words: two lists of
    radials or of radii show the same rings when they hold the same
    values, however often each is repeated. *)
Definition spec_sameRings (a b : option (list Q)) : Prop :=
  match a, b with
  | Some x, Some y => forall q, q ∈ x <-> q ∈ y
  | None, None => True
  | _, _ => False
  end.

(** Two symbols that are drawn alike: equal in every field, with the
    same rings. *)
Definition spec_sameVisibleSymbol (a b : NdSymbol) : Prop :=
  databaseId a = databaseId b
  /\ ident a = ident b
  /\ location a = location b
  /\ type a = type b
  /\ constraints a = constraints b
  /\ direction a = direction b
  /\ length_nm a = length_nm b
  /\ spec_sameRings (radials a) (radials b)
  /\ spec_sameRings (radii a) (radii b).
(** The working list after a run of [upsertSymbol] calls on [symbols]. *)
Definition upsertAll (symbols : list NdSymbol) (calls : list NdSymbol) : list NdSymbol :=
  fold_left upsertSymbol calls symbols.

(** The merge of the calls that named one identifier, in call order. *)
Definition mergeAll (calls : list NdSymbol) : option NdSymbol :=
  fold_left
    (fun merged symbol =>
       Some match merged with
            | Some oldSymbol => mergeSymbol symbol oldSymbol
            | None => symbol
            end)
    calls None.

(** *** Symbol budget *)

Definition wordsPerSymbol : Q := 6.

Definition maxSymbols : Q := 640 / wordsPerSymbol.

(** The list that is sent and the value written to [dataLimitReached]. *)
Definition limitSymbols (symbols : list NdSymbol) : list NdSymbol * bool :=
  let len := inject_Z (Z.of_nat (length symbols)) in
  if Qgt_bool len maxSymbols
  then (Js.splice_front (len - maxSymbols)%Q symbols, true)
  else (symbols, false).

(** *** Edit area *)

Definition calculateEditArea (range : Q) (mode : EfisNdMode) : Q * Q * Q :=
  match mode with
  | ARC =>
      if Qle_bool range 10 then (10.5, 3.5, 8.3)
      else if Qle_bool range 20 then (20.5, 7, 16.6)
      else if Qle_bool range 40 then (40.5, 14, 33.2)
      else if Qle_bool range 80 then (80.5, 28, 66.4)
      else if Qle_bool range 160 then (160.5, 56, 132.8)
      else (320.5, 112, 265.6)
  | ROSE_NAV =>
      if Qle_bool range 10 then (7.6, 7.1, 7.1)
      else if Qle_bool range 20 then (14.7, 14.2, 14.2)
      else if Qle_bool range 40 then (28.9, 28.4, 28.4)
      else if Qle_bool range 80 then (57.3, 56.8, 56.8)
      else if Qle_bool range 160 then (114.1, 113.6, 113.6)
      else (227.7, 227.2, 227.2)
  | PLAN =>
      if Qle_bool range 10 then (7, 7, 7)
      else if Qle_bool range 20 then (14, 14, 14)
      else if Qle_bool range 40 then (28, 28, 28)
      else if Qle_bool range 80 then (56, 56, 56)
      else if Qle_bool range 160 then (112, 112, 112)
      else (224, 224, 224)
  | _ => (0, 0, 0)
  end%Q.

(** The lookup table of the specification: one row per mode, one
    column per range band. *)
Inductive RangeBand : Type := UpTo10 | UpTo20 | UpTo40 | UpTo80 | UpTo160 | Above160.

Definition spec_rangeBand (range : Q) : RangeBand :=
  if Qle_bool range 10 then UpTo10
  else if Qle_bool range 20 then UpTo20
  else if Qle_bool range 40 then UpTo40
  else if Qle_bool range 80 then UpTo80
  else if Qle_bool range 160 then UpTo160
  else Above160.

Inductive TableRow : Type := RowArc | RowRoseNav | RowPlan.

Definition modeOfRow (row : TableRow) : EfisNdMode :=
  match row with
  | RowArc => ARC
  | RowRoseNav => ROSE_NAV
  | RowPlan => PLAN
  end.

Definition spec_editAreaTable (row : TableRow) (band : RangeBand) : Q * Q * Q :=
  match row, band with
  | RowArc, UpTo10 => (10.5, 3.5, 8.3)
  | RowArc, UpTo20 => (20.5, 7, 16.6)
  | RowArc, UpTo40 => (40.5, 14, 33.2)
  | RowArc, UpTo80 => (80.5, 28, 66.4)
  | RowArc, UpTo160 => (160.5, 56, 132.8)
  | RowArc, Above160 => (320.5, 112, 265.6)
  | RowRoseNav, UpTo10 => (7.6, 7.1, 7.1)
  | RowRoseNav, UpTo20 => (14.7, 14.2, 14.2)
  | RowRoseNav, UpTo40 => (28.9, 28.4, 28.4)
  | RowRoseNav, UpTo80 => (57.3, 56.8, 56.8)
  | RowRoseNav, UpTo160 => (114.1, 113.6, 113.6)
  | RowRoseNav, Above160 => (227.7, 227.2, 227.2)
  | RowPlan, UpTo10 => (7, 7, 7)
  | RowPlan, UpTo20 => (14, 14, 14)
  | RowPlan, UpTo40 => (28, 28, 28)
  | RowPlan, UpTo80 => (56, 56, 56)
  | RowPlan, UpTo160 => (112, 112, 112)
  | RowPlan, Above160 => (224, 224, 224)
  end%Q.

Definition positiveEditArea (range : Q) (mode : EfisNdMode) : Prop :=
  let '(ahead, behind, beside) := calculateEditArea range mode in
  (0 < ahead /\ 0 < behind /\ 0 < beside)%Q.

Definition Rltb (a b : R) : bool := if Rlt_dec a b then true else false.

Section EditAreaTest.

(** [distanceTo] and [bearingTo] of msfs-geo and [MathUtils.clampAngle]. *)
Variable distanceTo : Coordinates -> Coordinates -> R.
Variable bearingTo : Coordinates -> Coordinates -> R.
Variable clampAngle : R -> R.

(** The closure [withinEditArea] of one side's pass, with what it
    captures: the plan-centre [termination], [ppos], [trueHeading] and the
    side's [range] and [mode]. *)
Definition withinEditArea (termination : option Coordinates) (ppos : Coordinates)
    (trueHeading : R) (range : Q) (mode : EfisNdMode) (ll : Coordinates) : bool :=
  let '(editAhead, editBehind, editBeside) := calculateEditArea range mode in
  match termination with
  | None => true
  | Some termination =>
      let origin := if bool_decide (mode = PLAN) then termination else ppos in
      let dist := distanceTo origin ll in
      let bearing := bearingTo origin ll in
      let bearing :=
        if bool_decide (mode ≠ PLAN) then clampAngle (bearing - trueHeading)%R
        else bearing in
      let bearing := (bearing * PI / 180)%R in
      let dx := (dist * sin bearing)%R in
      let dy := (dist * cos bearing)%R in
      Rltb (Rabs dx) (Q2R editBeside)
      && Rltb (- Q2R editBehind)%R dy
      && Rltb dy (Q2R editAhead)
  end.

(** The test as the specification words it: the candidate as a
    bearing and distance from the reference point, and its along-track
    and cross-track offsets. *)
Definition spec_referencePoint (mode : EfisNdMode) (planCentre ppos : Coordinates)
    : Coordinates :=
  match mode with
  | PLAN => planCentre
  | _ => ppos
  end.

Definition spec_bearing (mode : EfisNdMode) (planCentre ppos : Coordinates)
    (trueHeading : R) (ll : Coordinates) : R :=
  let b := bearingTo (spec_referencePoint mode planCentre ppos) ll in
  match mode with
  | PLAN => b
  | _ => clampAngle (b - trueHeading)%R
  end.

Definition spec_alongTrackOffset (mode : EfisNdMode) (planCentre ppos : Coordinates)
    (trueHeading : R) (ll : Coordinates) : R :=
  (distanceTo (spec_referencePoint mode planCentre ppos) ll
   * cos (spec_bearing mode planCentre ppos trueHeading ll * PI / 180))%R.

Definition spec_crossTrackOffset (mode : EfisNdMode) (planCentre ppos : Coordinates)
    (trueHeading : R) (ll : Coordinates) : R :=
  (distanceTo (spec_referencePoint mode planCentre ppos) ll
   * sin (spec_bearing mode planCentre ppos trueHeading ll * PI / 180))%R.

Definition spec_insideEditArea (planCentre ppos : Coordinates) (trueHeading : R)
    (range : Q) (mode : EfisNdMode) (ll : Coordinates) : Prop :=
  let '(ahead, behind, beside) := calculateEditArea range mode in
  let along := spec_alongTrackOffset mode planCentre ppos trueHeading ll in
  let cross := spec_crossTrackOffset mode planCentre ppos trueHeading ll in
  (- Q2R behind < along /\ along < Q2R ahead /\ Rabs cross < Q2R beside)%R.

End EditAreaTest.

(** *** Constraint texts *)

(** The closure [formatConstraintAlt] of one side's pass; [prefix]
    is the empty string where the caller leaves it out. *)
Definition formatConstraintAlt (alt : Q) (descent : bool) (prefix : string) : string :=
  let transAlt := 18000%Q in
  let transFl := 180 in
  let feet := prefix +:+ Js.numberToString (Js.round alt) in
  if descent
  then
    let fl := Js.round (alt / 100) in
    if negb (transFl =? 0) && (transFl <=? fl)
    then prefix +:+ "FL" +:+ Js.numberToString fl
    else feet
  else
    if negb (Qeq_bool transAlt 0) && Qle_bool transAlt alt
    then prefix +:+ "FL" +:+ Js.numberToString (Js.round (alt / 100))
    else feet.

(** *** One invocation of [update] *)

(** What an invocation reads from the simulator and its collaborators:
    the change flags of the position, heading, facility, flight-plan,
    navaid and VNAV caches; the plan that the selected-waypoint variables
    designate, if the flight-plan service has it; the display settings of
    each side; and, for each side, the symbols that its pass hands to
    [upsertSymbol], in call order. *)
Record Inputs `{FlightPlanning} : Type := {
  pposChanged : bool;
  trueHeadingChanged : bool;
  nearbyFacilitiesChanged : bool;
  fpChanged : bool;
  navaidsChanged : bool;
  vnavPredictionsChanged : bool;
  planCentrePlan : option BaseFlightPlan;
  planCentreIndex : Z;
  ndRange : PerSide Q;
  ndMode : PerSide EfisNdMode;
  ndEfisOption : PerSide EfisOption;
  upsertCalls : EfisSide -> list NdSymbol;
}.

Record State : Type := {
  blockUpdate : bool;
  lastMode : PerSide (option EfisNdMode);     (* [-1] is [None] *)
  lastRange : PerSide Q;
  lastEfisOption : PerSide EfisOption;
  lastPlanCentre : option Coordinates;
  guidanceController : GuidanceController.EfisStore;
  syncer : list (EfisSide * list NdSymbol);   (* events sent, oldest first *)
}.

Definition initialState (gc : GuidanceController.EfisStore) : State :=
  {| blockUpdate := false;
     lastMode := {| onL := None; onR := None |};
     lastRange := {| onL := 0%Q; onR := 0%Q |};
     lastEfisOption := {| onL := OptNone; onR := OptNone |};
     lastPlanCentre := None;
     guidanceController := gc;
     syncer := [] |}.

Definition with_blockUpdate (b : bool) (st : State) : State :=
  {| blockUpdate := b; lastMode := lastMode st; lastRange := lastRange st;
     lastEfisOption := lastEfisOption st; lastPlanCentre := lastPlanCentre st;
     guidanceController := guidanceController st; syncer := syncer st |}.

Definition with_lastMode (v : PerSide (option EfisNdMode)) (st : State) : State :=
  {| blockUpdate := blockUpdate st; lastMode := v; lastRange := lastRange st;
     lastEfisOption := lastEfisOption st; lastPlanCentre := lastPlanCentre st;
     guidanceController := guidanceController st; syncer := syncer st |}.

Definition with_lastRange (v : PerSide Q) (st : State) : State :=
  {| blockUpdate := blockUpdate st; lastMode := lastMode st; lastRange := v;
     lastEfisOption := lastEfisOption st; lastPlanCentre := lastPlanCentre st;
     guidanceController := guidanceController st; syncer := syncer st |}.

Definition with_lastEfisOption (v : PerSide EfisOption) (st : State) : State :=
  {| blockUpdate := blockUpdate st; lastMode := lastMode st; lastRange := lastRange st;
     lastEfisOption := v; lastPlanCentre := lastPlanCentre st;
     guidanceController := guidanceController st; syncer := syncer st |}.

Definition with_lastPlanCentre (v : option Coordinates) (st : State) : State :=
  {| blockUpdate := blockUpdate st; lastMode := lastMode st; lastRange := lastRange st;
     lastEfisOption := lastEfisOption st; lastPlanCentre := v;
     guidanceController := guidanceController st; syncer := syncer st |}.

Definition with_guidanceController (v : GuidanceController.EfisStore) (st : State) : State :=
  {| blockUpdate := blockUpdate st; lastMode := lastMode st; lastRange := lastRange st;
     lastEfisOption := lastEfisOption st; lastPlanCentre := lastPlanCentre st;
     guidanceController := v; syncer := syncer st |}.

(** The state above holds what the loop over the sides reads and
    writes. The call [nearby.update] at the head of [update] and the
    caches [lastPpos], [lastTrueHeading] and the version caches, written
    before the loop, are outside it: their outcome enters as the change
    flags of [Inputs]. *)

(** [this.syncer.sendEvent(`A32NX_EFIS_${side}_SYMBOLS`, symbols)] *)
Definition sendEvent (side : EfisSide) (symbols : list NdSymbol) : M State unit :=
  modify (fun st =>
    {| blockUpdate := blockUpdate st; lastMode := lastMode st; lastRange := lastRange st;
       lastEfisOption := lastEfisOption st; lastPlanCentre := lastPlanCentre st;
       guidanceController := guidanceController st;
       syncer := syncer st ++ [(side, symbols)] |}).

Definition onGuidanceController {A : Type} (m : M GuidanceController.EfisStore A) : M State A :=
  fun st => let '(c, e) := m (guidanceController st) in (c, with_guidanceController e st).

(** How an iteration of the loop over the sides ends: it falls through
    to the next side ([continue] included) or leaves [update] ([return]). *)
Inductive Flow : Type := NextSide | Return.

Fixpoint forSides (body : EfisSide -> M State Flow) (sides : list EfisSide) : M State unit :=
  match sides with
  | [] => ret tt
  | side :: rest =>
      flow <- body side ;;
      match flow with
      | NextSide => forSides body rest
      | Return => ret tt
      end
  end.

Definition sides : list EfisSide := [Side.L; Side.R].

Definition isDiscontinuity (e : option FlightPlanElement) : bool :=
  match e with
  | Some Discontinuity => true
  | _ => false
  end.

Definition terminationLocationOf (e : FlightPlanElement) : option Coordinates :=
  match e with
  | Leg l => l
  | Discontinuity => None
  end.

(** [a !== b] on two numbers that may be [undefined]. *)
Definition differs (a b : option Q) : bool :=
  match a, b with
  | Some x, Some y => Qneq_bool x y
  | None, None => false
  | _, _ => true
  end.

Section Update.

Context `{FlightPlanning}.

(** The body of [for (const side of EfisSymbols.sides)]. *)
Definition sidePass (inp : Inputs) (planCentre : option FlightPlanElement)
    (planCentreChanged : bool) (side : EfisSide) : M State Flow :=
  let range := sideGet side (ndRange inp) in
  let mode := sideGet side (ndMode inp) in
  let efisOption := sideGet side (ndEfisOption inp) in
  st <- get ;;
  let rangeChange := Qneq_bool (sideGet side (lastRange st)) range in
  modify (fun st => with_lastRange (sideSet side range (lastRange st)) st) ;;;
  let modeChange := bool_decide (sideGet side (lastMode st) ≠ Some mode) in
  modify (fun st => with_lastMode (sideSet side (Some mode) (lastMode st)) st) ;;;
  let efisOptionChange := bool_decide (sideGet side (lastEfisOption st) ≠ efisOption) in
  modify (fun st => with_lastEfisOption (sideSet side efisOption (lastEfisOption st)) st) ;;;
  let nearbyOverlayChanged :=
    bool_decide (efisOption ≠ Constraints) && bool_decide (efisOption ≠ OptNone)
    && nearbyFacilitiesChanged inp in
  if negb (pposChanged inp)
     && negb (trueHeadingChanged inp)
     && negb rangeChange
     && negb modeChange
     && negb efisOptionChange
     && negb nearbyOverlayChanged
     && negb (fpChanged inp)
     && negb planCentreChanged
     && negb (navaidsChanged inp)
     && negb (vnavPredictionsChanged inp)
  then ret NextSide
  else if bool_decide (mode = PLAN) && negb (bool_decide (is_Some planCentre))
  then sendEvent side [] ;;; ret Return
  else
    let symbols := upsertAll [] (upsertCalls inp side) in
    let '(symbols, limit) := limitSymbols symbols in
    onGuidanceController (GuidanceController.writeDataLimitReached side limit) ;;;
    sendEvent side symbols ;;;
    modify (with_blockUpdate true) ;;;
    ret NextSide.

(** The list that a pass of [side] sends when it runs to its end. *)
Definition sentBy (inp : Inputs) (side : EfisSide) : list NdSymbol :=
  fst (limitSymbols (upsertAll [] (upsertCalls inp side))).

Definition update (inp : Inputs) : M State unit :=
  st <- get ;;
  if blockUpdate st then ret tt
  else
    match planCentrePlan inp with
    | None => ret tt
    | Some plan =>
        if negb (hasElement plan (planCentreIndex inp)) then ret tt
        else
          let planCentre := elementAt plan (planCentreIndex inp) in
          let planCentre :=
            if isDiscontinuity planCentre
            then elementAt plan (Z.max 0 (planCentreIndex inp - 1))
            else planCentre in
          if isDiscontinuity planCentre then throw (Error "bruh")
          else
            let termination := planCentre ≫= terminationLocationOf in
            (match termination with
             | Some _ => modify (with_lastPlanCentre termination)
             | None => ret tt
             end) ;;;
            st <- get ;;
            let planCentreChanged :=
              differs (lat <$> termination) (lat <$> lastPlanCentre st)
              || differs (long <$> termination) (long <$> lastPlanCentre st) in
            forSides (sidePass inp planCentre planCentreChanged) sides
    end.

End Update.

End EfisSymbols.

(** ** A small concrete world

    Flight plans as lists of elements, collaborators that do nothing and
    never throw, and a flat stand-in for the geodesy of one meridian;
    used to run the methods on concrete inputs. *)

Module Scenario.

Record Plan : Type := {
  planVersion : Z;
  planActiveLeg : Z;
  planElements : list (option FlightPlanElement);
}.

#[local] Instance planning : FlightPlanning :=
  {| BaseFlightPlan := Plan;
     version := planVersion;
     activeLegIndex := planActiveLeg;
     hasElement := fun p i => (0 <=? i) && (i <? Z.of_nat (length (planElements p)));
     elementAt := fun p i =>
       if 0 <=? i then mjoin (planElements p !! Z.to_nat i) else None;
     Active := 0;
     Temporary := 1;
     FirstSecondary := 3 |}.

(** The geometry of a plan is stood for by the version it was built from. *)
Definition quiet : @GuidanceController.Collaborators planning :=
  {| GuidanceController.World := gmap Z (@FlightPlan planning);
     GuidanceController.Geometry := Z;
     GuidanceController.flightPlanService := fun w i => w !! i;
     GuidanceController.lnavDriver_ppos := fun _ => {| lat := 0; long := 0 |};
     GuidanceController.createFromFlightPlan := fun p _ => Normal (planVersion p);
     GuidanceController.updateFromFlightPlan := fun p _ _ => (Normal tt, planVersion p);
     GuidanceController.recomputeWithParameters := fun _ _ _ _ _ _ => ret tt;
     GuidanceController.taskQueue_cancelAllInCategory_EfisVectors := ret tt;
     GuidanceController.efisVectors_forceUpdate := ret tt;
     GuidanceController.updateEfisApproachMessage := ret tt;
     GuidanceController.verticalProfileComputationParametersObserver_update := ret tt;
     GuidanceController.windProfileFactory_updateFmgcInputs := ret tt;
     GuidanceController.atmosphericConditions_update := ret tt;
     GuidanceController.vnavDriver_acceptMultipleLegGeometry := fun _ => ret tt;
     GuidanceController.pseudoWaypoints_acceptMultipleLegGeometry := fun _ => ret tt;
     GuidanceController.updateEfisIdent := fun _ => ret tt;
     GuidanceController.updateMrpState := fun _ => ret tt;
     GuidanceController.lnavDriver_ppos_assign := ret tt;
     GuidanceController.lnavDriver_init := ret tt;
     GuidanceController.vnavDriver_init := ret tt;
     GuidanceController.pseudoWaypoints_init := ret tt;
     GuidanceController.lnavDriver_update := fun _ => ret tt;
     GuidanceController.vnavDriver_update := fun _ => ret tt;
     GuidanceController.pseudoWaypoints_update := fun _ => ret tt;
     GuidanceController.efisVectors_update := fun _ => ret tt;
     GuidanceController.taskQueue_update := fun _ => ret tt;
     GuidanceController.Coherent_on_IMM_EXIT := ret tt |}.

Definition simVarsArc10 : GuidanceController.SimVars :=
  {| GuidanceController.EFIS_ND_MODE := {| onL := ARC; onR := ARC |};
     GuidanceController.EFIS_ND_RANGE := {| onL := 10%Q; onR := 10%Q |};
     GuidanceController.EFIS_MAP_PARTLY_DISPLAYED := {| onL := false; onR := false |};
     GuidanceController.AIRSPEED_TRUE := 250%Q;
     GuidanceController.GPS_GROUND_SPEED := 260%Q;
     GuidanceController.GPS_GROUND_TRUE_TRACK := 90%Q |}.

Definition waypointA : Coordinates := {| lat := 47%Q; long := 8%Q |}.

Definition waypointB : Coordinates := {| lat := 48%Q; long := 9%Q |}.

Definition twoLegs : Plan :=
  {| planVersion := 7; planActiveLeg := 1;
     planElements := [Some (Leg (Some waypointA)); Some (Leg (Some waypointB))] |}.

(** A plan whose second slot holds no element. *)
Definition holedPlan : Plan :=
  {| planVersion := 7; planActiveLeg := 1;
     planElements := [Some (Leg (Some waypointA)); None] |}.

Definition activePlan : @FlightPlan planning :=
  {| primary := twoLegs; alternateFlightPlan := twoLegs |}.

Definition activeOnly : gmap Z (@FlightPlan planning) := {[ 0 := activePlan ]}.

(** The controller before [init] has run, and after. *)
Definition beforeInit : @GuidanceController.State planning quiet :=
  @GuidanceController.constructed planning quiet simVarsArc10 activeOnly.

Definition afterInit : @GuidanceController.State planning quiet :=
  snd (@GuidanceController.init planning quiet beforeInit).

(** The controller with the active plan's version already seen. *)
Definition versionSeen : @GuidanceController.State planning quiet :=
  @GuidanceController.with_versions planning quiet {[ 0 := 7 ]} afterInit.

(** The controller when the flight-plan service holds no plan. *)
Definition noPlans : @GuidanceController.State planning quiet :=
  @GuidanceController.with_geometries planning quiet {[ 0 := 7; 100 := 7 ]}
    (@GuidanceController.constructed planning quiet simVarsArc10 ∅).

Definition symbolNamed (id : string) (flags : Z) : NdSymbol :=
  {| databaseId := id; ident := id; location := Some waypointA; type := flags;
     constraints := None; direction := None; length_nm := None;
     radials := None; radii := None |}.

(** A fix-info symbol with one radial and one radius. *)
Definition fixInfoSymbol : NdSymbol :=
  {| databaseId := "WLSZH    KLO"; ident := "KLO"; location := Some waypointA;
     type := 1024; constraints := None; direction := None; length_nm := None;
     radials := Some [90%Q]; radii := Some [20%Q] |}.

(** [n] symbols with pairwise different identifiers. *)
Definition distinctSymbols (n : nat) : list NdSymbol :=
  (fun i => symbolNamed (String.string_of_list_ascii (replicate (S i) "W"%char)) 1)
    <$> seq 0 n.

(** What each side's pass upserts when a few symbols are in view. *)
Definition fewSymbols (side : EfisSide) : list NdSymbol :=
  match side with
  | Side.L => [symbolNamed "WLSZH  TRA" 1]
  | Side.R => [symbolNamed "WLSZH  KLO" 1]
  end.

Definition inputs (centrePlan : option Plan) (centreIndex : Z)
    (modeL modeR : EfisNdMode) (calls : EfisSide -> list NdSymbol)
    : @EfisSymbols.Inputs planning :=
  {| EfisSymbols.pposChanged := true;
     EfisSymbols.trueHeadingChanged := false;
     EfisSymbols.nearbyFacilitiesChanged := false;
     EfisSymbols.fpChanged := false;
     EfisSymbols.navaidsChanged := false;
     EfisSymbols.vnavPredictionsChanged := false;
     EfisSymbols.planCentrePlan := centrePlan;
     EfisSymbols.planCentreIndex := centreIndex;
     EfisSymbols.ndRange := {| onL := 10%Q; onR := 10%Q |};
     EfisSymbols.ndMode := {| onL := modeL; onR := modeR |};
     EfisSymbols.ndEfisOption := {| onL := OptNone; onR := OptNone |};
     EfisSymbols.upsertCalls := calls |}.

(** The generator on its first invocation. *)
Definition firstPass : EfisSymbols.State :=
  EfisSymbols.initialState (GuidanceController.efis afterInit).

(** Points on one meridian: 60 NM per degree of latitude, every bearing
    taken as due north. *)
Definition meridianDistance (a b : Coordinates) : R :=
  (60 * Rabs (Q2R (lat b) - Q2R (lat a)))%R.

Definition northBearing (a b : Coordinates) : R := 0%R.

Definition noClamp (angle : R) : R := angle.

Definition ppos : Coordinates := {| lat := 47%Q; long := 8%Q |}.

Definition twoDegreesNorth : Coordinates := {| lat := 49%Q; long := 8%Q |}.

(** Collaborators whose geometry factory cannot build a geometry. *)
Definition failingFactory : @GuidanceController.Collaborators planning :=
  {| GuidanceController.World := gmap Z (@FlightPlan planning);
     GuidanceController.Geometry := Z;
     GuidanceController.flightPlanService := fun w i => w !! i;
     GuidanceController.lnavDriver_ppos := fun _ => {| lat := 0; long := 0 |};
     GuidanceController.createFromFlightPlan := fun _ _ => Throw (Error "no geometry");
     GuidanceController.updateFromFlightPlan := fun p _ _ => (Normal tt, planVersion p);
     GuidanceController.recomputeWithParameters := fun _ _ _ _ _ _ => ret tt;
     GuidanceController.taskQueue_cancelAllInCategory_EfisVectors := ret tt;
     GuidanceController.efisVectors_forceUpdate := ret tt;
     GuidanceController.updateEfisApproachMessage := ret tt;
     GuidanceController.verticalProfileComputationParametersObserver_update := ret tt;
     GuidanceController.windProfileFactory_updateFmgcInputs := ret tt;
     GuidanceController.atmosphericConditions_update := ret tt;
     GuidanceController.vnavDriver_acceptMultipleLegGeometry := fun _ => ret tt;
     GuidanceController.pseudoWaypoints_acceptMultipleLegGeometry := fun _ => ret tt;
     GuidanceController.updateEfisIdent := fun _ => ret tt;
     GuidanceController.updateMrpState := fun _ => ret tt;
     GuidanceController.lnavDriver_ppos_assign := ret tt;
     GuidanceController.lnavDriver_init := ret tt;
     GuidanceController.vnavDriver_init := ret tt;
     GuidanceController.pseudoWaypoints_init := ret tt;
     GuidanceController.lnavDriver_update := fun _ => ret tt;
     GuidanceController.vnavDriver_update := fun _ => ret tt;
     GuidanceController.pseudoWaypoints_update := fun _ => ret tt;
     GuidanceController.efisVectors_update := fun _ => ret tt;
     GuidanceController.taskQueue_update := fun _ => ret tt;
     GuidanceController.Coherent_on_IMM_EXIT := ret tt |}.

(** The controller of the failing factory before any geometry is built. *)
Definition beforeFirstBuild : @GuidanceController.State planning failingFactory :=
  @GuidanceController.constructed planning failingFactory simVarsArc10 activeOnly.

(** An alternate plan edited once more than its primary. *)
Definition editedAlternate : Plan :=
  {| planVersion := 8; planActiveLeg := 0;
     planElements := [Some (Leg (Some waypointB))] |}.

Definition divergedPlan : @FlightPlan planning :=
  {| primary := twoLegs; alternateFlightPlan := editedAlternate |}.

Definition diverged : @GuidanceController.State planning quiet :=
  @GuidanceController.constructed planning quiet simVarsArc10 {[ 0 := divergedPlan ]}.

(** The controller after the active plan, seen at version 7, was deleted. *)
Definition planErased : @GuidanceController.State planning quiet :=
  @GuidanceController.with_versions planning quiet {[ 0 := 7 ]} noPlans.

(** The active plan with a geometry for its primary part only, and the
    second waypoint of its alternate part selected. *)
Definition primaryOnly
    : @GuidanceController.MapReferencePoint.MrpState planning quiet :=
  {| GuidanceController.MapReferencePoint.controller :=
       @GuidanceController.with_geometries planning quiet {[ 0 := 7 ]} afterInit;
     GuidanceController.MapReferencePoint.mrpVars :=
       {| GuidanceController.MapReferencePoint.SELECTED_WAYPOINT_FP_INDEX := 0;
          GuidanceController.MapReferencePoint.SELECTED_WAYPOINT_INDEX := 1;
          GuidanceController.MapReferencePoint.SELECTED_WAYPOINT_IN_ALTERNATE := true;
          GuidanceController.MapReferencePoint.PLANE_LATITUDE := 47%Q;
          GuidanceController.MapReferencePoint.PLANE_LONGITUDE := 8%Q;
          GuidanceController.MapReferencePoint.SELECTED_WAYPOINT_LAT := 0%Q;
          GuidanceController.MapReferencePoint.SELECTED_WAYPOINT_LONG := 0%Q |};
     GuidanceController.MapReferencePoint.lastFocusedWpIndex := -1;
     GuidanceController.MapReferencePoint.focusedWaypointCoordinates :=
       {| lat := 0%Q; long := 0%Q |} |}.

(** The same with a geometry for the alternate part only. *)
Definition alternateOnly
    : @GuidanceController.MapReferencePoint.MrpState planning quiet :=
  @GuidanceController.MapReferencePoint.with_controller planning quiet
    (@GuidanceController.with_geometries planning quiet {[ 100 := 7 ]} afterInit)
    primaryOnly.

(** Geometries without legs, and flight-plan legs that all end at a fix. *)
Definition noLegs (geometry : Z) (index : Z) : option unit := None.

Definition noTermination (leg : unit)
    : option GuidanceController.MapReferencePoint.TerminationWaypoint := None.

Definition everyLegXF (leg : FlightPlanElement) : bool := true.

(** A plan that starts with a discontinuity. *)
Definition gapFirst : Plan :=
  {| planVersion := 7; planActiveLeg := 0;
     planElements := [Some Discontinuity; Some (Leg (Some waypointB))] |}.

(** An invocation for which no cache has changed. *)
Definition steadyInputs (centrePlan : option Plan) (centreIndex : Z)
    : @EfisSymbols.Inputs planning :=
  {| EfisSymbols.pposChanged := false;
     EfisSymbols.trueHeadingChanged := false;
     EfisSymbols.nearbyFacilitiesChanged := false;
     EfisSymbols.fpChanged := false;
     EfisSymbols.navaidsChanged := false;
     EfisSymbols.vnavPredictionsChanged := false;
     EfisSymbols.planCentrePlan := centrePlan;
     EfisSymbols.planCentreIndex := centreIndex;
     EfisSymbols.ndRange := {| onL := 10%Q; onR := 10%Q |};
     EfisSymbols.ndMode := {| onL := PLAN; onR := PLAN |};
     EfisSymbols.ndEfisOption := {| onL := OptNone; onR := OptNone |};
     EfisSymbols.upsertCalls := fewSymbols |}.

(** The generator after a pass in PLAN mode centred on the first waypoint. *)
Definition centredOnA : EfisSymbols.State :=
  {| EfisSymbols.blockUpdate := false;
     EfisSymbols.lastMode := {| onL := Some PLAN; onR := Some PLAN |};
     EfisSymbols.lastRange := {| onL := 10%Q; onR := 10%Q |};
     EfisSymbols.lastEfisOption := {| onL := OptNone; onR := OptNone |};
     EfisSymbols.lastPlanCentre := Some waypointA;
     EfisSymbols.guidanceController := GuidanceController.efis afterInit;
     EfisSymbols.syncer := [] |}.

End Scenario.

(** * Properties *)

(** ** The bitwise OR of JavaScript *)

Module JsFacts.

Import Js.

Lemma toInt32_range z : is_int32 (toInt32 z).
Proof.
  unfold is_int32, toInt32.
  pose proof (Z.mod_pos_bound z (2 ^ 32) ltac:(lia)) as Hm.
  destruct (Z.ltb_spec (z mod 2 ^ 32) (2 ^ 31)); lia.
Qed.

Lemma toInt32_id z : is_int32 z -> toInt32 z = z.
Proof.
  unfold is_int32, toInt32. intros Hz.
  destruct (Z.neg_nonneg_cases z) as [Hneg | Hpos].
  - assert (z mod 2 ^ 32 = z + 2 ^ 32) as ->.
    { symmetry. apply (Z.mod_unique _ _ (-1)); lia. }
    destruct (Z.ltb_spec (z + 2 ^ 32) (2 ^ 31)); lia.
  - rewrite Z.mod_small by lia.
    destruct (Z.ltb_spec z (2 ^ 31)); lia.
Qed.

Lemma toInt32_mod z : toInt32 z mod 2 ^ 32 = z mod 2 ^ 32.
Proof.
  unfold toInt32.
  destruct (Z.ltb_spec (z mod 2 ^ 32) (2 ^ 31)).
  - apply Z.mod_mod. lia.
  - replace (z mod 2 ^ 32 - 2 ^ 32) with (z mod 2 ^ 32 + (-1) * 2 ^ 32) by lia.
    rewrite Z.mod_add by lia. apply Z.mod_mod. lia.
Qed.

Lemma toInt32_congr a b : a mod 2 ^ 32 = b mod 2 ^ 32 -> toInt32 a = toInt32 b.
Proof. unfold toInt32. intros ->. reflexivity. Qed.

Lemma lor_mod a b : Z.lor a b mod 2 ^ 32 = Z.lor (a mod 2 ^ 32) (b mod 2 ^ 32).
Proof. rewrite <- !Z.land_ones by lia. apply Z.land_lor_distr_l. Qed.

(** Converting the operands first changes nothing: [|] is the OR of the
    integers, brought back into 32 bits. *)
Lemma bitor_lor a b : bitor a b = toInt32 (Z.lor a b).
Proof.
  unfold bitor. apply toInt32_congr.
  rewrite !lor_mod, !toInt32_mod. reflexivity.
Qed.

Lemma bitor_absorb a b : bitor a (bitor a b) = bitor a b.
Proof.
  rewrite !bitor_lor. apply toInt32_congr.
  rewrite lor_mod, toInt32_mod, <- lor_mod.
  rewrite Z.lor_assoc, Z.lor_diag. reflexivity.
Qed.

Lemma bitor_diag a : is_int32 a -> bitor a a = a.
Proof. intros Ha. rewrite bitor_lor, Z.lor_diag. apply toInt32_id, Ha. Qed.

Lemma bitor_0_r a : is_int32 a -> bitor a 0 = a.
Proof. intros Ha. rewrite bitor_lor, Z.lor_0_r. apply toInt32_id, Ha. Qed.

Lemma bitor_comm a b : bitor a b = bitor b a.
Proof. rewrite !bitor_lor, Z.lor_comm. reflexivity. Qed.

Lemma bitor_assoc a b c : bitor a (bitor b c) = bitor (bitor a b) c.
Proof.
  rewrite !bitor_lor. apply toInt32_congr.
  rewrite (lor_mod a), toInt32_mod, <- lor_mod.
  rewrite (lor_mod _ c), toInt32_mod, <- lor_mod.
  rewrite Z.lor_assoc. reflexivity.
Qed.

Lemma bitorAll_snoc l t : bitorAll (l ++ [t]) = bitor t (bitorAll l).
Proof.
  induction l as [| a l IH]; simpl; [reflexivity |].
  unfold bitorAll in IH |- *. simpl. rewrite IH.
  rewrite !bitor_assoc, (bitor_comm a t). reflexivity.
Qed.

(** On masks of non-negative flags below [2 ^ 31] it is the OR itself. *)
Lemma bitor_flags a b :
  0 <= a < 2 ^ 31 -> 0 <= b < 2 ^ 31 -> bitor a b = Z.lor a b.
Proof.
  intros Ha Hb. rewrite bitor_lor. apply toInt32_id. unfold is_int32.
  assert (0 <= Z.lor a b) as Hnn by (apply Z.lor_nonneg; lia).
  split; [lia |].
  destruct (Z.eq_dec (Z.lor a b) 0) as [-> | Hnz]; [lia |].
  apply Z.log2_lt_pow2; [lia |].
  rewrite Z.log2_lor by lia.
  destruct (Z.eq_dec a 0) as [-> | Hna]; destruct (Z.eq_dec b 0) as [-> | Hnb];
    simpl; try lia.
  - apply Z.max_lub_lt; [lia | apply Z.log2_lt_pow2; lia].
  - apply Z.max_lub_lt; [apply Z.log2_lt_pow2; lia | simpl; lia].
  - apply Z.max_lub_lt; apply Z.log2_lt_pow2; lia.
Qed.

End JsFacts.

(** ** Guidance Controller *)

Module GuidanceControllerFacts.

Import GuidanceController.

(** *** Completions *)

Lemma bind_Normal_inv {S A B} (m : M S A) (k : A -> M S B) s b s' :
  bind m k s = (Normal b, s') ->
  exists a s1, m s = (Normal a, s1) /\ k a s1 = (Normal b, s').
Proof.
  unfold bind. destruct (m s) as [[a | e] s1]; intros Hk; [| discriminate].
  exists a, s1. split; [reflexivity | exact Hk].
Qed.

Lemma bind_Normal {S A B} (m : M S A) (k : A -> M S B) s a s1 :
  m s = (Normal a, s1) -> bind m k s = k a s1.
Proof. unfold bind. intros ->. reflexivity. Qed.

Lemma bind_Throw {S A B} (m : M S A) (k : A -> M S B) s e s1 :
  m s = (Throw e, s1) -> bind m k s = (Throw e, s1).
Proof. unfold bind. intros ->. reflexivity. Qed.

(** *** The EfisState objects *)

Lemma refreshOf_refl e : refreshOf e e.
Proof.
  split; [reflexivity |]. split; [reflexivity |]. split; [reflexivity |].
  split; [reflexivity |].
  intros i v v' Hv Hv'. rewrite Hv in Hv'. injection Hv' as <-. split; reflexivity.
Qed.

Lemma refreshOf_trans e1 e2 e3 : refreshOf e1 e2 -> refreshOf e2 e3 -> refreshOf e1 e3.
Proof.
  intros (Hl & Hr & Hs & Hn & Hh) (Hl' & Hr' & Hs' & Hn' & Hh').
  split; [congruence |]. split; [congruence |]. split; [congruence |].
  split; [congruence |].
  intros i v v' Hv Hv'.
  destruct (lookup_lt_is_Some_2 (efisHeap e2) i) as [v2 Hv2].
  { apply lookup_lt_Some in Hv. lia. }
  destruct (Hh _ _ _ Hv Hv2), (Hh' _ _ _ Hv2 Hv'). split; congruence.
Qed.

Lemma writeEfisState_refreshOf ref f e :
  (forall v, keepsFlags v (f v)) -> refreshOf e (snd (writeEfisState ref f e)).
Proof.
  intros Hf. unfold writeEfisState.
  destruct ref as [l |]; [| apply refreshOf_refl].
  destruct (efisHeap e !! l) as [v |] eqn:Hl; [| apply refreshOf_refl].
  split; [reflexivity |]. split; [reflexivity |]. split; [reflexivity |].
  split; [apply length_insert |].
  intros i x y Hx Hy. simpl in Hy.
  destruct (decide (i = l)) as [-> | Hne].
  - rewrite list_lookup_insert_eq in Hy by (eapply lookup_lt_Some; eassumption).
    injection Hy as <-. rewrite Hl in Hx. injection Hx as <-. apply Hf.
  - rewrite list_lookup_insert_ne in Hy by congruence.
    rewrite Hx in Hy. injection Hy as <-. split; reflexivity.
Qed.

Section Facts.

Context `{Collaborators}.

Lemma steady_ret {A} (a : A) : steady (ret a).
Proof. intros st. apply refreshOf_refl. Qed.

Lemma steady_get : steady get.
Proof. intros st. apply refreshOf_refl. Qed.

Lemma steady_bind {A B} (m : M State A) (k : A -> M State B) :
  steady m -> (forall a, steady (k a)) -> steady (bind m k).
Proof.
  intros Hm Hk st. unfold bind. specialize (Hm st).
  destruct (m st) as [[a | e] s1]; simpl in *; [| exact Hm].
  eapply refreshOf_trans; [exact Hm | apply Hk].
Qed.

Lemma steady_call {A} (m : M World A) : steady (call m).
Proof.
  intros st. unfold call. destruct (m (world st)). apply refreshOf_refl.
Qed.

Lemma steady_write ref f :
  (forall v, keepsFlags v (f v)) -> steady (onEfis (writeEfisState ref f)).
Proof.
  intros Hf st. unfold onEfis.
  pose proof (writeEfisState_refreshOf ref f (efis st) Hf) as Hw.
  destruct (writeEfisState ref f (efis st)). exact Hw.
Qed.

Lemma updateEfisState_steady side ref : steady (updateEfisState side ref).
Proof.
  unfold updateEfisState.
  apply steady_bind; [apply steady_get | intros st].
  apply steady_bind.
  { destruct (_ || _)%bool; [| apply steady_ret].
    apply steady_bind; [apply steady_call | intros _; apply steady_call]. }
  intros _. apply steady_bind; [apply steady_write; intros v; split; reflexivity |].
  intros _. apply steady_bind; [apply steady_write; intros v; split; reflexivity |].
  intros _. apply steady_call.
Qed.

Lemma call_inv {A} (m : M World A) st c s1 :
  call m st = (c, s1) -> efis s1 = efis st /\ simVars s1 = simVars st.
Proof.
  unfold call. destruct (m (world st)) as [c' w]. intros [= <- <-]. split; reflexivity.
Qed.

Lemma onEfis_inv {A} (m : M EfisStore A) st c s1 :
  onEfis m st = (c, s1) -> m (efis st) = (c, efis s1) /\ simVars s1 = simVars st.
Proof.
  unfold onEfis. destruct (m (efis st)) as [c' e]. intros [= <- <-]. split; reflexivity.
Qed.

Lemma steady_inv {A} (m : M State A) st c s1 :
  steady m -> m st = (c, s1) -> refreshOf (efis st) (efis s1).
Proof. intros Hm Heq. specialize (Hm st). rewrite Heq in Hm. exact Hm. Qed.

Ltac split_bind H a s Hm := apply bind_Normal_inv in H as (a & s & Hm & H).

(** What [init] leaves behind: two distinct objects with cleared flags,
    and both entries of [efisStateForSide] referring to the left one. *)
Lemma init_efis st st' :
  init st = (Normal tt, st') ->
  exists l r vl vr,
    l <> r
    /\ leftEfisState (efis st') = Some l
    /\ rightEfisState (efis st') = Some r
    /\ efisStateForSide (efis st') = Some {| onL := Some l; onR := Some l |}
    /\ efisHeap (efis st') !! l = Some vl
    /\ efisHeap (efis st') !! r = Some vr
    /\ dataLimitReached vl = false /\ legsCulled vl = false
    /\ dataLimitReached vr = false /\ legsCulled vr = false.
Proof.
  intros Hinit. unfold init in Hinit.
  split_bind Hinit a0 s0 Hc0. apply call_inv in Hc0 as [E0 _].
  split_bind Hinit l s1 Hc1. apply onEfis_inv in Hc1 as [Hc1 _].
  unfold allocEfisState in Hc1. injection Hc1 as Hl E1. rewrite E0 in Hl, E1.
  split_bind Hinit a2 s2 Hc2. apply onEfis_inv in Hc2 as [Hc2 _].
  unfold modify in Hc2. injection Hc2 as _ E2. rewrite <- E1 in E2.
  split_bind Hinit r s3 Hc3. apply onEfis_inv in Hc3 as [Hc3 _].
  unfold allocEfisState in Hc3. injection Hc3 as Hr E3. rewrite <- E2 in Hr, E3.
  split_bind Hinit a4 s4 Hc4. apply onEfis_inv in Hc4 as [Hc4 _].
  unfold modify in Hc4. injection Hc4 as _ E4. rewrite <- E3 in E4.
  split_bind Hinit a5 s5 Hc5. apply onEfis_inv in Hc5 as [Hc5 _].
  unfold modify in Hc5. injection Hc5 as _ E5. rewrite <- E4 in E5. simpl in *.
  split_bind Hinit a6 s6 Hc6.
  assert (refreshOf (efis s5) (efis s6)) as R6.
  { unfold bind, get in Hc6. eapply steady_inv; [apply updateEfisState_steady | exact Hc6]. }
  split_bind Hinit a7 s7 Hc7.
  assert (refreshOf (efis s6) (efis s7)) as R7.
  { unfold bind, get in Hc7. eapply steady_inv; [apply updateEfisState_steady | exact Hc7]. }
  pose proof (refreshOf_trans _ _ _ R6 R7) as (Rl & Rr & Rs & Rn & Rh). clear R6 R7 Hc6 Hc7.
  rewrite <- E5 in Rl, Rr, Rs, Rn, Rh. simpl in *.
  split_bind Hinit a8 s8 Hc8. unfold bind, get in Hc8. apply onEfis_inv in Hc8 as [Hc8 _].
  unfold assignEfisStateForSide in Hc8. rewrite Rs, Rl in Hc8. injection Hc8 as _ E8.
  split_bind Hinit a9 s9 Hc9. unfold bind, get in Hc9. apply onEfis_inv in Hc9 as [Hc9 _].
  unfold assignEfisStateForSide in Hc9. rewrite <- E8 in Hc9. simpl in Hc9.
  rewrite Rl in Hc9. injection Hc9 as _ E9.
  split_bind Hinit a10 s10 Hc10. apply call_inv in Hc10 as [E10 _].
  split_bind Hinit a11 s11 Hc11. apply call_inv in Hc11 as [E11 _].
  split_bind Hinit a12 s12 Hc12. apply call_inv in Hc12 as [E12 _].
  apply call_inv in Hinit as [E13 _].
  assert (efis st' = with_efisStateForSide (Some {| onL := Some l; onR := Some l |}) (efis s7))
    as Efinal by (rewrite E13, E12, E11, E10, <- E9; reflexivity).
  clear E8 E9 E10 E11 E12 E13.
  set (v := {| mode := ARC; range := 10%Q; dataLimitReached := false; legsCulled := false |})
    in *.
  rewrite length_app in Rn. simpl in Rn. rewrite length_app in Rn, Hr. simpl in Rn, Hr.
  destruct (lookup_lt_is_Some_2 (efisHeap (efis s7)) l) as [vl Hvl]; [lia |].
  destruct (lookup_lt_is_Some_2 (efisHeap (efis s7)) r) as [vr Hvr]; [lia |].
  assert (((efisHeap (efis st) ++ [v]) ++ [v]) !! l = Some v) as Hl5.
  { rewrite lookup_app_l by (rewrite length_app; simpl; lia).
    rewrite <- Hl. apply list_lookup_middle. reflexivity. }
  assert (((efisHeap (efis st) ++ [v]) ++ [v]) !! r = Some v) as Hr5.
  { rewrite <- Hr. replace (length (efisHeap (efis st)) + 1)%nat
      with (length (efisHeap (efis st) ++ [v])) by (rewrite length_app; simpl; lia).
    apply list_lookup_middle. reflexivity. }
  destruct (Rh _ _ _ Hl5 Hvl) as [Fl1 Fl2]. destruct (Rh _ _ _ Hr5 Hvr) as [Fr1 Fr2].
  exists l, r, vl, vr. rewrite Efinal. simpl.
  repeat split; try assumption; lia.
Qed.

(** C4. The claim is that each side's map-partly-displayed flag is the
    disjunction of [dataLimitReached] and [legsCulled] of that side's own
    record, so that setting [dataLimitReached] for one side never changes
    the other side's flag. After [init] both entries of
    [efisStateForSide] refer to the left record: right after [init] the
    flag computed for the left side is false, the write that the symbol
    generator does for the right side succeeds, the flag then computed
    for the left side is true, and the record that [updateEfisState]
    refreshes for the right side still has [dataLimitReached] false. *)
Theorem right_side_data_limit_drives_left_flag (st st1 : State)
    (Hinit : init st = (Normal tt, st1)) :
  let before := snd (updateMapPartlyDisplayed st1) in
  let st2 := snd (onEfis (writeDataLimitReached Side.R true) st1) in
  let after := snd (updateMapPartlyDisplayed st2) in
  sideGet Side.L (EFIS_MAP_PARTLY_DISPLAYED (simVars before)) = false
  /\ fst (onEfis (writeDataLimitReached Side.R true) st1) = Normal tt
  /\ sideGet Side.L (EFIS_MAP_PARTLY_DISPLAYED (simVars after)) = true
  /\ dataLimitReached
       <$> (rightEfisState (efis st2) ≫= (fun r => efisHeap (efis st2) !! r))
     = Some false.
Proof.
  destruct (init_efis st st1 Hinit)
    as (l & r & vl & vr & Hne & Hleft & Hright & Hside & Hl & Hr & Dl & Cl & Dr & Cr).
  assert (forall s v,
            efisStateForSide (efis s) = Some {| onL := Some l; onR := Some l |} ->
            efisHeap (efis s) !! l = Some v ->
            sideGet Side.L (EFIS_MAP_PARTLY_DISPLAYED (simVars (snd (updateMapPartlyDisplayed s))))
            = (dataLimitReached v || legsCulled v)%bool) as Hflag.
  { intros s v Hs Hv.
    unfold updateMapPartlyDisplayed, bind, onEfis, efisStateRefForSide, readEfisState, modify.
    simpl. rewrite Hs. simpl. rewrite Hv. simpl. rewrite Hs. simpl. rewrite Hv.
    reflexivity. }
  assert (onEfis (writeDataLimitReached Side.R true) st1
          = (Normal tt,
             with_efis (with_efisHeap (<[l := set_dataLimitReached true vl]>
                                         (efisHeap (efis st1))) (efis st1)) st1)) as Hwrite.
  { unfold onEfis, writeDataLimitReached, bind, efisStateRefForSide, writeEfisState.
    rewrite Hside. simpl. rewrite Hl. reflexivity. }
  intros before st2 after. subst before st2 after. rewrite Hwrite. cbn [fst snd].
  split; [| split; [reflexivity | split]].
  - rewrite (Hflag st1 vl Hside Hl), Dl, Cl. reflexivity.
  - rewrite (Hflag _ (set_dataLimitReached true vl)).
    + reflexivity.
    + exact Hside.
    + simpl. apply list_lookup_insert_eq. eapply lookup_lt_Some, Hl.
  - simpl. rewrite Hright. simpl.
    rewrite list_lookup_insert_ne by exact Hne. rewrite Hr. simpl. rewrite Dr. reflexivity.
Qed.

Lemma logged_returns prefix body st : fst (logged prefix body st) = Normal tt.
Proof.
  unfold logged, try_catch. destruct (body st) as [[[] | e] s1]; reflexivity.
Qed.

(** The stage after a guarded stage always runs, on the state that the
    guarded stage left. *)
Lemma logged_then prefix body (k : M State unit) st :
  (logged prefix body ;;; k) st = k (snd (logged prefix body st)).
Proof.
  unfold bind. pose proof (logged_returns prefix body st) as Hr.
  destruct (logged prefix body st) as [[[] | e] s1]; [reflexivity | discriminate].
Qed.

Lemma logged_then_returns prefix body (k : M State unit) :
  (forall s, fst (k s) = Normal tt) ->
  forall st, fst ((logged prefix body ;;; k) st) = Normal tt.
Proof. intros Hk st. rewrite logged_then. apply Hk. Qed.

(** Once both EFIS refreshes have returned, nothing that the remaining
    stages throw leaves [update]. *)
Lemma update_returns_after_efis_refresh (deltaTime : Q) (st s1 s2 : State) :
  let st0 := with_timer (geometryRecomputationTimer st + deltaTime)%Q st in
  updateEfisState Side.L (leftEfisState (efis st0)) st0 = (Normal tt, s1) ->
  updateEfisState Side.R (rightEfisState (efis s1)) s1 = (Normal tt, s2) ->
  fst (update deltaTime st) = Normal tt.
Proof.
  intros st0 HL HR. unfold update.
  unfold bind at 1. unfold modify at 1. fold st0.
  unfold bind at 1. unfold bind at 1. unfold get at 1. rewrite HL.
  unfold bind at 1. unfold bind at 1. unfold get at 1. rewrite HR.
  repeat (apply logged_then_returns; intros ?).
  apply logged_returns.
Qed.

(** C3. The claim is that every stage of [update] is wrapped, the
    EfisState refresh included, so that [update] never throws. The two
    [updateEfisState] calls stand outside every [try]: whatever the left
    refresh throws leaves [update], on the state reached at the throw,
    and no later stage runs. *)
Theorem update_propagates_efis_refresh_exception (deltaTime : Q) (st st1 : State) (e : Exn)
    (Hthrow :
       updateEfisState Side.L (leftEfisState (efis st))
         (with_timer (geometryRecomputationTimer st + deltaTime)%Q st)
       = (Throw e, st1)) :
  update deltaTime st = (Throw e, st1).
Proof.
  unfold update.
  unfold bind at 1. unfold modify at 1.
  unfold bind at 1. unfold bind at 1. unfold get at 1. simpl.
  rewrite Hthrow. reflexivity.
Qed.

(** A reference that is still [undefined] makes the refresh throw. *)
Lemma updateEfisState_undefined_throws side st :
  exists e st1, updateEfisState side None st = (Throw e, st1).
Proof.
  unfold updateEfisState, bind, get. simpl.
  destruct (call taskQueue_cancelAllInCategory_EfisVectors st) as [[[] | e1] s1] eqn:E1;
    [| eauto].
  destruct (call efisVectors_forceUpdate s1) as [[[] | e2] s2] eqn:E2; [| eauto].
  unfold onEfis. simpl. eauto.
Qed.

(** *** The geometry cache *)

(** C5. For a slot whose plan exists and whose version counter equals the
    last-seen version recorded for its flight-plan index,
    [tryUpdateFlightPlanGeometry] with [force = false] returns and leaves
    the state as it was; the geometry map and the last-seen-version map
    in particular are unchanged. *)
Theorem tryUpdateFlightPlanGeometry_same_version_noop
    (flightPlanIndex : Z) (alternate : bool) (st : State) (fp : FlightPlan)
    (Hplan : flightPlanService (world st) flightPlanIndex = Some fp)
    (Hversion : lastFlightPlanVersions st !! flightPlanIndex
                = Some (version (if alternate then alternateFlightPlan fp else primary fp))) :
  tryUpdateFlightPlanGeometry flightPlanIndex alternate false st = (Normal tt, st)
  /\ flightPlanGeometries (snd (tryUpdateFlightPlanGeometry flightPlanIndex alternate false st))
     = flightPlanGeometries st
  /\ lastFlightPlanVersions (snd (tryUpdateFlightPlanGeometry flightPlanIndex alternate false st))
     = lastFlightPlanVersions st.
Proof.
  assert (tryUpdateFlightPlanGeometry flightPlanIndex alternate false st = (Normal tt, st))
    as Heq.
  { unfold tryUpdateFlightPlanGeometry. rewrite Hplan, Hversion.
    rewrite bool_decide_eq_true_2 by reflexivity. reflexivity. }
  rewrite Heq. auto.
Qed.

(** C6. For a slot index without a flight plan,
    [tryUpdateFlightPlanGeometry] returns, the geometry map afterwards
    holds nothing under the key of the (index, alternate) pair, and the
    state differs from the one before only by that deletion: nothing was
    rebuilt and no version recorded. *)
Theorem tryUpdateFlightPlanGeometry_evicts_missing_plan
    (flightPlanIndex : Z) (alternate force : bool) (st : State)
    (Hmissing : flightPlanService (world st) flightPlanIndex = None) :
  let key := geometryKey flightPlanIndex alternate in
  let result := tryUpdateFlightPlanGeometry flightPlanIndex alternate force st in
  fst result = Normal tt
  /\ getGeometryForFlightPlan flightPlanIndex alternate (snd result) = None
  /\ hasGeometryForFlightPlan flightPlanIndex alternate (snd result) = false
  /\ snd result = with_geometries (delete key (flightPlanGeometries st)) st.
Proof.
  intros key result. subst result key.
  unfold tryUpdateFlightPlanGeometry. rewrite Hmissing. simpl.
  unfold getGeometryForFlightPlan, hasGeometryForFlightPlan, geometryKey. simpl.
  rewrite lookup_delete_eq. split; [reflexivity |]. split; [reflexivity |].
  split; [| reflexivity].
  apply bool_decide_eq_false_2. intros [g Hg]. discriminate.
Qed.

End Facts.


(** *** The properties on the concrete world *)

Lemma update_before_init_throws :
  @update Scenario.planning Scenario.quiet 100%Q Scenario.beforeInit
  = (Throw (TypeError "Cannot set properties of undefined"),
     @with_timer Scenario.planning Scenario.quiet
       (geometryRecomputationTimer Scenario.beforeInit + 100)%Q Scenario.beforeInit).
Proof.
  apply update_propagates_efis_refresh_exception. vm_compute. reflexivity.
Defined.

Lemma right_write_raises_left_flag_after_init :
  sideGet Side.L
    (EFIS_MAP_PARTLY_DISPLAYED
       (simVars
          (snd (@updateMapPartlyDisplayed Scenario.planning Scenario.quiet
                  (snd (@onEfis Scenario.planning Scenario.quiet _
                          (writeDataLimitReached Side.R true) Scenario.afterInit))))))
  = true.
Proof.
  apply (@right_side_data_limit_drives_left_flag Scenario.planning Scenario.quiet
           Scenario.beforeInit Scenario.afterInit).
  vm_compute. reflexivity.
Defined.

Lemma seen_version_leaves_geometries :
  @tryUpdateFlightPlanGeometry Scenario.planning Scenario.quiet 0 false false
    Scenario.versionSeen
  = (Normal tt, Scenario.versionSeen).
Proof.
  apply (@tryUpdateFlightPlanGeometry_same_version_noop Scenario.planning Scenario.quiet
           0 false Scenario.versionSeen
           Scenario.activePlan).
  - vm_compute. reflexivity.
  - vm_compute. reflexivity.
Defined.

Lemma deleted_plan_loses_geometry :
  @getGeometryForFlightPlan Scenario.planning Scenario.quiet 0 true
    (snd (@tryUpdateFlightPlanGeometry Scenario.planning Scenario.quiet 0 true false
            Scenario.noPlans))
  = None.
Proof.
  apply (@tryUpdateFlightPlanGeometry_evicts_missing_plan Scenario.planning Scenario.quiet
           0 true false Scenario.noPlans).
  vm_compute. reflexivity.
Defined.

End GuidanceControllerFacts.

(** ** EFIS Symbols *)

Module EfisSymbolsFacts.

Import Js JsFacts EfisSymbols.

(** *** Merge by identity *)

Lemma findIndex_none {A} (p : A -> bool) (l : list A) :
  Forall (fun x => p x = false) l -> findIndex p l = None.
Proof.
  induction 1 as [| x l Hx _ IH]; simpl; [reflexivity |].
  rewrite Hx, IH. reflexivity.
Qed.

Lemma findIndex_first {A} (p : A -> bool) (l1 l2 : list A) (x : A) :
  Forall (fun y => p y = false) l1 -> p x = true ->
  findIndex p (l1 ++ x :: l2) = Some (length l1).
Proof.
  intros Hl1 Hx. induction Hl1 as [| y l1 Hy _ IH]; simpl.
  - rewrite Hx. reflexivity.
  - rewrite Hy, IH. reflexivity.
Qed.

Lemma first_match_split {A} (p : A -> bool) (l : list A) :
  Forall (fun x => p x = false) l
  \/ exists l1 x l2, l = l1 ++ x :: l2 /\ Forall (fun y => p y = false) l1 /\ p x = true.
Proof.
  induction l as [| a l IH].
  - left. constructor.
  - destruct (p a) eqn:Ha.
    + right. exists [], a, l. repeat split; [constructor | assumption].
    + destruct IH as [Hall | (l1 & x & l2 & -> & Hl1 & Hx)].
      * left. constructor; assumption.
      * right. exists (a :: l1), x, l2. repeat split; [constructor |]; assumption.
Qed.

Lemma sameDatabaseId_true symbol s :
  sameDatabaseId symbol s = true <-> databaseId s = databaseId symbol.
Proof. unfold sameDatabaseId. apply bool_decide_eq_true. Qed.

Lemma sameDatabaseId_false symbol s :
  sameDatabaseId symbol s = false <-> databaseId s <> databaseId symbol.
Proof. unfold sameDatabaseId. apply bool_decide_eq_false. Qed.

Lemma freshFor_findIndex s l :
  freshFor s l -> Forall (fun x => sameDatabaseId s x = false) l.
Proof.
  intros Hf. eapply Forall_impl; [exact Hf |].
  intros x Hx. apply sameDatabaseId_false, Hx.
Qed.

Lemma upsertSymbol_fresh symbols s :
  freshFor s symbols -> upsertSymbol symbols s = symbols ++ [s].
Proof.
  intros Hf. unfold upsertSymbol.
  rewrite findIndex_none by (apply freshFor_findIndex, Hf). reflexivity.
Qed.

Lemma upsertSymbol_found l1 o l2 s :
  freshFor s l1 -> databaseId o = databaseId s ->
  upsertSymbol (l1 ++ o :: l2) s = l1 ++ l2 ++ [mergeSymbol s o].
Proof.
  intros Hf Ho. unfold upsertSymbol.
  rewrite (findIndex_first _ l1 l2 o)
    by (try apply freshFor_findIndex; try apply sameDatabaseId_true; assumption).
  rewrite list_lookup_middle by reflexivity.
  rewrite delete_middle. rewrite <- app_assoc. reflexivity.
Qed.

Lemma upsertSymbol_cases symbols s :
  (freshFor s symbols /\ upsertSymbol symbols s = symbols ++ [s])
  \/ (exists l1 o l2,
        symbols = l1 ++ o :: l2 /\ freshFor s l1 /\ databaseId o = databaseId s
        /\ upsertSymbol symbols s = l1 ++ l2 ++ [mergeSymbol s o]).
Proof.
  destruct (first_match_split (sameDatabaseId s) symbols)
    as [Hall | (l1 & o & l2 & -> & Hl1 & Ho)].
  - assert (freshFor s symbols) as Hf.
    { eapply Forall_impl; [exact Hall |]. intros x. apply sameDatabaseId_false. }
    left. split; [exact Hf | apply upsertSymbol_fresh, Hf].
  - assert (freshFor s l1) as Hf.
    { eapply Forall_impl; [exact Hl1 |]. intros x. apply sameDatabaseId_false. }
    apply sameDatabaseId_true in Ho.
    right. exists l1, o, l2. repeat split; try assumption.
    apply upsertSymbol_found; assumption.
Qed.

Lemma freshFor_not_in s l : freshFor s l <-> databaseId s ∉ (databaseId <$> l).
Proof.
  unfold freshFor. rewrite Forall_forall. split.
  - intros Hf Hin. apply list_elem_of_fmap in Hin as (x & Hx & Hin).
    apply (Hf x); [exact Hin | congruence].
  - intros Hn x Hin Heq. apply Hn. apply list_elem_of_fmap.
    exists x. split; [congruence | exact Hin].
Qed.

Lemma upsertSymbol_NoDup symbols s :
  NoDup (databaseId <$> symbols) -> NoDup (databaseId <$> upsertSymbol symbols s).
Proof.
  intros Hnd.
  destruct (upsertSymbol_cases symbols s)
    as [[Hf ->] | (l1 & o & l2 & -> & Hf & Ho & ->)].
  - rewrite fmap_app. apply NoDup_app. split; [exact Hnd |]. split.
    + intros x Hx Hs. apply list_elem_of_singleton in Hs. simpl in Hs. subst x.
      apply freshFor_not_in in Hf. contradiction.
    + apply NoDup_singleton.
  - rewrite fmap_app in Hnd. simpl in Hnd.
    apply NoDup_app in Hnd as (Hn1 & Hdisj & Hn2).
    apply NoDup_cons in Hn2 as [Ho2 Hn2].
    rewrite !fmap_app. simpl.
    apply NoDup_app. split; [exact Hn1 |]. split.
    + intros x Hx Hin. apply elem_of_app in Hin as [Hin | Hin].
      * apply (Hdisj x Hx). right. exact Hin.
      * apply list_elem_of_singleton in Hin. subst x.
        apply freshFor_not_in in Hf. contradiction.
    + apply NoDup_app. split; [exact Hn2 |]. split; [| apply NoDup_singleton].
      intros x Hx Hin. apply list_elem_of_singleton in Hin. subst x.
      rewrite <- Ho in Hx. contradiction.
Qed.

Lemma upsertAll_NoDup calls symbols :
  NoDup (databaseId <$> symbols) -> NoDup (databaseId <$> upsertAll symbols calls).
Proof.
  revert symbols. induction calls as [| s calls IH]; intros symbols Hnd; simpl.
  - exact Hnd.
  - apply IH, upsertSymbol_NoDup, Hnd.
Qed.

Lemma limitSymbols_sublist symbols : sublist (fst (limitSymbols symbols)) symbols.
Proof.
  unfold limitSymbols. destruct (Qgt_bool _ _); simpl; [| reflexivity].
  unfold splice_front. apply sublist_drop.
Qed.

(** C10. Starting from the empty working list, after any run of
    [upsertSymbol] calls the list holds at most one symbol per
    [databaseId], and so does the list that the budget step hands on for
    transmission. *)
Theorem upsert_keeps_one_symbol_per_databaseId (calls : list NdSymbol) :
  NoDup (databaseId <$> upsertAll [] calls)
  /\ NoDup (databaseId <$> fst (limitSymbols (upsertAll [] calls))).
Proof.
  assert (NoDup (databaseId <$> upsertAll [] calls)) as Hnd.
  { apply upsertAll_NoDup. constructor. }
  split; [exact Hnd |].
  refine (sublist_NoDup _ _ Hnd _).
  apply fmap_sublist, limitSymbols_sublist.
Qed.

Lemma nullish_diag {A} (a : option A) : a ?? a = a.
Proof. destruct a; reflexivity. Qed.

Lemma nullish_absorb {A} (a b : option A) : a ?? (a ?? b) = a ?? b.
Proof. destruct a; reflexivity. Qed.

Lemma mergeList_diag n : absentOrEmpty n -> mergeList n n = n.
Proof. intros [-> | ->]; reflexivity. Qed.

Lemma mergeList_absorb n o : absentOrEmpty n -> mergeList n (mergeList n o) = mergeList n o.
Proof. intros [-> | ->]; destruct o; reflexivity. Qed.

Lemma mergeSymbol_diag s :
  is_int32 (type s) -> carriesNoRings s -> mergeSymbol s s = s.
Proof.
  intros Ht [Hr1 Hr2]. destruct s; unfold mergeSymbol; simpl in *.
  rewrite !nullish_diag, bitor_diag, !mergeList_diag by assumption.
  reflexivity.
Qed.

Lemma mergeSymbol_absorb s o :
  carriesNoRings s -> mergeSymbol s (mergeSymbol s o) = mergeSymbol s o.
Proof.
  intros [Hr1 Hr2]. unfold mergeSymbol; simpl.
  rewrite !nullish_absorb, bitor_absorb, !mergeList_absorb by assumption.
  reflexivity.
Qed.

Lemma freshFor_app s l1 l2 : freshFor s (l1 ++ l2) <-> freshFor s l1 /\ freshFor s l2.
Proof. apply Forall_app. Qed.

Lemma NoDup_middle_fresh l1 o l2 s :
  NoDup (databaseId <$> (l1 ++ o :: l2)) -> databaseId o = databaseId s ->
  freshFor s l1 /\ freshFor s l2.
Proof.
  intros Hnd Ho. rewrite fmap_app in Hnd. simpl in Hnd.
  apply NoDup_app in Hnd as (_ & Hdisj & Hn2).
  apply NoDup_cons in Hn2 as [Ho2 _].
  split; apply freshFor_not_in; rewrite <- Ho.
  - intros Hin. apply (Hdisj _ Hin). left.
  - exact Ho2.
Qed.

Lemma upsertSymbol_twice symbols s :
  NoDup (databaseId <$> symbols) -> is_int32 (type s) -> carriesNoRings s ->
  upsertSymbol (upsertSymbol symbols s) s = upsertSymbol symbols s.
Proof.
  intros Hnd Ht Hr.
  destruct (upsertSymbol_cases symbols s)
    as [[Hf ->] | (l1 & o & l2 & -> & Hf & Ho & ->)].
  - rewrite (upsertSymbol_found symbols s [] s Hf eq_refl).
    rewrite mergeSymbol_diag by assumption. reflexivity.
  - destruct (NoDup_middle_fresh _ _ _ _ Hnd Ho) as [_ Hf2].
    rewrite (app_assoc l1 l2).
    rewrite (upsertSymbol_found (l1 ++ l2) (mergeSymbol s o) [] s).
    + rewrite mergeSymbol_absorb by assumption. reflexivity.
    + apply freshFor_app. split; assumption.
    + reflexivity.
Qed.

Lemma occurrences_snoc id calls s :
  occurrences id (calls ++ [s])
  = occurrences id calls ++ (if decide (databaseId s = id) then [s] else []).
Proof.
  unfold occurrences. rewrite filter_app. reflexivity.
Qed.

Lemma occurrences_absent id calls :
  (forall c, c ∈ calls -> databaseId c <> id) -> occurrences id calls = [].
Proof.
  induction calls as [| c calls IH]; intros Hn; [reflexivity |].
  unfold occurrences. rewrite filter_cons.
  destruct (decide (databaseId c = id)) as [Heq | _].
  - exfalso. apply (Hn c); [left | exact Heq].
  - apply IH. intros c' Hc'. apply Hn. right. exact Hc'.
Qed.

Lemma upsertAll_snoc symbols calls s :
  upsertAll symbols (calls ++ [s]) = upsertSymbol (upsertAll symbols calls) s.
Proof. unfold upsertAll. apply fold_left_app. Qed.

Lemma upsertSymbol_ids symbols s x :
  x ∈ databaseId <$> upsertSymbol symbols s
  <-> x ∈ databaseId <$> symbols \/ x = databaseId s.
Proof.
  destruct (upsertSymbol_cases symbols s)
    as [[Hf ->] | (l1 & o & l2 & -> & Hf & Ho & ->)].
  - rewrite fmap_app, elem_of_app. simpl. rewrite list_elem_of_singleton. reflexivity.
  - rewrite !fmap_app, !elem_of_app. simpl.
    rewrite list_elem_of_singleton, elem_of_cons, Ho. tauto.
Qed.

(** Every symbol of the working list carries the OR of the types of the
    calls that named it, and every call is represented. *)
Lemma upsertAll_types calls :
  Forall (fun s => is_int32 (type s)) calls ->
  (forall e, e ∈ upsertAll [] calls ->
     type e = bitorAll (type <$> occurrences (databaseId e) calls))
  /\ (forall s, s ∈ calls -> databaseId s ∈ databaseId <$> upsertAll [] calls).
Proof.
  induction calls as [| s calls IH] using rev_ind; intros Hflags.
  - split; intros x Hx; inversion Hx.
  - apply Forall_app in Hflags as [Hflags Hs].
    apply Forall_cons in Hs as [Hs _].
    destruct (IH Hflags) as [IHt IHi]. clear IH.
    pose proof (upsertAll_NoDup calls [] (NoDup_nil_2)) as Hnd.
    split.
    + intros e He. rewrite upsertAll_snoc in He. rewrite occurrences_snoc.
      destruct (upsertSymbol_cases (upsertAll [] calls) s)
        as [[Hf Heq] | (l1 & o & l2 & Hsplit & Hf & Ho & Heq)];
        rewrite Heq in He; clear Heq.
      * apply elem_of_app in He as [He | He].
        -- destruct (decide (databaseId s = databaseId e)) as [Heq | _].
           ++ exfalso. unfold freshFor in Hf. rewrite Forall_forall in Hf.
              apply (Hf e); [exact He | congruence].
           ++ rewrite app_nil_r. apply IHt, He.
        -- apply list_elem_of_singleton in He. subst e.
           rewrite decide_True by reflexivity.
           assert (occurrences (databaseId s) calls = []) as ->.
           { apply occurrences_absent. intros c Hc Hid.
             apply freshFor_not_in in Hf. apply Hf.
             rewrite <- Hid. apply IHi, Hc. }
           simpl. symmetry. apply bitor_0_r, Hs.
      * rewrite Hsplit in Hnd, IHt.
        destruct (NoDup_middle_fresh _ _ _ _ Hnd Ho) as [_ Hf2].
        rewrite app_assoc in He. apply elem_of_app in He as [He | He].
        -- assert (databaseId e <> databaseId s) as Hne.
           { assert (freshFor s (l1 ++ l2)) as Hf12
               by (apply freshFor_app; split; assumption).
             unfold freshFor in Hf12. rewrite Forall_forall in Hf12.
             apply Hf12, He. }
           rewrite decide_False by congruence. rewrite app_nil_r.
           apply IHt. apply elem_of_app in He as [He | He];
             apply elem_of_app; [left | right; right]; exact He.
        -- apply list_elem_of_singleton in He. subst e. simpl.
           rewrite decide_True by reflexivity.
           rewrite fmap_app. simpl. rewrite bitorAll_snoc.
           f_equal. rewrite <- Ho. apply IHt.
           apply elem_of_app. right. left.
    + intros c Hc. rewrite upsertAll_snoc. apply upsertSymbol_ids.
      apply elem_of_app in Hc as [Hc | Hc].
      * left. apply IHi, Hc.
      * apply list_elem_of_singleton in Hc. right. congruence.
Qed.

(** For a symbol without radials and radii the two lists are equal
    field by field. *)
Lemma upsertSymbol_idempotent_without_rings (calls : list NdSymbol) (s : NdSymbol)
    (Hflags : Forall (fun x => is_int32 (type x)) (calls ++ [s]))
    (Hrings : carriesNoRings s) :
  let symbols := upsertAll [] calls in
  upsertSymbol (upsertSymbol symbols s) s = upsertSymbol symbols s
  /\ forall e, e ∈ upsertSymbol symbols s ->
       type e = bitorAll (type <$> occurrences (databaseId e) (calls ++ [s])).
Proof.
  intros symbols. split.
  - apply upsertSymbol_twice; [| | exact Hrings].
    + apply upsertAll_NoDup. constructor.
    + apply Forall_app in Hflags as [_ Hs]. apply Forall_cons in Hs as [Hs _]. exact Hs.
  - intros e He. apply (proj1 (upsertAll_types (calls ++ [s]) Hflags)).
    rewrite upsertAll_snoc. exact He.
Qed.

(** *** The visible result of a repeated upsert *)

Lemma spec_sameRings_refl r : spec_sameRings r r.
Proof. destruct r; simpl; [intros q; reflexivity | exact I]. Qed.

Lemma spec_sameVisibleSymbol_refl s : spec_sameVisibleSymbol s s.
Proof. repeat split; try reflexivity; apply spec_sameRings_refl. Qed.

Lemma mergeList_diag_rings n : spec_sameRings (mergeList n n) n.
Proof.
  destruct n as [n |]; simpl; [| exact I]. intros q. rewrite elem_of_app. tauto.
Qed.

Lemma mergeList_absorb_rings n o :
  spec_sameRings (mergeList n (mergeList n o)) (mergeList n o).
Proof.
  destruct n as [n |], o as [o |]; simpl; try exact I;
    intros q; rewrite ?elem_of_app; tauto.
Qed.

Lemma mergeSymbol_diag_visible s :
  is_int32 (type s) -> spec_sameVisibleSymbol (mergeSymbol s s) s.
Proof.
  intros Ht. unfold spec_sameVisibleSymbol, mergeSymbol. simpl.
  rewrite !nullish_diag, bitor_diag by exact Ht.
  repeat split; try reflexivity; apply mergeList_diag_rings.
Qed.

Lemma mergeSymbol_absorb_visible s o :
  spec_sameVisibleSymbol (mergeSymbol s (mergeSymbol s o)) (mergeSymbol s o).
Proof.
  unfold spec_sameVisibleSymbol, mergeSymbol. simpl.
  rewrite !nullish_absorb, bitor_absorb.
  repeat split; try reflexivity; apply mergeList_absorb_rings.
Qed.

Lemma Forall2_sameVisible_snoc l a b :
  spec_sameVisibleSymbol a b -> Forall2 spec_sameVisibleSymbol (l ++ [a]) (l ++ [b]).
Proof.
  intros Hab. apply Forall2_app; [| constructor; [exact Hab | constructor]].
  apply Forall_Forall2_diag, Forall_forall. intros x _. apply spec_sameVisibleSymbol_refl.
Qed.

Lemma upsertSymbol_twice_visible symbols s :
  NoDup (databaseId <$> symbols) -> is_int32 (type s) ->
  Forall2 spec_sameVisibleSymbol
    (upsertSymbol (upsertSymbol symbols s) s) (upsertSymbol symbols s).
Proof.
  intros Hnd Ht.
  destruct (upsertSymbol_cases symbols s)
    as [[Hf ->] | (l1 & o & l2 & -> & Hf & Ho & ->)].
  - rewrite (upsertSymbol_found symbols s [] s Hf eq_refl).
    apply Forall2_sameVisible_snoc, mergeSymbol_diag_visible, Ht.
  - destruct (NoDup_middle_fresh _ _ _ _ Hnd Ho) as [_ Hf2].
    rewrite (app_assoc l1 l2).
    rewrite (upsertSymbol_found (l1 ++ l2) (mergeSymbol s o) [] s).
    + apply Forall2_sameVisible_snoc, mergeSymbol_absorb_visible.
    + apply freshFor_app. split; assumption.
    + reflexivity.
Qed.

(** C2. For a working list built from the empty list by [upsertSymbol]
    calls whose type masks are 32-bit integers, upserting a symbol
    twice gives the visible symbol set that upserting it once gives:
    the two lists hold, position by position, symbols equal in every
    field and with the same rings, the radials and radii that the
    second upsert concatenates once more being repetitions. The type of
    every symbol of the list is the bitwise OR of the types of all the
    calls that carried its [databaseId]. *)
Theorem upsertSymbol_idempotent (calls : list NdSymbol) (s : NdSymbol)
    (Hflags : Forall (fun x => is_int32 (type x)) (calls ++ [s])) :
  let symbols := upsertAll [] calls in
  Forall2 spec_sameVisibleSymbol
    (upsertSymbol (upsertSymbol symbols s) s) (upsertSymbol symbols s)
  /\ forall e, e ∈ upsertSymbol symbols s ->
       type e = bitorAll (type <$> occurrences (databaseId e) (calls ++ [s])).
Proof.
  intros symbols. split.
  - apply upsertSymbol_twice_visible.
    + apply upsertAll_NoDup. constructor.
    + apply Forall_app in Hflags as [_ Hs]. apply Forall_cons in Hs as [Hs _]. exact Hs.
  - intros e He. apply (proj1 (upsertAll_types (calls ++ [s]) Hflags)).
    rewrite upsertAll_snoc. exact He.
Qed.

(** *** Symbol budget *)

Lemma Qgt_bool_length_maxSymbols (n : nat) :
  Qgt_bool (inject_Z (Z.of_nat n)) maxSymbols = bool_decide (106 < n)%nat.
Proof.
  change maxSymbols with (640 # 6)%Q.
  unfold Qgt_bool, Qle_bool, inject_Z. cbn [Qnum Qden].
  destruct (Z.leb_spec (Z.of_nat n * 6) (640 * 1)); cbn [negb].
  - rewrite bool_decide_eq_false_2 by lia. reflexivity.
  - rewrite bool_decide_eq_true_2 by lia. reflexivity.
Qed.

Lemma toInteger_overflow (n : nat) :
  (106 < n)%nat ->
  toInteger (inject_Z (Z.of_nat n) - maxSymbols)%Q = Z.of_nat n - 107.
Proof.
  intros Hn. change maxSymbols with (640 # 6)%Q.
  unfold toInteger, Qminus, Qplus, Qopp, inject_Z. cbn [Qnum Qden].
  change (Z.pos (1 * 6)) with 6.
  rewrite Z.quot_div_nonneg by lia.
  symmetry. apply (Z.div_unique _ _ _ 2); lia.
Qed.

Lemma limitSymbols_over (symbols : list NdSymbol) :
  (106 < length symbols)%nat ->
  limitSymbols symbols = (drop (length symbols - 107) symbols, true).
Proof.
  intros Hn. unfold limitSymbols.
  rewrite Qgt_bool_length_maxSymbols, bool_decide_eq_true_2 by exact Hn.
  unfold splice_front. rewrite toInteger_overflow by exact Hn.
  do 2 f_equal. lia.
Qed.

Lemma limitSymbols_within (symbols : list NdSymbol) :
  (length symbols <= 106)%nat -> limitSymbols symbols = (symbols, false).
Proof.
  intros Hn. unfold limitSymbols.
  rewrite Qgt_bool_length_maxSymbols, bool_decide_eq_false_2 by lia.
  reflexivity.
Qed.

(** *** Edit area *)

(** C7. [calculateEditArea] is the lookup table of the specification: for
    the ARC, ROSE-NAV and PLAN rows and every range, it returns the entry
    of the row at the range band; for range 10 in ARC mode that is
    (10.5, 3.5, 8.3). *)
Theorem calculateEditArea_matches_table :
  (forall (range : Q) (row : TableRow),
     calculateEditArea range (modeOfRow row) = spec_editAreaTable row (spec_rangeBand range))
  /\ calculateEditArea 10 ARC = (10.5, 3.5, 8.3)%Q.
Proof.
  split; [| reflexivity].
  intros range row. unfold calculateEditArea, spec_rangeBand.
  destruct row; simpl;
    repeat (match goal with
            | |- context [Qle_bool range ?q] => destruct (Qle_bool range q)
            end); reflexivity.
Qed.


Lemma Rltb_true a b : Rltb a b = true <-> (a < b)%R.
Proof.
  unfold Rltb. destruct (Rlt_dec a b); split; intros; try assumption;
    try reflexivity; try discriminate; contradiction.
Qed.

Lemma Q2R_pos q : (0 < q)%Q -> (0 < Q2R q)%R.
Proof. intros Hq. apply Qlt_Rlt in Hq. rewrite RMicromega.Q2R_0 in Hq. exact Hq. Qed.

(** C8. The claim is that the test includes a candidate exactly when its
    along-track offset lies within (-behind, +ahead) and its cross-track
    offset is below beside, offsets taken from the aircraft position
    (from the plan centre in PLAN mode). The test starts with a guard
    that returns true when the plan-centre termination is not resolved:
    then every candidate is included, in every mode, also in the ARC and
    ROSE modes, where the specified test starts from the aircraft
    position and does not depend on the plan centre. With a resolved
    termination the test is the specified one, and in both cases a
    candidate at the reference point is included whenever the three
    edit-area values are positive. [distanceTo] is assumed to give zero
    from a point to itself. *)
Theorem withinEditArea_admits_every_point_without_plan_centre
    (distanceTo bearingTo : Coordinates -> Coordinates -> R) (clampAngle : R -> R)
    (Hzero : forall p, distanceTo p p = 0%R)
    (termination : option Coordinates) (ppos : Coordinates) (trueHeading : R)
    (range : Q) (mode : EfisNdMode) :
  (forall planCentre ll, termination = Some planCentre ->
     withinEditArea distanceTo bearingTo clampAngle termination ppos trueHeading range mode ll
       = true
     <-> spec_insideEditArea distanceTo bearingTo clampAngle planCentre ppos trueHeading
           range mode ll)
  /\ (forall ll, termination = None ->
        withinEditArea distanceTo bearingTo clampAngle termination ppos trueHeading range mode ll
          = true)
  /\ (positiveEditArea range mode ->
      forall ll,
        (forall planCentre, termination = Some planCentre ->
           ll = spec_referencePoint mode planCentre ppos) ->
        withinEditArea distanceTo bearingTo clampAngle termination ppos trueHeading range mode ll
          = true)
  /\ (mode <> PLAN ->
      forall planCentre planCentre' ll,
        spec_insideEditArea distanceTo bearingTo clampAngle planCentre ppos trueHeading
          range mode ll
        <-> spec_insideEditArea distanceTo bearingTo clampAngle planCentre' ppos trueHeading
              range mode ll).
Proof.
  assert (forall planCentre ll, termination = Some planCentre ->
     withinEditArea distanceTo bearingTo clampAngle termination ppos trueHeading range mode ll
       = true
     <-> spec_insideEditArea distanceTo bearingTo clampAngle planCentre ppos trueHeading
           range mode ll) as Hiff.
  { intros planCentre ll ->.
    unfold withinEditArea, spec_insideEditArea, spec_alongTrackOffset,
      spec_crossTrackOffset, spec_bearing, spec_referencePoint.
    destruct (calculateEditArea range mode) as [[ahead behind] beside].
    rewrite !andb_true_iff, !Rltb_true.
    destruct mode; simpl; tauto. }
  assert (forall ll, termination = None ->
        withinEditArea distanceTo bearingTo clampAngle termination ppos trueHeading range mode ll
          = true) as Hnone.
  { intros ll ->. unfold withinEditArea.
    destruct (calculateEditArea range mode) as [[ahead behind] beside]. reflexivity. }
  split; [exact Hiff |]. split; [exact Hnone |]. split.
  2:{ intros Hmode planCentre planCentre' ll.
      unfold spec_insideEditArea, spec_alongTrackOffset, spec_crossTrackOffset,
        spec_bearing, spec_referencePoint.
      destruct mode; try reflexivity. contradiction. }
  intros Hpos ll Hat.
  destruct termination as [planCentre |]; [| apply Hnone; reflexivity].
  apply (Hiff planCentre ll eq_refl).
  rewrite (Hat planCentre eq_refl).
  unfold spec_insideEditArea, positiveEditArea, spec_alongTrackOffset,
    spec_crossTrackOffset in *.
  destruct (calculateEditArea range mode) as [[ahead behind] beside].
  destruct Hpos as (Ha & Hb & Hc).
  apply Q2R_pos in Ha, Hb, Hc.
  rewrite Hzero, !Rmult_0_l, Rabs_R0. lra.
Qed.

(** *** The pass over one side *)

Section PassFacts.

Context `{FlightPlanning}.

(** A pass that goes through to the end: the symbols sent and the flag
    written both come from [limitSymbols]. *)
Lemma sidePass_sends_limited (inp : Inputs) (planCentre : option FlightPlanElement)
    (planCentreChanged : bool) (side : EfisSide) (st : State)
    (o : PerSide (option nat)) (l : nat) (v : EfisState) :
  pposChanged inp = true ->
  (sideGet side (ndMode inp) <> PLAN \/ is_Some planCentre) ->
  GuidanceController.efisStateForSide (guidanceController st) = Some o ->
  sideGet side o = Some l ->
  GuidanceController.efisHeap (guidanceController st) !! l = Some v ->
  let limited := limitSymbols (upsertAll [] (upsertCalls inp side)) in
  let result := sidePass inp planCentre planCentreChanged side st in
  fst result = Normal NextSide
  /\ syncer (snd result) = syncer st ++ [(side, fst limited)]
  /\ GuidanceController.efisHeap (guidanceController (snd result)) !! l
     = Some (GuidanceController.set_dataLimitReached (snd limited) v).
Proof.
  intros Hppos Hcentre Ho Hl Hv limited result. subst result.
  unfold sidePass, bind, get, modify. simpl. rewrite Hppos. simpl.
  assert (bool_decide (sideGet side (ndMode inp) = PLAN)
          && negb (bool_decide (is_Some planCentre)) = false) as ->.
  { destruct Hcentre as [Hm | Hc].
    - rewrite bool_decide_eq_false_2 by exact Hm. reflexivity.
    - rewrite (bool_decide_eq_true_2 _ Hc). apply andb_false_r. }
  fold limited. destruct limited as [symbols limit]. simpl.
  unfold onGuidanceController, GuidanceController.writeDataLimitReached, bind,
    GuidanceController.efisStateRefForSide, GuidanceController.writeEfisState,
    sendEvent, modify.
  simpl. rewrite Ho, Hl. simpl. rewrite Hv. simpl.
  split; [reflexivity |]. split; [reflexivity |].
  apply list_lookup_insert_eq. eapply lookup_lt_Some, Hv.
Qed.

(** C1. The claim is that a pass with more candidates than the budget of
    106 emits exactly 106 symbols. The budget is computed as [640 / 6]
    without rounding, so the comparison lets 106 symbols through and the
    deletion count, once truncated, leaves one symbol more: a pass whose
    working list is longer than 106 sends its last 107 symbols, and
    writes [true] to the side's [dataLimitReached]. *)
Theorem sidePass_over_budget_sends_107 (inp : Inputs)
    (planCentre : option FlightPlanElement) (planCentreChanged : bool)
    (side : EfisSide) (st : State) (o : PerSide (option nat)) (l : nat) (v : EfisState)
    (Hchanged : pposChanged inp = true)
    (Hcentre : sideGet side (ndMode inp) <> PLAN \/ is_Some planCentre)
    (Hrefs : GuidanceController.efisStateForSide (guidanceController st) = Some o)
    (Hside : sideGet side o = Some l)
    (Hobject : GuidanceController.efisHeap (guidanceController st) !! l = Some v)
    (Hover : (106 < length (upsertAll [] (upsertCalls inp side)))%nat) :
  let working := upsertAll [] (upsertCalls inp side) in
  let sent := drop (length working - 107) working in
  let result := sidePass inp planCentre planCentreChanged side st in
  syncer (snd result) = syncer st ++ [(side, sent)]
  /\ length sent = 107%nat
  /\ GuidanceController.efisHeap (guidanceController (snd result)) !! l
     = Some (GuidanceController.set_dataLimitReached true v).
Proof.
  intros working sent result.
  destruct (sidePass_sends_limited inp planCentre planCentreChanged side st o l v
              Hchanged Hcentre Hrefs Hside Hobject) as (_ & Hsent & Hflag).
  fold working in Hsent, Hflag. fold result in Hsent, Hflag.
  rewrite (limitSymbols_over working Hover) in Hsent, Hflag.
  split; [exact Hsent |]. split; [| exact Hflag].
  subst sent. rewrite length_drop. fold working in Hover. lia.
Qed.

(** Within the budget the whole working list is sent and the flag is
    cleared. *)
Lemma sidePass_within_budget_sends_all (inp : Inputs)
    (planCentre : option FlightPlanElement) (planCentreChanged : bool)
    (side : EfisSide) (st : State) (o : PerSide (option nat)) (l : nat) (v : EfisState) :
  pposChanged inp = true ->
  (sideGet side (ndMode inp) <> PLAN \/ is_Some planCentre) ->
  GuidanceController.efisStateForSide (guidanceController st) = Some o ->
  sideGet side o = Some l ->
  GuidanceController.efisHeap (guidanceController st) !! l = Some v ->
  (length (upsertAll [] (upsertCalls inp side)) <= 106)%nat ->
  let working := upsertAll [] (upsertCalls inp side) in
  let result := sidePass inp planCentre planCentreChanged side st in
  syncer (snd result) = syncer st ++ [(side, working)]
  /\ GuidanceController.efisHeap (guidanceController (snd result)) !! l
     = Some (GuidanceController.set_dataLimitReached false v).
Proof.
  intros Hchanged Hcentre Hrefs Hside Hobject Hwithin working result.
  destruct (sidePass_sends_limited inp planCentre planCentreChanged side st o l v
              Hchanged Hcentre Hrefs Hside Hobject) as (_ & Hsent & Hflag).
  fold working in Hsent, Hflag. fold result in Hsent, Hflag.
  rewrite (limitSymbols_within working Hwithin) in Hsent, Hflag.
  split; assumption.
Qed.

(** The guards in front of the loop: without the selected plan, or with
    the selected index outside it, [update] returns at once. *)
Lemma update_returns_without_plan (inp : Inputs) (st : State) :
  planCentrePlan inp = None -> update inp st = (Normal tt, st).
Proof.
  intros Hplan. unfold update, bind, get. simpl.
  destruct (blockUpdate st); [reflexivity |]. rewrite Hplan. reflexivity.
Qed.

Lemma update_returns_outside_plan (inp : Inputs) (plan : BaseFlightPlan) (st : State) :
  planCentrePlan inp = Some plan ->
  hasElement plan (planCentreIndex inp) = false ->
  update inp st = (Normal tt, st).
Proof.
  intros Hplan Houtside. unfold update, bind, get. simpl.
  destruct (blockUpdate st); [reflexivity |]. rewrite Hplan, Houtside. reflexivity.
Qed.

(** A side in PLAN mode without a plan centre is sent the empty list,
    and its iteration leaves [update]. *)
Lemma sidePass_plan_mode_without_centre (inp : Inputs) (planCentreChanged : bool)
    (side : EfisSide) (st : State) :
  pposChanged inp = true ->
  sideGet side (ndMode inp) = PLAN ->
  let result := sidePass inp None planCentreChanged side st in
  fst result = Normal Return
  /\ syncer (snd result) = syncer st ++ [(side, [])].
Proof.
  intros Hppos Hmode result. subst result.
  unfold sidePass, bind, get, modify. simpl. rewrite Hppos, Hmode. simpl.
  split; reflexivity.
Qed.

(** A [return] in the loop body ends the loop: the remaining sides are
    not visited. *)
Lemma forSides_stops_at_return (body : EfisSide -> M State Flow) (side : EfisSide)
    (rest : list EfisSide) (st st' : State) :
  body side st = (Normal Return, st') ->
  forSides body (side :: rest) st = (Normal tt, st').
Proof. intros Hbody. simpl. unfold bind. rewrite Hbody. reflexivity. Qed.

(** With the left side in PLAN mode and the selected element
    undefined, the only event of the invocation is the empty list for
    the left side, whatever the right side shows. *)
Lemma update_left_plan_without_centre (inp : Inputs) (plan : BaseFlightPlan) (st : State) :
  blockUpdate st = false ->
  planCentrePlan inp = Some plan ->
  hasElement plan (planCentreIndex inp) = true ->
  elementAt plan (planCentreIndex inp) = None ->
  pposChanged inp = true ->
  onL (ndMode inp) = PLAN ->
  let result := update inp st in
  fst result = Normal tt /\ syncer (snd result) = syncer st ++ [(Side.L, [])].
Proof.
  intros Hblock Hplan Hhas Hnone Hppos Hmode result.
  assert (exists changed, update inp st = forSides (sidePass inp None changed) sides st)
    as [changed Hupdate].
  { eexists. unfold update, bind at 1, get at 1.
    rewrite Hblock, Hplan, Hhas, Hnone. cbn [negb isDiscontinuity mbind option_bind].
    unfold bind at 1, ret at 1, bind at 1, get at 1. reflexivity. }
  subst result. rewrite Hupdate. clear Hupdate.
  destruct (sidePass_plan_mode_without_centre inp changed Side.L st Hppos Hmode)
    as [Hflow Hsent].
  destruct (sidePass inp None changed Side.L st) as [flow st'] eqn:Hpass.
  simpl in Hflow, Hsent. subst flow.
  unfold sides. rewrite (forSides_stops_at_return _ _ _ _ _ Hpass).
  split; [reflexivity | exact Hsent].
Qed.

End PassFacts.

(** *** The properties on the concrete world *)

Lemma pass_over_107_candidates :
  exists sent,
    syncer (snd (@sidePass Scenario.planning
                   (Scenario.inputs (Some Scenario.twoLegs) 1 ARC ARC
                      (fun _ => Scenario.distinctSymbols 107))
                   (Some (Leg (Some Scenario.waypointB))) false Side.L Scenario.firstPass))
    = [(Side.L, sent)]
    /\ length sent = 107%nat.
Proof.
  destruct (@sidePass_over_budget_sends_107 Scenario.planning
              (Scenario.inputs (Some Scenario.twoLegs) 1 ARC ARC
                 (fun _ => Scenario.distinctSymbols 107))
              (Some (Leg (Some Scenario.waypointB))) false Side.L Scenario.firstPass
              {| onL := Some 0%nat; onR := Some 0%nat |} 0%nat
              {| mode := ARC; range := 10%Q; dataLimitReached := false;
                 legsCulled := false |})
    as (Hsent & Hlength & _).
  - reflexivity.
  - left. discriminate.
  - vm_compute. reflexivity.
  - reflexivity.
  - vm_compute. reflexivity.
  - vm_compute. lia.
  - eexists. split; [exact Hsent | exact Hlength].
Defined.

Lemma second_upsert_is_absorbed :
  let calls := [Scenario.symbolNamed "WLSZH  TRA" 1; Scenario.symbolNamed "WLSZH  KLO" 2] in
  let s := Scenario.symbolNamed "WLSZH  TRA" 4 in
  upsertSymbol (upsertSymbol (upsertAll [] calls) s) s = upsertSymbol (upsertAll [] calls) s.
Proof.
  intros calls s.
  apply (upsertSymbol_idempotent_without_rings calls s).
  - repeat constructor; unfold is_int32; simpl; lia.
  - split; left; reflexivity.
Defined.

(** Upserting a fix-info symbol a second time appends its radials and
    radii once more. *)
Lemma second_upsert_repeats_rings :
  upsertSymbol (upsertSymbol [] Scenario.fixInfoSymbol) Scenario.fixInfoSymbol
  <> upsertSymbol [] Scenario.fixInfoSymbol
  /\ radials <$> upsertSymbol (upsertSymbol [] Scenario.fixInfoSymbol) Scenario.fixInfoSymbol
     = [Some [90%Q; 90%Q]]
  /\ radials <$> upsertSymbol [] Scenario.fixInfoSymbol = [Some [90%Q]].
Proof.
  split; [| split; reflexivity].
  intros Heq. apply (f_equal (fmap radials)) in Heq. vm_compute in Heq. discriminate Heq.
Qed.

(** The second upsert of a fix-info symbol repeats its rings and shows
    the same symbols. *)
Lemma second_upsert_of_fix_info_shows_same_rings :
  let symbols := upsertAll [] [Scenario.symbolNamed "WLSZH  TRA" 1; Scenario.fixInfoSymbol] in
  Forall2 spec_sameVisibleSymbol
    (upsertSymbol (upsertSymbol symbols Scenario.fixInfoSymbol) Scenario.fixInfoSymbol)
    (upsertSymbol symbols Scenario.fixInfoSymbol).
Proof.
  apply (upsertSymbol_idempotent
           [Scenario.symbolNamed "WLSZH  TRA" 1; Scenario.fixInfoSymbol]
           Scenario.fixInfoSymbol).
  repeat constructor; vm_compute; intros; discriminate.
Defined.
Lemma meridianDistance_self p : Scenario.meridianDistance p p = 0%R.
Proof.
  unfold Scenario.meridianDistance.
  rewrite Rminus_diag, Rabs_R0. apply Rmult_0_r.
Qed.

(** Without a resolved plan centre the test lets through a point 120 NM
    ahead at range 10 in ARC mode, whose along-track offset is beyond
    the 10.5 NM of the edit area. *)
Lemma far_point_passes_without_plan_centre :
  withinEditArea Scenario.meridianDistance Scenario.northBearing Scenario.noClamp
    None Scenario.ppos 0%R 10%Q ARC Scenario.twoDegreesNorth
  = true
  /\ ~ spec_insideEditArea Scenario.meridianDistance Scenario.northBearing Scenario.noClamp
         Scenario.ppos Scenario.ppos 0%R 10%Q ARC Scenario.twoDegreesNorth.
Proof.
  destruct (withinEditArea_admits_every_point_without_plan_centre
              Scenario.meridianDistance Scenario.northBearing Scenario.noClamp
              meridianDistance_self None Scenario.ppos 0%R 10%Q ARC)
    as (_ & Hadmit & _).
  split; [apply Hadmit; reflexivity |].
  unfold spec_insideEditArea, spec_alongTrackOffset, spec_crossTrackOffset, spec_bearing,
    spec_referencePoint, Scenario.meridianDistance, Scenario.northBearing,
    Scenario.noClamp.
  simpl.
  replace ((0 - 0) * PI / 180)%R with 0%R by lra.
  rewrite cos_0.
  replace (Q2R 49 - Q2R 47)%R with 2%R by (unfold Q2R; simpl; lra).
  rewrite (Rabs_pos_eq 2) by lra.
  unfold Q2R. simpl. lra.
Defined.

(** C9. The claim is that a side in PLAN mode without a resolvable plan
    centre is sent an empty list and that only this side's generation is
    aborted. With the left side in PLAN and the right side in ARC mode:
    when the selected index lies outside the plan, or the plan does not
    exist, [update] returns before the loop and neither side is sent
    anything; when the selected element is undefined, the left side is
    sent the empty list and [update] returns, so the right side is sent
    nothing, whereas with the left side in ARC mode the right side
    receives its symbols. *)
Theorem update_unresolved_plan_centre_stops_every_side :
  syncer (snd (@update Scenario.planning
                 (Scenario.inputs (Some Scenario.twoLegs) 5 PLAN ARC Scenario.fewSymbols)
                 Scenario.firstPass)) = []
  /\ syncer (snd (@update Scenario.planning
                    (Scenario.inputs None 1 PLAN ARC Scenario.fewSymbols)
                    Scenario.firstPass)) = []
  /\ syncer (snd (@update Scenario.planning
                    (Scenario.inputs (Some Scenario.holedPlan) 1 PLAN ARC Scenario.fewSymbols)
                    Scenario.firstPass)) = [(Side.L, [])]
  /\ syncer (snd (@update Scenario.planning
                    (Scenario.inputs (Some Scenario.holedPlan) 1 ARC ARC Scenario.fewSymbols)
                    Scenario.firstPass))
     = [(Side.L, Scenario.fewSymbols Side.L); (Side.R, Scenario.fewSymbols Side.R)].
Proof. repeat split. Qed.

End EfisSymbolsFacts.

(** ** The controller's cache and tick, further *)

Module GuidanceControllerTickFacts.

Import GuidanceController GuidanceControllerFacts.

(** *** Methods that respect a preorder on the states *)

Section Respects.

Context {S : Type} (R : S -> S -> Prop).

Hypothesis R_refl : forall s, R s s.

Hypothesis R_trans : forall s1 s2 s3, R s1 s2 -> R s2 s3 -> R s1 s3.

Lemma respects_ret {A} (a : A) : respects R (ret a).
Proof. intros s. apply R_refl. Qed.

Lemma respects_bind {A B} (m : M S A) (k : A -> M S B) :
  respects R m -> (forall a, respects R (k a)) -> respects R (bind m k).
Proof.
  intros Hm Hk s. unfold bind. specialize (Hm s).
  destruct (m s) as [[a | e] s1]; simpl in *; [| exact Hm].
  eapply R_trans; [exact Hm | apply Hk].
Qed.

Lemma respects_bind_get {B} (k : S -> M S B) :
  (forall s, R s (snd (k s s))) -> respects R (bind get k).
Proof. intros Hk s. apply Hk. Qed.

Lemma respects_try_catch {A} (body : M S A) (handler : Exn -> M S A) :
  respects R body -> (forall e, respects R (handler e)) ->
  respects R (try_catch body handler).
Proof.
  intros Hb Hh s. unfold try_catch. specialize (Hb s).
  destruct (body s) as [[a | e] s1]; simpl in *; [exact Hb |].
  eapply R_trans; [exact Hb | apply Hh].
Qed.

End Respects.


Ltac split_step H a s Hm := apply bind_Normal_inv in H as (a & s & Hm & H).

Section Tick.

Context `{Collaborators}.

(** *** One slot of the geometry cache *)

Lemma geometryKey_separates (i j : Z) (a b : bool) :
  0 <= i < 100 -> 0 <= j < 100 ->
  geometryKey i a = geometryKey j b -> i = j /\ a = b.
Proof.
  unfold geometryKey. intros Hi Hj. destruct a, b; intros Heq; split; try lia; reflexivity.
Qed.

(** What [tryUpdateFlightPlanGeometry] may change: the geometry under
    its own key and the version recorded for its own index. *)
Lemma tryUpdateFlightPlanGeometry_shape (flightPlanIndex : Z) (alternate force : bool)
    (st : State) :
  exists g v,
    snd (tryUpdateFlightPlanGeometry flightPlanIndex alternate force st)
    = with_geometries g (with_versions v st)
    /\ (forall k, k <> geometryKey flightPlanIndex alternate ->
          g !! k = flightPlanGeometries st !! k)
    /\ (forall k, k <> flightPlanIndex -> v !! k = lastFlightPlanVersions st !! k).
Proof.
  unfold tryUpdateFlightPlanGeometry, geometryKey.
  set (key := (if alternate then 100 else 0) + flightPlanIndex).
  assert (forall s : State, with_geometries (flightPlanGeometries s)
                              (with_versions (lastFlightPlanVersions s) s) = s) as Hid
    by (intros []; reflexivity).
  destruct (flightPlanService (world st) flightPlanIndex) as [fp |].
  - destruct (negb force && _)%bool.
    + exists (flightPlanGeometries st), (lastFlightPlanVersions st).
      simpl. rewrite Hid. auto.
    + set (v := <[flightPlanIndex := _]> (lastFlightPlanVersions st)).
      assert (forall k, k <> flightPlanIndex -> v !! k = lastFlightPlanVersions st !! k)
        as Hv by (intros k Hk; subst v; apply lookup_insert_ne; congruence).
      simpl. destruct (flightPlanGeometries st !! key) as [geometry |] eqn:Hg.
      * destruct ((updateFromFlightPlan _ _;;; recomputeGeometry _ _) geometry) as [c g'].
        eexists _, v. split; [reflexivity |]. split; [| exact Hv].
        intros k Hk. simpl. apply lookup_insert_ne. congruence.
      * destruct (createFromFlightPlan _ _) as [newGeometry | e].
        -- destruct (recomputeGeometry _ _ newGeometry) as [[[] | e] g'].
           { eexists _, v. split; [reflexivity |]. split; [| exact Hv].
             intros k Hk. simpl. apply lookup_insert_ne. congruence. }
           exists (flightPlanGeometries st), v. split; [reflexivity |]. auto.
        -- exists (flightPlanGeometries st), v. split; [reflexivity |]. auto.
  - exists (delete key (flightPlanGeometries st)), (lastFlightPlanVersions st).
    simpl. split; [reflexivity |]. split; [| auto].
    intros k Hk. apply lookup_delete_ne. congruence.
Qed.

(** X1. For flight-plan indices below 100, where the keys
    [(alternate ? 100 : 0) + index] of different (index, alternate) pairs
    differ, [tryUpdateFlightPlanGeometry] for one pair leaves under the
    key of every other pair what the geometry map held there, and
    leaves the version recorded for every other index. *)
Theorem tryUpdateFlightPlanGeometry_leaves_other_slots
    (flightPlanIndex otherIndex : Z) (alternate otherAlternate force : bool) (st : State)
    (Hindex : 0 <= flightPlanIndex < 100) (Hother : 0 <= otherIndex < 100)
    (Hdifferent : (otherIndex, otherAlternate) <> (flightPlanIndex, alternate)) :
  let st' := snd (tryUpdateFlightPlanGeometry flightPlanIndex alternate force st) in
  getGeometryForFlightPlan otherIndex otherAlternate st'
  = getGeometryForFlightPlan otherIndex otherAlternate st
  /\ (otherIndex <> flightPlanIndex ->
      lastFlightPlanVersions st' !! otherIndex = lastFlightPlanVersions st !! otherIndex).
Proof.
  intros st'. subst st'.
  destruct (tryUpdateFlightPlanGeometry_shape flightPlanIndex alternate force st)
    as (g & v & -> & Hg & Hv).
  unfold getGeometryForFlightPlan. simpl.
  split; [| intros Hne; apply Hv, Hne].
  apply Hg. intros Hkey.
  apply geometryKey_separates in Hkey as [-> ->]; [| assumption | assumption].
  apply Hdifferent. reflexivity.
Qed.


(** The version that [tryUpdateFlightPlanGeometry] compares and records. *)
Lemma tryUpdateFlightPlanGeometry_version (flightPlanIndex : Z) (alternate force : bool)
    (st : State) (fp : FlightPlan) :
  flightPlanService (world st) flightPlanIndex = Some fp ->
  lastFlightPlanVersions (snd (tryUpdateFlightPlanGeometry flightPlanIndex alternate force st))
    !! flightPlanIndex
  = Some (version (if alternate then alternateFlightPlan fp else primary fp)).
Proof.
  intros Hplan. unfold tryUpdateFlightPlanGeometry. rewrite Hplan.
  destruct (negb force && _)%bool eqn:Hskip.
  - apply andb_true_iff in Hskip as [_ Hseen]. apply bool_decide_eq_true in Hseen.
    exact Hseen.
  - simpl. destruct (flightPlanGeometries st !! _) as [geometry |].
    + destruct ((updateFromFlightPlan _ _;;; recomputeGeometry _ _) geometry) as [c g'].
      simpl. apply lookup_insert_eq.
    + destruct (createFromFlightPlan _ _) as [newGeometry | e]; simpl.
      * destruct (recomputeGeometry _ _ newGeometry) as [[[] | e] g']; simpl;
          apply lookup_insert_eq.
      * apply lookup_insert_eq.
Qed.

(** The shortcut: plan present, version seen, not forced. *)
Lemma tryUpdateFlightPlanGeometry_skips (flightPlanIndex : Z) (alternate : bool)
    (st : State) (fp : FlightPlan) :
  flightPlanService (world st) flightPlanIndex = Some fp ->
  lastFlightPlanVersions st !! flightPlanIndex
  = Some (version (if alternate then alternateFlightPlan fp else primary fp)) ->
  tryUpdateFlightPlanGeometry flightPlanIndex alternate false st = (Normal tt, st).
Proof.
  intros Hplan Hseen. unfold tryUpdateFlightPlanGeometry. rewrite Hplan, Hseen.
  rewrite bool_decide_eq_true_2 by reflexivity. reflexivity.
Qed.

Lemma tryUpdateFlightPlanGeometry_world (flightPlanIndex : Z) (alternate force : bool)
    (st : State) :
  world (snd (tryUpdateFlightPlanGeometry flightPlanIndex alternate force st)) = world st.
Proof.
  destruct (tryUpdateFlightPlanGeometry_shape flightPlanIndex alternate force st)
    as (g & v & -> & _). reflexivity.
Qed.

(** X2. With [force] set and the plan present,
    [tryUpdateFlightPlanGeometry] records the current version of the
    plan (of its alternate when the flag is set), and when it returns
    the slot holds a geometry. *)
Theorem tryUpdateFlightPlanGeometry_forced_builds
    (flightPlanIndex : Z) (alternate : bool) (st : State) (fp : FlightPlan)
    (Hplan : flightPlanService (world st) flightPlanIndex = Some fp) :
  let plan := if alternate then alternateFlightPlan fp else primary fp in
  let result := tryUpdateFlightPlanGeometry flightPlanIndex alternate true st in
  lastFlightPlanVersions (snd result) !! flightPlanIndex = Some (version plan)
  /\ (fst result = Normal tt ->
      hasGeometryForFlightPlan flightPlanIndex alternate (snd result) = true).
Proof.
  intros plan result. subst plan result.
  split; [apply tryUpdateFlightPlanGeometry_version, Hplan |].
  unfold tryUpdateFlightPlanGeometry, hasGeometryForFlightPlan, geometryKey.
  rewrite Hplan. simpl.
  destruct (flightPlanGeometries st !! _) as [geometry |].
  - destruct ((updateFromFlightPlan _ _;;; recomputeGeometry _ _) geometry) as [c g'].
    simpl. intros _. apply bool_decide_eq_true. rewrite lookup_insert_eq. eauto.
  - destruct (createFromFlightPlan _ _) as [newGeometry | e]; simpl; [| discriminate].
    destruct (recomputeGeometry _ _ newGeometry) as [[[] | e] g']; simpl; [| discriminate].
    intros _. apply bool_decide_eq_true. rewrite lookup_insert_eq. eauto.
Qed.

(** X3. The version is recorded before the geometry is built. When the
    first build of a slot throws, the slot stays empty and the version
    counts as seen: the next unforced call for the slot returns at the
    version test and builds nothing. *)
Theorem tryUpdateFlightPlanGeometry_failed_build_not_retried
    (flightPlanIndex : Z) (alternate force : bool) (st : State) (fp : FlightPlan) (e : Exn)
    (Hplan : flightPlanService (world st) flightPlanIndex = Some fp)
    (Habsent : getGeometryForFlightPlan flightPlanIndex alternate st = None)
    (Hthrows : fst (tryUpdateFlightPlanGeometry flightPlanIndex alternate force st) = Throw e) :
  let st' := snd (tryUpdateFlightPlanGeometry flightPlanIndex alternate force st) in
  getGeometryForFlightPlan flightPlanIndex alternate st' = None
  /\ tryUpdateFlightPlanGeometry flightPlanIndex alternate false st' = (Normal tt, st').
Proof.
  intros st'.
  assert (getGeometryForFlightPlan flightPlanIndex alternate st' = None) as Hnone.
  { subst st'. revert Hthrows Habsent.
    unfold tryUpdateFlightPlanGeometry, getGeometryForFlightPlan, geometryKey.
    rewrite Hplan. destruct (negb force && _)%bool; [discriminate |]. simpl.
    intros Hthrows Habsent. revert Hthrows. rewrite Habsent.
    destruct (createFromFlightPlan _ _) as [newGeometry | e']; simpl.
    - destruct (recomputeGeometry _ _ newGeometry) as [[[] | e'] g']; simpl;
        [discriminate | intros _; exact Habsent].
    - intros _. exact Habsent. }
  split; [exact Hnone |].
  apply (tryUpdateFlightPlanGeometry_skips flightPlanIndex alternate st' fp).
  - subst st'. rewrite tryUpdateFlightPlanGeometry_world. exact Hplan.
  - subst st'. apply tryUpdateFlightPlanGeometry_version, Hplan.
Qed.

(** X4. The last-seen version is kept per flight-plan index, not per
    (index, alternate) pair. After the call for the primary plan of an
    index, the unforced call for its alternate plan, whose version
    counter has the same value, returns at the version test, and the
    alternate slot holds what it held before the two calls. *)
Theorem tryUpdateFlightPlanGeometry_alternate_hidden_by_primary
    (flightPlanIndex : Z) (force : bool) (st : State) (fp : FlightPlan)
    (Hplan : flightPlanService (world st) flightPlanIndex = Some fp)
    (Hsame : version (alternateFlightPlan fp) = version (primary fp)) :
  let st' := snd (tryUpdateFlightPlanGeometry flightPlanIndex false force st) in
  tryUpdateFlightPlanGeometry flightPlanIndex true false st' = (Normal tt, st')
  /\ getGeometryForFlightPlan flightPlanIndex true st'
     = getGeometryForFlightPlan flightPlanIndex true st.
Proof.
  intros st'. split.
  - apply (tryUpdateFlightPlanGeometry_skips flightPlanIndex true st' fp).
    + subst st'. rewrite tryUpdateFlightPlanGeometry_world. exact Hplan.
    + subst st'. rewrite Hsame.
      apply (tryUpdateFlightPlanGeometry_version flightPlanIndex false force st fp Hplan).
  - subst st'.
    destruct (tryUpdateFlightPlanGeometry_shape flightPlanIndex false force st)
      as (g & v & -> & Hg & _).
    unfold getGeometryForFlightPlan, geometryKey in *. simpl. apply Hg. lia.
Qed.

(** X5. When the version counters of a plan and of its alternate
    differ, the calls for the two overwrite each other's recorded
    version. In the sequence primary, alternate, primary of unforced
    calls, each call leaves its own version recorded, and the second
    and the third call change the state: once the primary's call has
    run, neither of the two finds its version seen. *)
Theorem tryUpdateFlightPlanGeometry_versions_alternate_each_tick
    (flightPlanIndex : Z) (st : State) (fp : FlightPlan)
    (Hplan : flightPlanService (world st) flightPlanIndex = Some fp)
    (Hdiffer : version (alternateFlightPlan fp) <> version (primary fp)) :
  let st1 := snd (tryUpdateFlightPlanGeometry flightPlanIndex false false st) in
  let st2 := snd (tryUpdateFlightPlanGeometry flightPlanIndex true false st1) in
  let st3 := snd (tryUpdateFlightPlanGeometry flightPlanIndex false false st2) in
  lastFlightPlanVersions st1 !! flightPlanIndex = Some (version (primary fp))
  /\ lastFlightPlanVersions st2 !! flightPlanIndex = Some (version (alternateFlightPlan fp))
  /\ lastFlightPlanVersions st3 !! flightPlanIndex = Some (version (primary fp))
  /\ st2 <> st1 /\ st3 <> st2.
Proof.
  intros st1 st2 st3.
  assert (flightPlanService (world st1) flightPlanIndex = Some fp) as Hplan1
    by (subst st1; rewrite tryUpdateFlightPlanGeometry_world; exact Hplan).
  assert (flightPlanService (world st2) flightPlanIndex = Some fp) as Hplan2
    by (subst st2; rewrite tryUpdateFlightPlanGeometry_world; exact Hplan1).
  pose proof (tryUpdateFlightPlanGeometry_version flightPlanIndex false false st fp Hplan)
    as Hv1.
  pose proof (tryUpdateFlightPlanGeometry_version flightPlanIndex true false st1 fp Hplan1)
    as Hv2.
  pose proof (tryUpdateFlightPlanGeometry_version flightPlanIndex false false st2 fp Hplan2)
    as Hv3.
  fold st1 in Hv1. fold st2 in Hv2. fold st3 in Hv3.
  repeat split; try assumption.
  - intros Heq. rewrite Heq, Hv1 in Hv2. congruence.
  - intros Heq. rewrite Heq, Hv2 in Hv3. congruence.
Qed.


(** *** What the stages of a tick keep *)

Lemma logLines_app a b : logLines (a ++ b) = logLines a ++ logLines b.
Proof. unfold logLines. apply bind_app. Qed.

Lemma quietStep_same st st' :
  efis st' = efis st ->
  geometryRecomputationTimer st' = geometryRecomputationTimer st ->
  console st' = console st ->
  quietStep st st'.
Proof.
  intros He Ht Hc. split; [rewrite He; apply refreshOf_refl |].
  split; [exact Ht |]. exists []. rewrite Hc. symmetry. apply app_nil_r.
Qed.

Lemma quietStep_refl st : quietStep st st.
Proof. apply quietStep_same; reflexivity. Qed.

Lemma quietStep_trans st1 st2 st3 : quietStep st1 st2 -> quietStep st2 st3 -> quietStep st1 st3.
Proof.
  intros (He & Ht & [l1 Hc]) (He' & Ht' & [l2 Hc']).
  split; [eapply refreshOf_trans; eassumption |]. split; [congruence |].
  exists (l1 ++ l2). rewrite Hc', Hc, logLines_app. symmetry. apply app_assoc.
Qed.

Ltac quiet_bind :=
  apply (respects_bind quietStep quietStep_trans).

Lemma quiet_call {A} (m : M World A) : respects quietStep (call m).
Proof.
  intros s. unfold call. destruct (m (world s)) as [c w].
  apply quietStep_same; reflexivity.
Qed.

(** The handler of a stage guard logs the prefix and the exception. *)
Lemma quiet_handler prefix e :
  respects quietStep (console_error (Message prefix) ;;; console_error (Exception e)).
Proof.
  intros s. unfold bind, console_error, modify. simpl.
  split; [apply refreshOf_refl |]. split; [reflexivity |].
  exists [(prefix, e)]. simpl. rewrite <- app_assoc. reflexivity.
Qed.

Lemma quiet_logged prefix body :
  respects quietStep body -> respects quietStep (logged prefix body).
Proof.
  intros Hb. apply (respects_try_catch quietStep quietStep_trans); [exact Hb |].
  intros e. apply quiet_handler.
Qed.

Lemma quiet_tryUpdateFlightPlanGeometry i a f :
  respects quietStep (tryUpdateFlightPlanGeometry i a f).
Proof.
  intros s. destruct (tryUpdateFlightPlanGeometry_shape i a f s) as (g & v & -> & _).
  apply quietStep_same; reflexivity.
Qed.

Lemma quiet_updateEfisState side ref : respects quietStep (updateEfisState side ref).
Proof.
  assert (forall f, (forall v, keepsFlags v (f v)) ->
                    respects quietStep (onEfis (writeEfisState ref f))) as Hwrite.
  { intros f Hf s. pose proof (steady_write ref f Hf s) as Hs.
    unfold onEfis in *. destruct (writeEfisState ref f (efis s)) as [c e]. simpl in *.
    split; [exact Hs |]. split; [reflexivity |].
    exists []. symmetry. apply app_nil_r. }
  unfold updateEfisState.
  apply (respects_bind_get quietStep). intros s.
  quiet_bind.
  { destruct (_ || _)%bool; [| apply (respects_ret quietStep quietStep_refl)].
    quiet_bind; [apply quiet_call | intros _; apply quiet_call]. }
  intros _. quiet_bind; [apply Hwrite; intros v; split; reflexivity |].
  intros _. quiet_bind; [apply Hwrite; intros v; split; reflexivity |].
  intros _. apply quiet_call.
Qed.

Lemma quiet_updateMapPartlyDisplayed : respects quietStep updateMapPartlyDisplayed.
Proof.
  assert (forall side, respects quietStep
            (onEfis (ref <- efisStateRefForSide side ;; readEfisState ref))) as Hread.
  { intros side s. unfold onEfis, bind, efisStateRefForSide, readEfisState.
    destruct (efisStateForSide (efis s)) as [o |]; simpl.
    - destruct (sideGet side o ≫= _); simpl; apply quietStep_same; reflexivity.
    - apply quietStep_same; reflexivity. }
  assert (forall side b, respects quietStep
            (modify (fun st => with_simVars (set_MAP_PARTLY_DISPLAYED side b (simVars st)) st)))
    as Hset.
  { intros side b s. unfold modify. apply quietStep_same; reflexivity. }
  unfold updateMapPartlyDisplayed.
  quiet_bind; [apply Hread | intros l].
  quiet_bind; [apply Hset | intros _].
  quiet_bind; [apply Hread | intros r]. apply Hset.
Qed.

(** *** What the guards log *)

Lemma silentStep_refl st : silentStep st st.
Proof. reflexivity. Qed.

Lemma silentStep_trans st1 st2 st3 :
  silentStep st1 st2 -> silentStep st2 st3 -> silentStep st1 st3.
Proof. unfold silentStep. congruence. Qed.

Lemma guardLogStep_refl deltaTime st : guardLogStep deltaTime st st.
Proof. exists []. split; [symmetry; apply app_nil_r | constructor]. Qed.

Lemma guardLogStep_trans deltaTime st1 st2 st3 :
  guardLogStep deltaTime st1 st2 -> guardLogStep deltaTime st2 st3 ->
  guardLogStep deltaTime st1 st3.
Proof.
  intros (l1 & Hc1 & Hl1) (l2 & Hc2 & Hl2). exists (l1 ++ l2). split.
  - rewrite Hc2, Hc1, logLines_app. symmetry. apply app_assoc.
  - apply Forall_app. split; assumption.
Qed.

Lemma silent_guardLog {A} deltaTime (m : M State A) :
  respects silentStep m -> respects (guardLogStep deltaTime) m.
Proof.
  intros Hm s. exists []. split; [| constructor].
  rewrite (Hm s). symmetry. apply app_nil_r.
Qed.

Ltac silent_bind := apply (respects_bind silentStep silentStep_trans).

Ltac guardLog_bind deltaTime :=
  apply (respects_bind (guardLogStep deltaTime) (guardLogStep_trans deltaTime)).

Lemma silent_call {A} (m : M World A) : respects silentStep (call m).
Proof. intros s. unfold call. destruct (m (world s)) as [c w]. reflexivity. Qed.

Lemma silent_onEfis {A} (m : M EfisStore A) : respects silentStep (onEfis m).
Proof. intros s. unfold onEfis. destruct (m (efis s)) as [c e]. reflexivity. Qed.

Lemma silent_tryUpdateFlightPlanGeometry i a f :
  respects silentStep (tryUpdateFlightPlanGeometry i a f).
Proof.
  intros s. destruct (tryUpdateFlightPlanGeometry_shape i a f s) as (g & v & -> & _).
  reflexivity.
Qed.

Lemma silent_updateEfisState side ref : respects silentStep (updateEfisState side ref).
Proof.
  unfold updateEfisState.
  apply (respects_bind_get silentStep). intros s.
  silent_bind.
  { destruct (_ || _)%bool; [| apply (respects_ret silentStep silentStep_refl)].
    silent_bind; [apply silent_call | intros _; apply silent_call]. }
  intros _. silent_bind; [apply silent_onEfis |].
  intros _. silent_bind; [apply silent_onEfis |].
  intros _. apply silent_call.
Qed.

Lemma silent_updateMapPartlyDisplayed : respects silentStep updateMapPartlyDisplayed.
Proof.
  assert (forall side b, respects silentStep
            (modify (fun st => with_simVars (set_MAP_PARTLY_DISPLAYED side b (simVars st)) st)))
    as Hset by (intros side b s; reflexivity).
  unfold updateMapPartlyDisplayed.
  silent_bind; [apply silent_onEfis | intros l].
  silent_bind; [apply Hset | intros _].
  silent_bind; [apply silent_onEfis | intros r]. apply Hset.
Qed.

(** A guard adds to what its body logs the pair for the exception that
    the body threw. *)
Lemma guardLog_logged deltaTime prefix body :
  guardedStage deltaTime prefix body ->
  respects (guardLogStep deltaTime) body ->
  respects (guardLogStep deltaTime) (logged prefix body).
Proof.
  intros Hstage Hbody s. unfold logged, try_catch.
  pose proof (Hbody s) as Hs.
  destruct (body s) as [[[] | e] s1] eqn:Hrun; cbn [snd] in Hs |- *; [exact Hs |].
  eapply guardLogStep_trans; [exact Hs |].
  exists [(prefix, e)]. split.
  - unfold bind, console_error, modify. simpl. rewrite <- app_assoc. reflexivity.
  - constructor; [| constructor]. exists body, s. simpl. rewrite Hrun. auto.
Qed.

Lemma guardLog_lnavStage deltaTime : respects (guardLogStep deltaTime) lnavStage.
Proof.
  unfold lnavStage.
  repeat (guardLog_bind deltaTime;
          [apply silent_guardLog, silent_tryUpdateFlightPlanGeometry | intros _]).
  guardLog_bind deltaTime.
  - apply (respects_bind_get (guardLogStep deltaTime)). intros s.
    destruct (Qgt_bool _ _); [| apply guardLogStep_refl].
    generalize s. clear s.
    change (forall s, guardLogStep deltaTime s (snd (?m s)))
      with (respects (guardLogStep deltaTime) m).
    guardLog_bind deltaTime; [apply silent_guardLog; intros s; reflexivity | intros _].
    repeat (guardLog_bind deltaTime;
            [apply silent_guardLog, silent_tryUpdateFlightPlanGeometry | intros _]).
    apply (respects_bind_get (guardLogStep deltaTime)). intros s.
    destruct (activeGeometry s) as [g |]; [| apply guardLogStep_refl].
    apply guardLog_logged; [constructor |].
    apply silent_guardLog. unfold profileStage.
    silent_bind; [apply silent_call | intros _; apply silent_call].
  - intros _. apply silent_guardLog, (respects_bind_get silentStep). intros s.
    apply silent_call.
Qed.

Lemma update_guardLogStep (deltaTime : Q) :
  respects (guardLogStep deltaTime) (update deltaTime).
Proof.
  unfold update.
  guardLog_bind deltaTime; [apply silent_guardLog; intros s; reflexivity | intros _].
  guardLog_bind deltaTime;
    [apply silent_guardLog, (respects_bind_get silentStep); intros s;
     apply silent_updateEfisState | intros _].
  guardLog_bind deltaTime;
    [apply silent_guardLog, (respects_bind_get silentStep); intros s;
     apply silent_updateEfisState | intros _].
  guardLog_bind deltaTime.
  { apply (guardLog_logged deltaTime _ vnavInputsStage); [constructor |].
    apply silent_guardLog. unfold vnavInputsStage.
    repeat (silent_bind; [apply silent_call | intros _]). apply silent_call. }
  intros _. guardLog_bind deltaTime.
  { apply (guardLog_logged deltaTime _ lnavStage); [constructor | apply guardLog_lnavStage]. }
  intros _. guardLog_bind deltaTime.
  { apply (guardLog_logged deltaTime _ mapStateStage); [constructor |].
    apply silent_guardLog, (respects_bind_get silentStep). intros s. apply silent_call. }
  intros _. guardLog_bind deltaTime.
  { apply guardLog_logged; [constructor |].
    apply silent_guardLog, silent_updateMapPartlyDisplayed. }
  repeat (intros _; guardLog_bind deltaTime;
          [apply guardLog_logged; [constructor | apply silent_guardLog, silent_call] |]).
  intros _. apply guardLog_logged; [constructor | apply silent_guardLog, silent_call].
Qed.

(** X8. Whatever the stages throw, the lines that [update] itself
    writes with [console.error] are appended to the console in pairs:
    the prefix of one of the guarded stages of [update], then an
    exception that the body of this stage threw. *)
Theorem update_logs_prefix_then_exception (deltaTime : Q) (st : State) :
  exists entries : list (string * Exn),
    console (snd (update deltaTime st)) = console st ++ logLines entries
    /\ Forall (caughtInStage deltaTime) entries.
Proof. exact (update_guardLogStep deltaTime st). Qed.

Lemma tryUpdateFlightPlanGeometry_returns (i : Z) (a f : bool) (st : State) :
  geometryNeverThrows -> fst (tryUpdateFlightPlanGeometry i a f st) = Normal tt.
Proof.
  intros (Hcreate & Hupdate & Hrecompute). unfold tryUpdateFlightPlanGeometry.
  destruct (flightPlanService (world st) i) as [fp |]; [| reflexivity].
  destruct (negb f && _)%bool; [reflexivity |]. simpl.
  destruct (flightPlanGeometries st !! _) as [geometry |].
  - unfold bind, recomputeGeometry.
    pose proof (Hupdate (if a then alternateFlightPlan fp else primary fp)
                  (negb a && (i <? FirstSecondary)) geometry) as Hu.
    destruct (updateFromFlightPlan _ _ geometry) as [[[] | e] g1]; [| discriminate].
    match goal with
    | |- context [recomputeWithParameters ?t ?g ?p ?k ?l1 ?l2 g1] =>
        pose proof (Hrecompute t g p k l1 l2 g1) as Hr;
        destruct (recomputeWithParameters t g p k l1 l2 g1) as [[[] | e] g2];
        [reflexivity | discriminate]
    end.
  - destruct (Hcreate (if a then alternateFlightPlan fp else primary fp)
                (negb a && (i <? FirstSecondary))) as [g Hg].
    rewrite Hg. unfold recomputeGeometry.
    match goal with
    | |- context [recomputeWithParameters ?t ?gs ?p ?k ?l1 ?l2 g] =>
        pose proof (Hrecompute t gs p k l1 l2 g) as Hr;
        destruct (recomputeWithParameters t gs p k l1 l2 g) as [[[] | e] g2];
        [reflexivity | discriminate]
    end.
Qed.

(** A geometry update that cannot throw, as a step of a sequence. *)
Lemma tryUpdateFlightPlanGeometry_then (i : Z) (a f : bool) (k : M State unit) (st : State) :
  geometryNeverThrows ->
  (tryUpdateFlightPlanGeometry i a f ;;; k) st
  = k (snd (tryUpdateFlightPlanGeometry i a f st)).
Proof.
  intros Hg. pose proof (tryUpdateFlightPlanGeometry_returns i a f st Hg) as Hr.
  unfold bind. destruct (tryUpdateFlightPlanGeometry i a f st) as [[[] | e] st'];
    [reflexivity | discriminate].
Qed.

Lemma quiet_timer {A} (m : M State A) (st : State) :
  respects quietStep m ->
  geometryRecomputationTimer (snd (m st)) = geometryRecomputationTimer st.
Proof. intros Hm. destruct (Hm st) as (_ & Ht & _). exact Ht. Qed.

(** X7. For a timer and a [deltaTime] that are multiples of 2^-10 below
    2^42 in magnitude, whose sum the code computes exactly: when both
    EFIS refreshes return and neither the geometry factory nor the
    recomputation throws, [update] leaves the recomputation timer at
    zero if the elapsed time, the timer plus [deltaTime], exceeds the
    period of 5000, and at the elapsed time otherwise, whatever the
    other stages throw. *)
Theorem update_resets_timer_past_period (deltaTime : Q) (st s1 s2 : State)
    (Hgeometry : geometryNeverThrows)
    (Hleft :
       updateEfisState Side.L (leftEfisState (efis st))
         (with_timer (geometryRecomputationTimer st + deltaTime)%Q st) = (Normal tt, s1))
    (Hright : updateEfisState Side.R (rightEfisState (efis s1)) s1 = (Normal tt, s2))
    (Htimer : Js.exactlySummed (geometryRecomputationTimer st) = true)
    (Hdelta : Js.exactlySummed deltaTime = true) :
  let elapsed := (geometryRecomputationTimer st + deltaTime)%Q in
  geometryRecomputationTimer (snd (update deltaTime st))
  = if Qgt_bool elapsed GEOMETRY_RECOMPUTATION_TIMER then 0%Q else elapsed.
Proof.
  intros elapsed. fold elapsed in Hleft.
  assert (geometryRecomputationTimer s2 = elapsed) as Ht2.
  { pose proof (quiet_timer _ s1 (quiet_updateEfisState Side.R (rightEfisState (efis s1))))
      as Hb. rewrite Hright in Hb. simpl in Hb. rewrite Hb.
    pose proof (quiet_timer _ (with_timer elapsed st)
                  (quiet_updateEfisState Side.L (leftEfisState (efis st)))) as Ha.
    rewrite Hleft in Ha. exact Ha. }
  unfold update.
  unfold bind at 1. unfold modify at 1. fold elapsed.
  unfold bind at 1. unfold bind at 1. unfold get at 1.
  change (efis (with_timer elapsed st)) with (efis st). rewrite Hleft.
  unfold bind at 1. unfold bind at 1. unfold get at 1. rewrite Hright.
  rewrite logged_then.
  match goal with
  | |- context [snd (logged ?p ?b s2)] =>
      assert (geometryRecomputationTimer (snd (logged p b s2)) = elapsed) as Ht3;
      [rewrite quiet_timer; [exact Ht2 |];
       apply quiet_logged;
       repeat (quiet_bind; [apply quiet_call | intros _]); apply quiet_call |];
      generalize dependent (snd (logged p b s2))
  end.
  intros s3 Ht3. rewrite logged_then.
  rewrite quiet_timer.
  2:{ quiet_bind; [apply quiet_logged, (respects_bind_get quietStep);
                   intros s; apply quiet_call |].
      intros _. quiet_bind; [apply quiet_logged, quiet_updateMapPartlyDisplayed |].
      repeat (intros _; quiet_bind; [apply quiet_logged, quiet_call |]).
      intros _. apply quiet_logged, quiet_call. }
  unfold logged at 1. unfold try_catch.
  match goal with
  | |- context [match ?body s3 with _ => _ end] =>
      assert (geometryRecomputationTimer (snd (body s3))
              = if Qgt_bool elapsed GEOMETRY_RECOMPUTATION_TIMER then 0%Q else elapsed)
        as Hbody;
      [| destruct (body s3) as [[[] | e] s4]; cbv beta iota; cbn [snd] in Hbody;
         [exact Hbody |];
         rewrite quiet_timer by apply quiet_handler; exact Hbody]
  end.
  rewrite !tryUpdateFlightPlanGeometry_then by exact Hgeometry.
  match goal with
  | |- geometryRecomputationTimer (snd (_ ?s)) = _ =>
      assert (geometryRecomputationTimer s = elapsed) as Ht;
      [rewrite !quiet_timer by apply quiet_tryUpdateFlightPlanGeometry; exact Ht3 |];
      generalize dependent s
  end.
  intros s8 Ht.
  unfold bind at 1. unfold bind at 1. unfold get at 1. rewrite Ht.
  destruct (Qgt_bool elapsed GEOMETRY_RECOMPUTATION_TIMER).
  - unfold bind at 1. unfold modify at 1.
    match goal with
    | |- geometryRecomputationTimer (snd (match ?m (with_timer 0%Q s8) with _ => _ end))
         = _ =>
        pose proof (quiet_timer m (with_timer 0%Q s8)) as Hm;
        destruct (m (with_timer 0%Q s8)) as [[[] | e] s9]; simpl in Hm |- *
    end.
    + rewrite quiet_timer by (apply (respects_bind_get quietStep); intros s; apply quiet_call).
      apply Hm.
      repeat (quiet_bind; [apply quiet_tryUpdateFlightPlanGeometry | intros _]).
      apply (respects_bind_get quietStep). intros s.
      destruct (activeGeometry s) as [g |]; [| apply quietStep_refl].
      apply quiet_logged. quiet_bind; [apply quiet_call | intros _; apply quiet_call].
    + apply Hm.
      repeat (quiet_bind; [apply quiet_tryUpdateFlightPlanGeometry | intros _]).
      apply (respects_bind_get quietStep). intros s.
      destruct (activeGeometry s) as [g |]; [| apply quietStep_refl].
      apply quiet_logged. quiet_bind; [apply quiet_call | intros _; apply quiet_call].
  - unfold ret at 1. cbn [fst snd].
    rewrite quiet_timer by (apply (respects_bind_get quietStep); intros s; apply quiet_call).
    exact Ht.
Qed.

(** *** The EfisState refresh *)

Lemma call_frame {A} (m : M World A) st c s1 :
  call m st = (c, s1) -> s1 = with_world (world s1) st.
Proof. unfold call. destruct (m (world st)) as [c' w]. intros [= <- <-]. reflexivity. Qed.

Lemma onEfis_frame {A} (m : M EfisStore A) st c s1 :
  onEfis m st = (c, s1) -> s1 = with_efis (efis s1) st /\ m (efis st) = (c, efis s1).
Proof.
  unfold onEfis. destruct (m (efis st)) as [c' e]. intros [= <- <-]. split; reflexivity.
Qed.

Lemma writeEfisState_normal ref f e e1 :
  writeEfisState ref f e = (Normal tt, e1) ->
  exists l v, ref = Some l /\ efisHeap e !! l = Some v
              /\ e1 = with_efisHeap (<[l := f v]> (efisHeap e)) e.
Proof.
  unfold writeEfisState. destruct ref as [l |]; [| discriminate].
  destruct (efisHeap e !! l) as [v |] eqn:Hl; [| discriminate].
  intros [= <-]. exists l, v. auto.
Qed.

(** A write that stores what the object already holds. *)
Lemma onEfis_write_same l f v s :
  efisHeap (efis s) !! l = Some v -> f v = v ->
  onEfis (writeEfisState (Some l) f) s = (Normal tt, s).
Proof.
  intros Hl Hf. unfold onEfis, writeEfisState. rewrite Hl, Hf.
  rewrite list_insert_id by exact Hl.
  destruct s as [t vs gs [h le ri fs] sv c w]. reflexivity.
Qed.

(** What a refresh that returns has done to the controller's fields. *)
Lemma updateEfisState_normal side ref st st1 :
  updateEfisState side ref st = (Normal tt, st1) ->
  exists l v,
    ref = Some l /\ efisHeap (efis st) !! l = Some v
    /\ efis st1
       = with_efisHeap
           (<[l := set_range (sideGet side (EFIS_ND_RANGE (simVars st)))
                     (set_mode (sideGet side (EFIS_ND_MODE (simVars st))) v)]>
              (efisHeap (efis st))) (efis st)
    /\ simVars st1 = simVars st.
Proof.
  unfold updateEfisState. unfold bind at 1. unfold get at 1.
  set (ndMode := sideGet side (EFIS_ND_MODE (simVars st))).
  set (ndRange := sideGet side (EFIS_ND_RANGE (simVars st))).
  intros Hrun.
  split_step Hrun a0 s0 Hforce.
  assert (efis s0 = efis st /\ simVars s0 = simVars st) as [E0 V0].
  { destruct (_ || _)%bool.
    - split_step Hforce a s Hcancel. apply call_inv in Hcancel as [Ea Va].
      apply call_inv in Hforce as [Eb Vb]. split; congruence.
    - unfold ret in Hforce. injection Hforce as _ Hs. rewrite <- Hs. split; reflexivity. }
  clear Hforce.
  split_step Hrun a1 s1 Hmode. destruct a1. apply onEfis_inv in Hmode as [Hmode V1].
  apply writeEfisState_normal in Hmode as (l & v & -> & Hl & E1).
  split_step Hrun a2 s2 Hrange. destruct a2. apply onEfis_inv in Hrange as [Hrange V2].
  apply writeEfisState_normal in Hrange as (l' & v' & [= <-] & Hl' & E2).
  apply call_inv in Hrun as [E3 V3].
  rewrite E1 in Hl'. simpl in Hl'.
  rewrite list_lookup_insert_eq in Hl' by (eapply lookup_lt_Some; exact Hl).
  injection Hl' as <-.
  exists l, v. rewrite <- E0. split; [reflexivity |]. split; [exact Hl |].
  split; [| congruence].
  rewrite E3, E2, E1. simpl. rewrite list_insert_insert_eq. reflexivity.
Qed.

(** X9. A refresh that returns was given a reference to an object: that
    object now holds the side's mode and range of the simulator with its
    two saturation flags as before, every other object is as it was, and
    so are [leftEfisState], [rightEfisState] and the entries of
    [efisStateForSide]. *)
Theorem updateEfisState_refreshes_one_object (side : EfisSide) (ref : option nat)
    (st st1 : State)
    (Hreturns : updateEfisState side ref st = (Normal tt, st1)) :
  exists l v,
    ref = Some l
    /\ efisHeap (efis st) !! l = Some v
    /\ efisHeap (efis st1) !! l
       = Some {| mode := sideGet side (EFIS_ND_MODE (simVars st));
                 range := sideGet side (EFIS_ND_RANGE (simVars st));
                 dataLimitReached := dataLimitReached v;
                 legsCulled := legsCulled v |}
    /\ (forall l', l' <> l -> efisHeap (efis st1) !! l' = efisHeap (efis st) !! l')
    /\ leftEfisState (efis st1) = leftEfisState (efis st)
    /\ rightEfisState (efis st1) = rightEfisState (efis st)
    /\ efisStateForSide (efis st1) = efisStateForSide (efis st).
Proof.
  apply updateEfisState_normal in Hreturns as (l & v & -> & Hl & -> & _).
  exists l, v. simpl. split; [reflexivity |]. split; [exact Hl |].
  split; [apply list_lookup_insert_eq; eapply lookup_lt_Some; exact Hl |].
  split; [| auto].
  intros l' Hne. apply list_lookup_insert_ne. congruence.
Qed.

Lemma Qneq_bool_diag q : Qneq_bool q q = false.
Proof.
  unfold Qneq_bool. apply negb_false_iff, Qeq_bool_iff. reflexivity.
Qed.

(** X10. A refresh that follows a refresh of the same object for the
    same side only runs [updateEfisApproachMessage]: it finds mode and
    range equal to the simulator's, cancels no task, forces no update of
    the EFIS vectors and writes what the object holds already. *)
Theorem updateEfisState_again_only_approach_message (side : EfisSide) (ref : option nat)
    (st st1 : State)
    (Hreturns : updateEfisState side ref st = (Normal tt, st1)) :
  updateEfisState side ref st1 = call updateEfisApproachMessage st1.
Proof.
  apply updateEfisState_normal in Hreturns as (l & v & -> & Hl & Hefis & Hvars).
  set (ndMode := sideGet side (EFIS_ND_MODE (simVars st))) in *.
  set (ndRange := sideGet side (EFIS_ND_RANGE (simVars st))) in *.
  assert (efisHeap (efis st1) !! l = Some (set_range ndRange (set_mode ndMode v))) as Hl1.
  { rewrite Hefis. simpl. apply list_lookup_insert_eq. eapply lookup_lt_Some; exact Hl. }
  unfold updateEfisState. unfold bind at 1. unfold get at 1.
  rewrite Hvars. fold ndMode ndRange. simpl. rewrite Hl1. simpl.
  rewrite Qneq_bool_diag.
  rewrite bool_decide_eq_false_2 by (intros Hne; apply Hne; reflexivity).
  simpl. unfold bind at 1. unfold ret at 1.
  erewrite bind_Normal by (eapply onEfis_write_same; [exact Hl1 | reflexivity]).
  erewrite bind_Normal by (eapply onEfis_write_same; [exact Hl1 | reflexivity]).
  reflexivity.
Qed.

(** *** Map partly displayed *)

(** X11. After [init], as long as the entries of [efisStateForSide]
    are not assigned again, [updateMapPartlyDisplayed], when it returns,
    has written the same value to the map-partly-displayed variables of
    both sides, whatever the flags of the objects are. *)
Theorem updateMapPartlyDisplayed_same_flag_after_init (st st1 s : State)
    (Hinit : init st = (Normal tt, st1))
    (Hentries : efisStateForSide (efis s) = efisStateForSide (efis st1))
    (Hreturns : fst (updateMapPartlyDisplayed s) = Normal tt) :
  let after := simVars (snd (updateMapPartlyDisplayed s)) in
  sideGet Side.L (EFIS_MAP_PARTLY_DISPLAYED after)
  = sideGet Side.R (EFIS_MAP_PARTLY_DISPLAYED after).
Proof.
  destruct (init_efis st st1 Hinit) as (l & r & vl & vr & _ & _ & _ & Hside & _).
  rewrite Hside in Hentries. revert Hreturns.
  unfold updateMapPartlyDisplayed, bind, onEfis, efisStateRefForSide, readEfisState, modify.
  simpl. rewrite Hentries. simpl.
  destruct (efisHeap (efis s) !! l) as [v |] eqn:Hl; simpl; [| discriminate].
  rewrite Hentries. simpl. rewrite Hl. simpl. reflexivity.
Qed.

(** *** Initialisation *)

(** X12. When [init] returns, [leftEfisState] and [rightEfisState] refer
    to objects that hold the mode and range which the simulator reports
    for their side: the initial [ARC] and [10] are overwritten by the
    two refreshes within [init]. *)
Theorem init_objects_hold_selector_values (st st' : State)
    (Hinit : init st = (Normal tt, st')) :
  exists l r vl vr,
    leftEfisState (efis st') = Some l
    /\ rightEfisState (efis st') = Some r
    /\ efisHeap (efis st') !! l = Some vl
    /\ efisHeap (efis st') !! r = Some vr
    /\ mode vl = sideGet Side.L (EFIS_ND_MODE (simVars st))
    /\ range vl = sideGet Side.L (EFIS_ND_RANGE (simVars st))
    /\ mode vr = sideGet Side.R (EFIS_ND_MODE (simVars st))
    /\ range vr = sideGet Side.R (EFIS_ND_RANGE (simVars st)).
Proof.
  unfold init in Hinit.
  split_step Hinit a0 s0 Hc0. apply call_inv in Hc0 as [E0 V0].
  split_step Hinit l s1 Hc1. apply onEfis_inv in Hc1 as [Hc1 V1].
  unfold allocEfisState in Hc1. injection Hc1 as Hl E1. rewrite E0 in Hl, E1.
  split_step Hinit a2 s2 Hc2. apply onEfis_inv in Hc2 as [Hc2 V2].
  unfold modify in Hc2. injection Hc2 as _ E2. rewrite <- E1 in E2.
  split_step Hinit r s3 Hc3. apply onEfis_inv in Hc3 as [Hc3 V3].
  unfold allocEfisState in Hc3. injection Hc3 as Hr E3. rewrite <- E2 in Hr, E3.
  split_step Hinit a4 s4 Hc4. apply onEfis_inv in Hc4 as [Hc4 V4].
  unfold modify in Hc4. injection Hc4 as _ E4. rewrite <- E3 in E4.
  split_step Hinit a5 s5 Hc5. apply onEfis_inv in Hc5 as [Hc5 V5].
  unfold modify in Hc5. injection Hc5 as _ E5. rewrite <- E4 in E5.
  set (fresh := {| mode := ARC; range := 10%Q; dataLimitReached := false;
                   legsCulled := false |}) in *.
  assert (efisHeap (efis s5) = (efisHeap (efis st) ++ [fresh]) ++ [fresh]
          /\ leftEfisState (efis s5) = Some l
          /\ rightEfisState (efis s5) = Some r) as (H5h & H5l & H5r)
    by (rewrite <- E5; simpl; auto).
  assert (simVars s5 = simVars st) as Vs5 by congruence.
  assert (l < r /\ r < length (efisHeap (efis s5)))%nat as [Hlr Hrlen].
  { simpl in Hr. rewrite H5h, <- Hr, <- Hl.
    pose proof (length_app (efisHeap (efis st)) [fresh]) as Ha.
    pose proof (length_app (efisHeap (efis st) ++ [fresh]) [fresh]) as Hb.
    simpl in Ha, Hb. lia. }
  clear E0 E1 E2 E3 E4 E5 V0 V1 V2 V3 V4 V5 Hl Hr.
  split_step Hinit a6 s6 Hc6. destruct a6. unfold bind, get in Hc6.
  apply updateEfisState_normal in Hc6 as (l6 & v6 & Hl6 & Hv6 & E6 & V6).
  rewrite H5l in Hl6. injection Hl6 as <-.
  split_step Hinit a7 s7 Hc7. destruct a7. unfold bind, get in Hc7.
  apply updateEfisState_normal in Hc7 as (r7 & v7 & Hr7 & Hv7 & E7 & V7).
  rewrite E6 in Hr7. simpl in Hr7. rewrite H5r in Hr7. injection Hr7 as <-.
  split_step Hinit a8 s8 Hc8. unfold bind, get in Hc8. apply onEfis_inv in Hc8 as [Hc8 _].
  split_step Hinit a9 s9 Hc9. unfold bind, get in Hc9. apply onEfis_inv in Hc9 as [Hc9 _].
  split_step Hinit a10 s10 Hc10. apply call_inv in Hc10 as [E10 _].
  split_step Hinit a11 s11 Hc11. apply call_inv in Hc11 as [E11 _].
  split_step Hinit a12 s12 Hc12. apply call_inv in Hc12 as [E12 _].
  apply call_inv in Hinit as [E13 _].
  unfold assignEfisStateForSide in Hc8, Hc9.
  destruct (efisStateForSide (efis s7)) as [o7 |]; [| discriminate].
  injection Hc8 as _ E8. rewrite <- E8 in Hc9. simpl in Hc9. injection Hc9 as _ E9.
  assert (efisHeap (efis st') = efisHeap (efis s7)
          /\ leftEfisState (efis st') = leftEfisState (efis s7)
          /\ rightEfisState (efis st') = rightEfisState (efis s7)) as (Hh & Hle & Hri).
  { rewrite E13, E12, E11, E10, <- E9. simpl. auto. }
  rewrite Hh, Hle, Hri, E7, E6. simpl. rewrite H5l, H5r, V6, Vs5.
  eexists l, r, _, _.
  split; [reflexivity |]. split; [reflexivity |].
  split.
  { rewrite list_lookup_insert_ne by lia.
    apply list_lookup_insert_eq. lia. }
  split.
  { apply list_lookup_insert_eq. rewrite length_insert. exact Hrlen. }
  simpl. auto.
Qed.

(** *** A plan that comes back *)

(** X6. Evicting the geometry of a deleted plan keeps the version
    recorded for its index. When the flight-plan service has a plan at
    the index again whose version is the one last seen, the unforced
    call returns at the version test and the slot stays without a
    geometry. *)
Theorem tryUpdateFlightPlanGeometry_reappearing_plan_not_rebuilt
    (flightPlanIndex : Z) (alternate force : bool) (st : State) (fp : FlightPlan)
    (w' : World)
    (Hmissing : flightPlanService (world st) flightPlanIndex = None)
    (Hback : flightPlanService w' flightPlanIndex = Some fp)
    (Hseen : lastFlightPlanVersions st !! flightPlanIndex
             = Some (version (if alternate then alternateFlightPlan fp else primary fp))) :
  let st1 := with_world w' (snd (tryUpdateFlightPlanGeometry flightPlanIndex alternate force st)) in
  tryUpdateFlightPlanGeometry flightPlanIndex alternate false st1 = (Normal tt, st1)
  /\ getGeometryForFlightPlan flightPlanIndex alternate st1 = None.
Proof.
  intros st1.
  assert (snd (tryUpdateFlightPlanGeometry flightPlanIndex alternate force st)
          = with_geometries
              (delete (geometryKey flightPlanIndex alternate) (flightPlanGeometries st)) st)
    as Hevicted.
  { unfold tryUpdateFlightPlanGeometry. rewrite Hmissing. reflexivity. }
  subst st1. rewrite Hevicted. split.
  - apply (tryUpdateFlightPlanGeometry_skips flightPlanIndex alternate _ fp).
    + exact Hback.
    + exact Hseen.
  - unfold getGeometryForFlightPlan. simpl. apply lookup_delete_eq.
Qed.

End Tick.

(** *** The properties on the concrete world *)

Lemma evicting_active_keeps_alternate_geometry :
  @getGeometryForFlightPlan Scenario.planning Scenario.quiet 0 true
    (snd (@tryUpdateFlightPlanGeometry Scenario.planning Scenario.quiet 0 false false
            Scenario.noPlans))
  = @getGeometryForFlightPlan Scenario.planning Scenario.quiet 0 true Scenario.noPlans.
Proof.
  apply (@tryUpdateFlightPlanGeometry_leaves_other_slots Scenario.planning Scenario.quiet
           0 0 false true false Scenario.noPlans).
  - lia.
  - lia.
  - discriminate.
Defined.

Lemma forced_update_builds_active_geometry :
  @hasGeometryForFlightPlan Scenario.planning Scenario.quiet 0 false
    (snd (@tryUpdateFlightPlanGeometry Scenario.planning Scenario.quiet 0 false true
            Scenario.versionSeen))
  = true.
Proof.
  apply (@tryUpdateFlightPlanGeometry_forced_builds Scenario.planning Scenario.quiet
           0 false Scenario.versionSeen Scenario.activePlan).
  - vm_compute. reflexivity.
  - vm_compute. reflexivity.
Defined.

Lemma failed_first_build_is_not_retried :
  let st' := snd (@tryUpdateFlightPlanGeometry Scenario.planning Scenario.failingFactory
                    0 false false Scenario.beforeFirstBuild) in
  @tryUpdateFlightPlanGeometry Scenario.planning Scenario.failingFactory 0 false false st'
  = (Normal tt, st').
Proof.
  apply (@tryUpdateFlightPlanGeometry_failed_build_not_retried
           Scenario.planning Scenario.failingFactory 0 false false
           Scenario.beforeFirstBuild Scenario.activePlan (Error "no geometry")).
  - vm_compute. reflexivity.
  - vm_compute. reflexivity.
  - vm_compute. reflexivity.
Defined.

Lemma alternate_of_active_plan_is_skipped :
  let st' := snd (@tryUpdateFlightPlanGeometry Scenario.planning Scenario.quiet
                    0 false false Scenario.beforeInit) in
  @tryUpdateFlightPlanGeometry Scenario.planning Scenario.quiet 0 true false st'
  = (Normal tt, st')
  /\ @getGeometryForFlightPlan Scenario.planning Scenario.quiet 0 true st' = None.
Proof.
  destruct (@tryUpdateFlightPlanGeometry_alternate_hidden_by_primary
              Scenario.planning Scenario.quiet 0 false Scenario.beforeInit
              Scenario.activePlan) as [Hskip Hslot].
  - vm_compute. reflexivity.
  - vm_compute. reflexivity.
  - split; [exact Hskip |]. rewrite Hslot. vm_compute. reflexivity.
Defined.

Lemma diverged_versions_never_settle :
  let st1 := snd (@tryUpdateFlightPlanGeometry Scenario.planning Scenario.quiet
                    0 false false Scenario.diverged) in
  let st2 := snd (@tryUpdateFlightPlanGeometry Scenario.planning Scenario.quiet
                    0 true false st1) in
  let st3 := snd (@tryUpdateFlightPlanGeometry Scenario.planning Scenario.quiet
                    0 false false st2) in
  @lastFlightPlanVersions Scenario.planning Scenario.quiet st1 !! 0 = Some 7
  /\ @lastFlightPlanVersions Scenario.planning Scenario.quiet st2 !! 0 = Some 8
  /\ @lastFlightPlanVersions Scenario.planning Scenario.quiet st3 !! 0 = Some 7.
Proof.
  destruct (@tryUpdateFlightPlanGeometry_versions_alternate_each_tick
              Scenario.planning Scenario.quiet 0 Scenario.diverged Scenario.divergedPlan)
    as (H1 & H2 & H3 & _).
  - vm_compute. reflexivity.
  - vm_compute. discriminate.
  - split; [exact H1 |]. split; [exact H2 | exact H3].
Defined.

Lemma plan_back_at_seen_version_stays_without_geometry :
  let st1 :=
    @with_world Scenario.planning Scenario.quiet Scenario.activeOnly
      (snd (@tryUpdateFlightPlanGeometry Scenario.planning Scenario.quiet 0 false false
              Scenario.planErased)) in
  @tryUpdateFlightPlanGeometry Scenario.planning Scenario.quiet 0 false false st1
  = (Normal tt, st1)
  /\ @getGeometryForFlightPlan Scenario.planning Scenario.quiet 0 false st1 = None.
Proof.
  apply (@tryUpdateFlightPlanGeometry_reappearing_plan_not_rebuilt
           Scenario.planning Scenario.quiet 0 false false Scenario.planErased
           Scenario.activePlan Scenario.activeOnly).
  - vm_compute. reflexivity.
  - vm_compute. reflexivity.
  - vm_compute. reflexivity.
Defined.

Lemma first_tick_resets_timer :
  @geometryRecomputationTimer Scenario.planning Scenario.quiet
    (snd (@update Scenario.planning Scenario.quiet 100%Q Scenario.afterInit))
  = 0%Q.
Proof.
  rewrite (@update_resets_timer_past_period Scenario.planning Scenario.quiet 100%Q
             Scenario.afterInit
             (snd (@updateEfisState Scenario.planning Scenario.quiet Side.L
                     (leftEfisState (efis Scenario.afterInit))
                     (@with_timer Scenario.planning Scenario.quiet
                        (geometryRecomputationTimer Scenario.afterInit + 100)%Q
                        Scenario.afterInit)))
             (snd (@updateEfisState Scenario.planning Scenario.quiet Side.R
                     (rightEfisState (efis Scenario.afterInit))
                     (@with_timer Scenario.planning Scenario.quiet
                        (geometryRecomputationTimer Scenario.afterInit + 100)%Q
                        Scenario.afterInit)))).
  - vm_compute. reflexivity.
  - split; [| split].
    + intros plan isPrimary. eexists. reflexivity.
    + intros plan isPrimary g. reflexivity.
    + intros tas gs ppos trueTrack leg transition g. reflexivity.
  - vm_compute. reflexivity.
  - vm_compute. reflexivity.
  - vm_compute. reflexivity.
  - vm_compute. reflexivity.
Defined.

Lemma refresh_after_init_keeps_flags :
  exists l v,
    leftEfisState (efis Scenario.afterInit) = Some l
    /\ efisHeap (efis Scenario.afterInit) !! l = Some v
    /\ efisHeap
         (efis (snd (@updateEfisState Scenario.planning Scenario.quiet Side.L
                       (leftEfisState (efis Scenario.afterInit)) Scenario.afterInit))) !! l
       = Some {| mode := ARC; range := 10%Q;
                 dataLimitReached := dataLimitReached v; legsCulled := legsCulled v |}.
Proof.
  destruct (@updateEfisState_refreshes_one_object Scenario.planning Scenario.quiet
              Side.L (leftEfisState (efis Scenario.afterInit)) Scenario.afterInit
              (snd (@updateEfisState Scenario.planning Scenario.quiet Side.L
                      (leftEfisState (efis Scenario.afterInit)) Scenario.afterInit)))
    as (l & v & Hl & Hv & Hafter & _).
  - vm_compute. reflexivity.
  - exists l, v. split; [exact Hl |]. split; [exact Hv | exact Hafter].
Defined.

Lemma second_refresh_after_init_forces_nothing :
  let st1 := snd (@updateEfisState Scenario.planning Scenario.quiet Side.L
                    (leftEfisState (efis Scenario.afterInit)) Scenario.afterInit) in
  @updateEfisState Scenario.planning Scenario.quiet Side.L
    (leftEfisState (efis Scenario.afterInit)) st1
  = @call Scenario.planning Scenario.quiet _ updateEfisApproachMessage st1.
Proof.
  apply (@updateEfisState_again_only_approach_message Scenario.planning Scenario.quiet
           Side.L (leftEfisState (efis Scenario.afterInit)) Scenario.afterInit).
  vm_compute. reflexivity.
Defined.

Lemma both_sides_flagged_alike_after_right_write :
  let s := snd (@onEfis Scenario.planning Scenario.quiet _
                  (writeDataLimitReached Side.R true) Scenario.afterInit) in
  let after := simVars (snd (@updateMapPartlyDisplayed Scenario.planning Scenario.quiet s)) in
  sideGet Side.L (EFIS_MAP_PARTLY_DISPLAYED after)
  = sideGet Side.R (EFIS_MAP_PARTLY_DISPLAYED after).
Proof.
  apply (@updateMapPartlyDisplayed_same_flag_after_init Scenario.planning Scenario.quiet
           Scenario.beforeInit Scenario.afterInit).
  - vm_compute. reflexivity.
  - vm_compute. reflexivity.
  - vm_compute. reflexivity.
Defined.

Lemma init_reads_selectors_of_the_simulator :
  exists l r vl vr,
    leftEfisState (efis Scenario.afterInit) = Some l
    /\ rightEfisState (efis Scenario.afterInit) = Some r
    /\ efisHeap (efis Scenario.afterInit) !! l = Some vl
    /\ efisHeap (efis Scenario.afterInit) !! r = Some vr
    /\ mode vl = sideGet Side.L (EFIS_ND_MODE (simVars Scenario.beforeInit))
    /\ range vl = sideGet Side.L (EFIS_ND_RANGE (simVars Scenario.beforeInit))
    /\ mode vr = sideGet Side.R (EFIS_ND_MODE (simVars Scenario.beforeInit))
    /\ range vr = sideGet Side.R (EFIS_ND_RANGE (simVars Scenario.beforeInit)).
Proof.
  apply (@init_objects_hold_selector_values Scenario.planning Scenario.quiet
           Scenario.beforeInit Scenario.afterInit).
  vm_compute. reflexivity.
Defined.

End GuidanceControllerTickFacts.

(** ** The map reference point *)

Module MapReferencePointFacts.

Import GuidanceController GuidanceControllerFacts.

Section Focus.

Context `{Collaborators}.

Variable GeometryLeg : Type.

Variable legsGet : Geometry -> Z -> option GeometryLeg.

Variable terminationWaypoint : GeometryLeg -> option MapReferencePoint.TerminationWaypoint.

Variable isXF : FlightPlanElement -> bool.

(** X13. The guard of [updateMrpState] asks for the geometry of the
    selected plan's primary part, and the geometry then read is that of
    the part the selected waypoint is in. With the waypoint in the
    alternate part, a geometry for the primary part and none for the
    alternate part, the method throws a [TypeError] on reading [legs] of
    [undefined], having changed nothing. *)
Theorem updateMrpState_alternate_focus_reads_missing_geometry
    (s : MapReferencePoint.MrpState) (fp : FlightPlan) (location : option Coordinates)
    (Hactive : is_Some (flightPlanService (world (MapReferencePoint.controller s)) Active))
    (Hplan : flightPlanService (world (MapReferencePoint.controller s))
               (MapReferencePoint.SELECTED_WAYPOINT_FP_INDEX (MapReferencePoint.mrpVars s))
             = Some fp)
    (Halternate : MapReferencePoint.SELECTED_WAYPOINT_IN_ALTERNATE (MapReferencePoint.mrpVars s)
                  = true)
    (Hhas : hasElement (alternateFlightPlan fp)
              (MapReferencePoint.SELECTED_WAYPOINT_INDEX (MapReferencePoint.mrpVars s)) = true)
    (Hleg : elementAt (alternateFlightPlan fp)
              (MapReferencePoint.SELECTED_WAYPOINT_INDEX (MapReferencePoint.mrpVars s))
            = Some (Leg location))
    (Hxf : isXF (Leg location) = true)
    (Hprimary : hasGeometryForFlightPlan
                  (MapReferencePoint.SELECTED_WAYPOINT_FP_INDEX (MapReferencePoint.mrpVars s))
                  false (MapReferencePoint.controller s) = true)
    (Hmissing : getGeometryForFlightPlan
                  (MapReferencePoint.SELECTED_WAYPOINT_FP_INDEX (MapReferencePoint.mrpVars s))
                  true (MapReferencePoint.controller s) = None) :
  MapReferencePoint.updateMrpState GeometryLeg legsGet terminationWaypoint isXF s
  = (Throw (TypeError "Cannot read properties of undefined"), s).
Proof.
  unfold MapReferencePoint.updateMrpState, bind, get.
  rewrite (bool_decide_eq_true_2 _ Hactive), Hplan, Halternate, Hhas, Hleg, Hxf, Hprimary,
    Hmissing.
  reflexivity.
Qed.

(** X14. Without a geometry for the primary part of the selected plan,
    [updateMrpState] returns and changes nothing, wherever the selected
    waypoint is: a geometry of the alternate part is not read, and the
    selected-waypoint coordinates of the simulator keep their values. *)
Theorem updateMrpState_needs_primary_geometry (s : MapReferencePoint.MrpState)
    (Hprimary : hasGeometryForFlightPlan
                  (MapReferencePoint.SELECTED_WAYPOINT_FP_INDEX (MapReferencePoint.mrpVars s))
                  false (MapReferencePoint.controller s) = false) :
  MapReferencePoint.updateMrpState GeometryLeg legsGet terminationWaypoint isXF s
  = (Normal tt, s).
Proof.
  unfold MapReferencePoint.updateMrpState, bind, get.
  destruct (negb (bool_decide _)); [reflexivity |].
  destruct (flightPlanService _ _) as [fp |]; [| reflexivity].
  destruct (negb (hasElement _ _)); [reflexivity |].
  destruct (elementAt _ _) as [[| location] |]; try reflexivity.
  destruct (negb (isXF _)); [reflexivity |].
  rewrite Hprimary. reflexivity.
Qed.

End Focus.

Lemma alternate_focus_throws_with_primary_geometry_only :
  @MapReferencePoint.updateMrpState Scenario.planning Scenario.quiet unit
    Scenario.noLegs Scenario.noTermination Scenario.everyLegXF Scenario.primaryOnly
  = (Throw (TypeError "Cannot read properties of undefined"), Scenario.primaryOnly).
Proof.
  apply (@updateMrpState_alternate_focus_reads_missing_geometry
           Scenario.planning Scenario.quiet unit Scenario.noLegs
           Scenario.noTermination Scenario.everyLegXF Scenario.primaryOnly
           Scenario.activePlan (Some Scenario.waypointB)).
  - vm_compute. eauto.
  - vm_compute. reflexivity.
  - reflexivity.
  - vm_compute. reflexivity.
  - vm_compute. reflexivity.
  - reflexivity.
  - vm_compute. reflexivity.
  - vm_compute. reflexivity.
Defined.

Lemma alternate_geometry_alone_is_not_read :
  @MapReferencePoint.updateMrpState Scenario.planning Scenario.quiet unit
    Scenario.noLegs Scenario.noTermination Scenario.everyLegXF Scenario.alternateOnly
  = (Normal tt, Scenario.alternateOnly).
Proof.
  apply (@updateMrpState_needs_primary_geometry
           Scenario.planning Scenario.quiet unit Scenario.noLegs
           Scenario.noTermination Scenario.everyLegXF Scenario.alternateOnly).
  vm_compute. reflexivity.
Defined.

End MapReferencePointFacts.

(** ** The working list and the events of a pass, further *)

Module EfisSymbolsPassFacts.

Import Js JsFacts EfisSymbols EfisSymbolsFacts.

(** *** Order and content of the working list *)

Lemma remove_dups_snoc (l : list string) (x : string) :
  remove_dups (l ++ [x]) = filter (fun y => y <> x) (remove_dups l) ++ [x].
Proof.
  induction l as [| y l IH]; [reflexivity |].
  simpl. destruct (decide (y = x)) as [-> | Hne].
  - destruct (decide_rel elem_of x (l ++ [x])) as [_ | Hnin].
    2:{ exfalso. apply Hnin, elem_of_app. right. apply list_elem_of_singleton. reflexivity. }
    rewrite IH. destruct (decide_rel elem_of x l); [reflexivity |].
    rewrite filter_cons_False by (intros Hx; apply Hx; reflexivity). reflexivity.
  - destruct (decide_rel elem_of y l) as [Hin | Hnin];
      destruct (decide_rel elem_of y (l ++ [x])) as [Hin' | Hnin'].
    + exact IH.
    + exfalso. apply Hnin', elem_of_app. left. exact Hin.
    + exfalso. apply elem_of_app in Hin' as [Hin' | Hin']; [exact (Hnin Hin') |].
      apply list_elem_of_singleton in Hin'. exact (Hne Hin').
    + rewrite filter_cons_True by exact Hne. rewrite IH. reflexivity.
Qed.

Lemma filter_fresh s l :
  freshFor s l ->
  filter (fun y => y <> databaseId s) (databaseId <$> l) = databaseId <$> l.
Proof.
  induction 1 as [| x l Hx _ IH]; [reflexivity |].
  rewrite fmap_cons, filter_cons_True by exact Hx. rewrite IH. reflexivity.
Qed.

Lemma upsertSymbol_ids_order symbols s :
  NoDup (databaseId <$> symbols) ->
  databaseId <$> upsertSymbol symbols s
  = filter (fun y => y <> databaseId s) (databaseId <$> symbols) ++ [databaseId s].
Proof.
  intros Hnd.
  destruct (upsertSymbol_cases symbols s)
    as [[Hfresh ->] | (l1 & o & l2 & -> & Hfresh1 & Hid & ->)].
  - rewrite fmap_app, filter_fresh by exact Hfresh. reflexivity.
  - destruct (NoDup_middle_fresh l1 o l2 s Hnd Hid) as [_ Hfresh2].
    rewrite !fmap_app, (fmap_cons databaseId o l2), filter_app, filter_cons_False
      by (intros Hne; apply Hne; exact Hid).
    rewrite !filter_fresh by assumption. rewrite <- app_assoc. reflexivity.
Qed.

Lemma upsertAll_ids calls :
  databaseId <$> upsertAll [] calls = remove_dups (databaseId <$> calls).
Proof.
  induction calls as [| s calls IH] using rev_ind; [reflexivity |].
  rewrite upsertAll_snoc, fmap_app.
  change (databaseId <$> [s]) with [databaseId s].
  rewrite remove_dups_snoc, <- IH.
  apply upsertSymbol_ids_order, upsertAll_NoDup. constructor.
Qed.

(** X15. The working list holds the identifiers of the calls to
    [upsertSymbol] once each, in the order of their last call: an
    identifier named again moves to the end of the list. *)
Theorem upsertAll_ordered_by_last_call (calls : list NdSymbol) :
  databaseId <$> upsertAll [] calls = remove_dups (databaseId <$> calls).
Proof. apply upsertAll_ids. Qed.

Lemma mergeAll_snoc calls s :
  mergeAll (calls ++ [s])
  = Some match mergeAll calls with
         | Some oldSymbol => mergeSymbol s oldSymbol
         | None => s
         end.
Proof. unfold mergeAll. rewrite fold_left_app. reflexivity. Qed.

Lemma freshFor_no_occurrence s calls :
  freshFor s (upsertAll [] calls) -> occurrences (databaseId s) calls = [].
Proof.
  intros Hfresh. apply occurrences_absent. intros c Hc Hid.
  apply freshFor_not_in in Hfresh. apply Hfresh.
  rewrite upsertAll_ids. apply elem_of_remove_dups.
  rewrite <- Hid. apply list_elem_of_fmap_2. exact Hc.
Qed.

(** X16. Every entry of the working list is the merge, in call order,
    of all the calls that named its identifier: [ident] of the last
    call, the fields under [??] from the latest call that defines them,
    the flags of all calls, and the radials and radii of all calls with
    the later call's first. *)
Theorem upsertAll_entry_merges_its_calls (calls : list NdSymbol) (e : NdSymbol)
    (Hentry : e ∈ upsertAll [] calls) :
  mergeAll (occurrences (databaseId e) calls) = Some e.
Proof.
  revert e Hentry.
  induction calls as [| s calls IH] using rev_ind; intros e Hentry.
  { apply elem_of_nil in Hentry. contradiction. }
  assert (NoDup (databaseId <$> upsertAll [] calls)) as Hnd
    by (apply upsertAll_NoDup; constructor).
  rewrite upsertAll_snoc in Hentry. rewrite occurrences_snoc.
  destruct (upsertSymbol_cases (upsertAll [] calls) s)
    as [[Hfresh Heq] | (l1 & o & l2 & Hsplit & Hfresh1 & Hid & Heq)];
    rewrite Heq in Hentry.
  - apply elem_of_app in Hentry as [Hold | Hnew].
    + rewrite decide_False, app_nil_r; [apply IH, Hold |].
      intros Hsame. eapply Forall_forall in Hfresh; [| exact Hold].
      apply Hfresh. symmetry. exact Hsame.
    + apply list_elem_of_singleton in Hnew. subst e.
      rewrite decide_True by reflexivity.
      rewrite mergeAll_snoc, (freshFor_no_occurrence s calls Hfresh). reflexivity.
  - rewrite Hsplit in Hnd, IH.
    destruct (NoDup_middle_fresh l1 o l2 s Hnd Hid) as [_ Hfresh2].
    rewrite app_assoc in Hentry. apply elem_of_app in Hentry as [Hold | Hnew].
    + assert (databaseId e <> databaseId s) as Hne.
      { apply elem_of_app in Hold as [Hold | Hold].
        - eapply Forall_forall in Hfresh1; [exact Hfresh1 | exact Hold].
        - eapply Forall_forall in Hfresh2; [exact Hfresh2 | exact Hold]. }
      rewrite decide_False, app_nil_r by congruence.
      apply IH. apply elem_of_app in Hold as [Hold | Hold].
      * apply elem_of_app. left. exact Hold.
      * apply elem_of_app. right. apply elem_of_cons. right. exact Hold.
    + apply list_elem_of_singleton in Hnew. subst e. simpl.
      rewrite decide_True by reflexivity. rewrite mergeAll_snoc.
      rewrite <- Hid, IH; [reflexivity |].
      apply elem_of_app. right. apply elem_of_cons. left. reflexivity.
Qed.

(** *** The events of one invocation *)

Section Events.

Context `{FlightPlanning}.

(** The four ways in which the pass of one side ends: nothing changed;
    PLAN mode without a plan centre; run to the end; stopped by the
    write to the guidance controller. *)
Lemma sidePass_outcome (inp : Inputs) (planCentre : option FlightPlanElement)
    (planCentreChanged : bool) (side : EfisSide) (st : State) :
  let result := sidePass inp planCentre planCentreChanged side st in
  let st' := snd result in
  (fst result = Normal NextSide /\ syncer st' = syncer st
   /\ blockUpdate st' = blockUpdate st)
  \/ (fst result = Normal Return /\ syncer st' = syncer st ++ [(side, [])]
      /\ blockUpdate st' = blockUpdate st)
  \/ (fst result = Normal NextSide /\ syncer st' = syncer st ++ [(side, sentBy inp side)]
      /\ blockUpdate st' = true)
  \/ (exists e, fst result = Throw e /\ syncer st' = syncer st
                /\ blockUpdate st' = blockUpdate st).
Proof.
  unfold sidePass, sentBy, bind, get, modify. simpl.
  destruct (negb (pposChanged inp) && _ && _ && _ && _ && _ && _ && _ && _ && _)%bool.
  { left. simpl. auto. }
  destruct (bool_decide (sideGet side (ndMode inp) = PLAN) && _)%bool.
  { right. left. simpl. auto. }
  destruct (limitSymbols (upsertAll [] (upsertCalls inp side))) as [symbols limit].
  unfold onGuidanceController, GuidanceController.writeDataLimitReached, bind,
    GuidanceController.efisStateRefForSide, GuidanceController.writeEfisState,
    sendEvent, modify.
  simpl.
  destruct (GuidanceController.efisStateForSide (guidanceController st)) as [o |]; simpl.
  2:{ right. right. right. eexists. simpl. auto. }
  destruct (sideGet side o) as [l |]; simpl.
  2:{ right. right. right. eexists. simpl. auto. }
  destruct (GuidanceController.efisHeap (guidanceController st) !! l) as [v |]; simpl.
  2:{ right. right. right. eexists. simpl. auto. }
  right. right. left. simpl. auto.
Qed.

(** How an invocation reaches the loop over the sides, if it does. *)
Lemma update_cases (inp : Inputs) (st : State) :
  update inp st = (Normal tt, st)
  \/ update inp st = (Throw (Error "bruh"), st)
  \/ exists planCentre changed s0,
       update inp st = forSides (sidePass inp planCentre changed) sides s0
       /\ syncer s0 = syncer st /\ blockUpdate s0 = false /\ blockUpdate st = false.
Proof.
  destruct (blockUpdate st) eqn:Hblock.
  { left. unfold update, bind, get. rewrite Hblock. reflexivity. }
  destruct (planCentrePlan inp) as [plan |] eqn:Hplan.
  2:{ left. unfold update, bind, get. rewrite Hblock, Hplan. reflexivity. }
  destruct (hasElement plan (planCentreIndex inp)) eqn:Hhas.
  2:{ left. unfold update, bind, get. rewrite Hblock, Hplan, Hhas. reflexivity. }
  remember (if isDiscontinuity (elementAt plan (planCentreIndex inp))
            then elementAt plan (Z.max 0 (planCentreIndex inp - 1))
            else elementAt plan (planCentreIndex inp)) as planCentre eqn:Hcentre.
  destruct (isDiscontinuity planCentre) eqn:Hdisc.
  { right. left. unfold update, bind, get. rewrite Hblock, Hplan, Hhas.
    cbv zeta. rewrite <- Hcentre, Hdisc. reflexivity. }
  right. right.
  destruct (planCentre ≫= terminationLocationOf) as [c |] eqn:Hterm.
  - eexists planCentre, _, (with_lastPlanCentre (Some c) st).
    split; [| simpl; auto].
    unfold update, bind at 1, get at 1. rewrite Hblock, Hplan, Hhas.
    cbv zeta. rewrite <- Hcentre, Hdisc, Hterm. reflexivity.
  - eexists planCentre, _, st.
    split; [| auto].
    unfold update, bind at 1, get at 1. rewrite Hblock, Hplan, Hhas.
    cbv zeta. rewrite <- Hcentre, Hdisc, Hterm. reflexivity.
Qed.

(** The events of the loop over the sides, and whether it leaves the
    limiter open. *)
Lemma forSides_events (inp : Inputs) (planCentre : option FlightPlanElement)
    (changed : bool) (todo : list EfisSide) (s0 : State) :
  let s' := snd (forSides (sidePass inp planCentre changed) todo s0) in
  exists events,
    syncer s' = syncer s0 ++ events
    /\ sublist (fst <$> events) todo
    /\ Forall (fun event => snd event = [] \/ snd event = sentBy inp (fst event)) events
    /\ (blockUpdate s' = false ->
        blockUpdate s0 = false /\ (events = [] \/ exists side, events = [(side, [])]))
    /\ (blockUpdate s0 = true -> blockUpdate s' = true).
Proof.
  revert s0. induction todo as [| side rest IH]; intros s0.
  { exists []. simpl. rewrite app_nil_r. repeat split; auto. }
  cbn [forSides]. unfold bind.
  pose proof (sidePass_outcome inp planCentre changed side s0) as Hside.
  destruct (sidePass inp planCentre changed side s0) as [[[] | e] s1]; cbn [fst snd] in Hside.
  - (* the next side runs *)
    destruct (IH s1) as (events & Hsync & Hsub & Hall & Hopen & Hshut). clear IH.
    destruct Hside as [(_ & Hs & Hb) | [(Hf & _) | [(_ & Hs & Hb) | (e & Hf & _)]]];
      try discriminate.
    + exists events. rewrite Hsync, Hs, Hb in *.
      split; [reflexivity |]. split; [apply sublist_cons, Hsub |]. auto.
    + exists ((side, sentBy inp side) :: events). rewrite Hsync, Hs.
      split; [rewrite <- app_assoc; reflexivity |].
      split; [simpl; apply sublist_skip, Hsub |].
      split; [constructor; [right; reflexivity | exact Hall] |].
      split; [| intros _; apply Hshut, Hb].
      intros Hfalse. rewrite (Hshut Hb) in Hfalse. discriminate.
  - (* the loop is left *)
    destruct Hside as [(Hf & _) | [(_ & Hs & Hb) | [(Hf & _) | (e & Hf & _)]]];
      try discriminate.
    exists [(side, [])]. simpl. rewrite Hs, Hb.
    split; [reflexivity |]. split; [apply sublist_skip, sublist_nil_l |].
    split; [constructor; [left; reflexivity | constructor] |].
    split; [| auto]. intros Hfalse. split; [exact Hfalse |]. right. eauto.
  - (* the write to the guidance controller throws *)
    destruct Hside as [(Hf & _) | [(Hf & _) | [(Hf & _) | (e' & _ & Hs & Hb)]]];
      try discriminate.
    exists []. simpl. rewrite Hs, Hb, app_nil_r.
    split; [reflexivity |]. split; [apply sublist_nil_l |].
    split; [constructor |]. auto.
Qed.

(** The events of an invocation. *)
Lemma update_events (inp : Inputs) (st : State) :
  let st' := snd (update inp st) in
  exists events,
    syncer st' = syncer st ++ events
    /\ sublist (fst <$> events) sides
    /\ Forall (fun event => snd event = [] \/ snd event = sentBy inp (fst event)) events
    /\ (blockUpdate st' = false -> events = [] \/ exists side, events = [(side, [])])
    /\ (blockUpdate st = true -> blockUpdate st' = true).
Proof.
  destruct (update_cases inp st)
    as [-> | [-> | (planCentre & changed & s0 & -> & Hsync & Hopen & Hopen')]].
  - exists []. simpl. rewrite app_nil_r. repeat split; auto. apply sublist_nil_l.
  - exists []. simpl. rewrite app_nil_r. repeat split; auto. apply sublist_nil_l.
  - destruct (forSides_events inp planCentre changed sides s0)
      as (events & Hs & Hsub & Hall & Hfalse & _).
    exists events. rewrite <- Hsync.
    split; [exact Hs |]. split; [exact Hsub |]. split; [exact Hall |].
    split; [intros Hb; apply Hfalse, Hb |]. congruence.
Qed.

(** X17. An invocation of [update] sends at most one event to each
    side, and never one to the left side after one to the right side,
    whether it returns or throws. *)
Theorem update_sends_each_side_at_most_once (inp : Inputs) (st : State) :
  exists events,
    syncer (snd (update inp st)) = syncer st ++ events
    /\ sublist (fst <$> events) [Side.L; Side.R].
Proof.
  destruct (update_events inp st) as (events & Hs & Hsub & _). eauto.
Qed.

Lemma sentBy_length (inp : Inputs) (side : EfisSide) :
  (length (sentBy inp side) <= 107)%nat.
Proof.
  unfold sentBy.
  destruct (decide (106 < length (upsertAll [] (upsertCalls inp side)))%nat) as [Hover | Hin].
  - rewrite limitSymbols_over by exact Hover. simpl. rewrite length_drop. lia.
  - rewrite limitSymbols_within by lia. simpl. lia.
Qed.

Lemma sentBy_NoDup (inp : Inputs) (side : EfisSide) :
  NoDup (databaseId <$> sentBy inp side).
Proof.
  unfold sentBy. eapply sublist_NoDup; [| apply fmap_sublist, limitSymbols_sublist].
  apply upsertAll_NoDup. constructor.
Qed.

(** X18. Every list that an invocation of [update] sends holds at most
    107 symbols, with pairwise different identifiers. *)
Theorem update_events_fit_107_distinct (inp : Inputs) (st : State) :
  exists events,
    syncer (snd (update inp st)) = syncer st ++ events
    /\ Forall (fun event => (length (snd event) <= 107)%nat
                            /\ NoDup (databaseId <$> snd event)) events.
Proof.
  destruct (update_events inp st) as (events & Hs & _ & Hall & _).
  exists events. split; [exact Hs |].
  eapply Forall_impl; [exact Hall |].
  intros [side symbols] [Hempty | Hsent]; simpl in *; subst symbols.
  - split; [simpl; lia | constructor].
  - split; [apply sentBy_length | apply sentBy_NoDup].
Qed.

(** X19. While [blockUpdate] is set, [update] sends no event, writes
    nothing to the guidance controller and leaves the flag set;
    [update] never clears it. An invocation that leaves it clear has
    sent nothing, or one empty list, the one of a side in PLAN mode
    without a plan centre: every pass that runs to its end arms the
    limiter. *)
Theorem update_arms_limiter_after_full_pass (inp : Inputs) (st : State) :
  (blockUpdate st = true ->
   syncer (snd (update inp st)) = syncer st
   /\ guidanceController (snd (update inp st)) = guidanceController st
   /\ blockUpdate (snd (update inp st)) = true)
  /\ (blockUpdate (snd (update inp st)) = false ->
      blockUpdate st = false
      /\ exists events,
           syncer (snd (update inp st)) = syncer st ++ events
           /\ (events = [] \/ exists side, events = [(side, [])])).
Proof.
  split.
  - intros Hblock.
    assert (update inp st = (Normal tt, st)) as ->
      by (unfold update, bind, get; rewrite Hblock; reflexivity).
    simpl. auto.
  - intros Hopen. destruct (update_events inp st) as (events & Hs & _ & _ & Hfalse & Hshut).
    split; [| eauto].
    destruct (blockUpdate st); [| reflexivity].
    rewrite Hshut in Hopen by reflexivity. discriminate.
Qed.

(** *** The plan centre *)

Lemma differs_diag (a : option Q) : differs a a = false.
Proof. destruct a as [q |]; [| reflexivity]. simpl. unfold Qneq_bool.
  apply negb_false_iff, Qeq_bool_iff. reflexivity. Qed.

(** A pass of a side for which nothing has changed. *)
Lemma sidePass_unchanged (inp : Inputs) (planCentre : option FlightPlanElement)
    (side : EfisSide) (st : State) :
  pposChanged inp = false -> trueHeadingChanged inp = false ->
  nearbyFacilitiesChanged inp = false -> fpChanged inp = false ->
  navaidsChanged inp = false -> vnavPredictionsChanged inp = false ->
  sideGet side (lastRange st) = sideGet side (ndRange inp) ->
  sideGet side (lastMode st) = Some (sideGet side (ndMode inp)) ->
  sideGet side (lastEfisOption st) = sideGet side (ndEfisOption inp) ->
  sidePass inp planCentre false side st
  = (Normal NextSide,
     with_lastEfisOption
       (sideSet side (sideGet side (ndEfisOption inp)) (lastEfisOption st))
       (with_lastMode (sideSet side (Some (sideGet side (ndMode inp))) (lastMode st))
          (with_lastRange (sideSet side (sideGet side (ndRange inp)) (lastRange st)) st))).
Proof.
  intros Hppos Hheading Hnearby Hfp Hnavaids Hvnav Hrange Hmode Hoption.
  unfold sidePass, bind, get, modify. simpl.
  rewrite Hppos, Hheading, Hnearby, Hfp, Hnavaids, Hvnav, Hrange, Hmode, Hoption.
  unfold Qneq_bool. rewrite (proj2 (Qeq_bool_iff _ _)) by reflexivity.
  rewrite !bool_decide_eq_false_2 by (intros Hne; apply Hne; reflexivity).
  rewrite andb_false_r. reflexivity.
Qed.

(** X20. [planCentreChanged] is computed after [lastPlanCentre] has
    taken the resolved termination, which it is then compared with.
    When the selected element is a leg with a resolved termination and
    no other cache has changed, [update] returns and sends nothing,
    whatever plan centre was remembered before: a move of the plan
    centre alone never starts a pass. *)
Theorem update_resolved_centre_move_not_detected (inp : Inputs) (plan : BaseFlightPlan)
    (centre : Coordinates) (st : State)
    (Hopen : blockUpdate st = false)
    (Hplan : planCentrePlan inp = Some plan)
    (Hhas : hasElement plan (planCentreIndex inp) = true)
    (Hcentre : elementAt plan (planCentreIndex inp) = Some (Leg (Some centre)))
    (Hppos : pposChanged inp = false) (Hheading : trueHeadingChanged inp = false)
    (Hnearby : nearbyFacilitiesChanged inp = false) (Hfp : fpChanged inp = false)
    (Hnavaids : navaidsChanged inp = false) (Hvnav : vnavPredictionsChanged inp = false)
    (Hrange : lastRange st = ndRange inp)
    (Hmode : lastMode st = {| onL := Some (onL (ndMode inp)); onR := Some (onR (ndMode inp)) |})
    (Hoption : lastEfisOption st = ndEfisOption inp) :
  let result := update inp st in
  fst result = Normal tt
  /\ syncer (snd result) = syncer st
  /\ lastPlanCentre (snd result) = Some centre
  /\ blockUpdate (snd result) = false.
Proof.
  intros result. subst result.
  assert (update inp st
          = forSides (sidePass inp (Some (Leg (Some centre))) false) sides
              (with_lastPlanCentre (Some centre) st)) as ->.
  { unfold update, bind at 1, get at 1.
    rewrite Hopen, Hplan, Hhas, Hcentre. cbn [negb isDiscontinuity mbind option_bind
      terminationLocationOf option_bind].
    unfold bind at 1, modify at 1, bind at 1, get at 1.
    cbn [lastPlanCentre with_lastPlanCentre fmap option_fmap option_map].
    rewrite !differs_diag. reflexivity. }
  destruct (forSides _ sides _) as [c s'] eqn:Hrun.
  unfold sides in Hrun. cbn [forSides] in Hrun. unfold bind at 1 in Hrun.
  rewrite (sidePass_unchanged inp _ Side.L) in Hrun by
    (try assumption; simpl; rewrite ?Hrange, ?Hmode, ?Hoption; reflexivity).
  unfold bind at 1 in Hrun.
  rewrite (sidePass_unchanged inp _ Side.R) in Hrun by
    (try assumption; simpl; rewrite ?Hrange, ?Hmode, ?Hoption; reflexivity).
  unfold ret in Hrun. injection Hrun as <- <-. simpl. auto.
Qed.

(** X21. When the selected element is a discontinuity and the element
    before it is one as well, or the selected index is 0, where the
    element looked at instead is the selected one again, [update] throws
    the error [bruh] before the loop over the sides: no event is sent,
    the limiter is not armed, and [lastPlanCentre] and the guidance
    controller are as before. *)
Theorem update_throws_on_discontinuity_after_discontinuity (inp : Inputs)
    (plan : BaseFlightPlan) (st : State)
    (Hopen : blockUpdate st = false)
    (Hplan : planCentrePlan inp = Some plan)
    (Hhas : hasElement plan (planCentreIndex inp) = true)
    (Hcentre : elementAt plan (planCentreIndex inp) = Some Discontinuity)
    (Hbefore : planCentreIndex inp = 0
               \/ (1 <= planCentreIndex inp
                   /\ elementAt plan (planCentreIndex inp - 1) = Some Discontinuity)) :
  let result := update inp st in
  fst result = Throw (Error "bruh")
  /\ syncer (snd result) = syncer st
  /\ blockUpdate (snd result) = false
  /\ lastPlanCentre (snd result) = lastPlanCentre st
  /\ guidanceController (snd result) = guidanceController st.
Proof.
  intros result. subst result.
  assert (update inp st = (Throw (Error "bruh"), st)) as ->.
  { unfold update, bind, get. rewrite Hopen, Hplan, Hhas, Hcentre. simpl.
    assert (elementAt plan (Z.max 0 (planCentreIndex inp - 1)) = Some Discontinuity) as ->.
    { destruct Hbefore as [Hzero | [Hpos Hprev]].
      - rewrite Hzero in *. exact Hcentre.
      - rewrite Z.max_r by lia. exact Hprev. }
    reflexivity. }
  simpl. auto.
Qed.

End Events.

(** *** The properties on the concrete world *)

Lemma later_call_merges_earlier_one :
  let first := Scenario.symbolNamed "WLSZH  TRA" 1 in
  let second := Scenario.symbolNamed "WLSZH  TRA" 4 in
  mergeAll (occurrences (databaseId (mergeSymbol second first))
              [first; Scenario.symbolNamed "WLSZH  KLO" 2; second])
  = Some (mergeSymbol second first).
Proof.
  apply (upsertAll_entry_merges_its_calls
           [Scenario.symbolNamed "WLSZH  TRA" 1; Scenario.symbolNamed "WLSZH  KLO" 2;
            Scenario.symbolNamed "WLSZH  TRA" 4]
           (mergeSymbol (Scenario.symbolNamed "WLSZH  TRA" 4)
              (Scenario.symbolNamed "WLSZH  TRA" 1))).
  vm_compute. apply list_elem_of_further, list_elem_of_here.
Defined.

Lemma moved_plan_centre_sends_nothing :
  let result :=
    @update Scenario.planning (Scenario.steadyInputs (Some Scenario.twoLegs) 1)
      Scenario.centredOnA in
  syncer (snd result) = [] /\ lastPlanCentre (snd result) = Some Scenario.waypointB.
Proof.
  destruct (@update_resolved_centre_move_not_detected Scenario.planning
              (Scenario.steadyInputs (Some Scenario.twoLegs) 1) Scenario.twoLegs
              Scenario.waypointB Scenario.centredOnA)
    as (_ & Hsent & Hcentre & _); try reflexivity.
  split; [exact Hsent | exact Hcentre].
Defined.

Lemma discontinuity_at_index_0_throws :
  fst (@update Scenario.planning
         (Scenario.inputs (Some Scenario.gapFirst) 0 ARC ARC Scenario.fewSymbols)
         Scenario.firstPass)
  = Throw (Error "bruh").
Proof.
  apply (@update_throws_on_discontinuity_after_discontinuity Scenario.planning
           (Scenario.inputs (Some Scenario.gapFirst) 0 ARC ARC Scenario.fewSymbols)
           Scenario.gapFirst Scenario.firstPass).
  - reflexivity.
  - reflexivity.
  - reflexivity.
  - reflexivity.
  - left. reflexivity.
Defined.

End EfisSymbolsPassFacts.

(** ** Constraint texts *)

Module ConstraintTextFacts.

Import Js EfisSymbols.

Lemma round_ge (n : Z) (x : Q) : n <= round x <-> (inject_Z n - (1 # 2) <= x)%Q.
Proof.
  unfold round. split.
  - intros Hn. pose proof (Qfloor_le (x + (1 # 2))) as Hfloor.
    assert (inject_Z n <= inject_Z (Qfloor (x + (1 # 2))))%Q as Hinj
      by (rewrite <- Zle_Qle; exact Hn).
    Lqa.lra.
  - intros Hx. rewrite <- (Qfloor_Z n). apply Qfloor_resp_le. Lqa.lra.
Qed.

Lemma round_le (n : Z) (x : Q) : round x <= n <-> (x < inject_Z n + (1 # 2))%Q.
Proof.
  unfold round. split.
  - intros Hn. pose proof (Qlt_floor (x + (1 # 2))) as Hfloor.
    assert (inject_Z (Qfloor (x + (1 # 2)) + 1) <= inject_Z (n + 1))%Q as Hinj
      by (rewrite <- Zle_Qle; lia).
    rewrite inject_Z_plus in Hinj, Hfloor. rewrite inject_Z_plus in Hinj.
    change (inject_Z 1) with 1%Q in *. Lqa.lra.
  - intros Hx. destruct (Z_le_gt_dec (Qfloor (x + (1 # 2))) n) as [Hle | Hgt]; [exact Hle |].
    exfalso. pose proof (Qfloor_le (x + (1 # 2))) as Hfloor.
    assert (inject_Z (n + 1) <= inject_Z (Qfloor (x + (1 # 2))))%Q as Hinj
      by (rewrite <- Zle_Qle; lia).
    rewrite inject_Z_plus in Hinj. change (inject_Z 1) with 1%Q in *. Lqa.lra.
Qed.

(** X22. A descent constraint is written as a flight level from 17950
    feet on, where its rounded hundreds reach 180, a climb constraint
    from 18000 feet on; below, both are written in feet, rounded. A
    level that is written is 180 or more. *)
Theorem formatConstraintAlt_levels_from_17950_or_18000 (alt : Q) (prefix : string) :
  formatConstraintAlt alt true prefix
  = (if Qle_bool 17950 alt
     then prefix +:+ "FL" +:+ numberToString (round (alt / 100))
     else prefix +:+ numberToString (round alt))
  /\ formatConstraintAlt alt false prefix
     = (if Qle_bool 18000 alt
        then prefix +:+ "FL" +:+ numberToString (round (alt / 100))
        else prefix +:+ numberToString (round alt))
  /\ (Qle_bool 17950 alt = true -> 180 <= round (alt / 100)).
Proof.
  assert (180 <= round (alt / 100) <-> (17950 <= alt)%Q) as Hlevel.
  { rewrite round_ge. change (inject_Z 180) with 180%Q.
    split; intros Hle.
    - assert (alt == alt / 100 * 100)%Q as -> by field. Lqa.lra.
    - assert (alt / 100 == alt * (1 # 100))%Q as -> by field. Lqa.lra. }
  split; [| split].
  - unfold formatConstraintAlt. cbn [negb Z.eqb andb].
    destruct (Qle_bool 17950 alt) eqn:Hle.
    + apply Qle_bool_iff, Hlevel, Z.leb_le in Hle. rewrite Hle. reflexivity.
    + destruct (180 <=? round (alt / 100)) eqn:Hfl; [| reflexivity].
      apply Z.leb_le, Hlevel, Qle_bool_iff in Hfl. congruence.
  - reflexivity.
  - intros Hle. apply Hlevel, Qle_bool_iff, Hle.
Qed.

(** X23. From 17950 feet up to, but not including, 18000 feet the two
    kinds of constraint read differently: a descent constraint reads
    [FL180], a climb constraint the rounded feet, which lie between
    17950 and 18000. *)
Theorem formatConstraintAlt_climb_and_descent_disagree (alt : Q) (prefix : string)
    (Hlow : (17950 <= alt)%Q) (Hhigh : (alt < 18000)%Q) :
  formatConstraintAlt alt true prefix = prefix +:+ "FL180"
  /\ formatConstraintAlt alt false prefix = prefix +:+ numberToString (round alt)
  /\ 17950 <= round alt <= 18000.
Proof.
  assert (round (alt / 100) = 180) as Hfl.
  { apply Z.le_antisymm.
    - apply round_le. change (inject_Z 180) with 180%Q.
      assert (alt / 100 == alt * (1 # 100))%Q as -> by field. Lqa.lra.
    - apply round_ge. change (inject_Z 180) with 180%Q.
      assert (alt / 100 == alt * (1 # 100))%Q as -> by field. Lqa.lra. }
  split; [| split; [| split]].
  - unfold formatConstraintAlt. rewrite Hfl. reflexivity.
  - unfold formatConstraintAlt. cbn [negb andb Qeq_bool].
    destruct (Qle_bool 18000 alt) eqn:Hle; [| reflexivity].
    apply Qle_bool_iff in Hle. Lqa.lra.
  - apply round_ge. change (inject_Z 17950) with 17950%Q. Lqa.lra.
  - apply round_le. change (inject_Z 18000) with 18000%Q. Lqa.lra.
Qed.

Lemma descent_17960_reads_FL180 :
  formatConstraintAlt 17960 true "+" = "+FL180"%string
  /\ formatConstraintAlt 17960 false "+" = "+17960"%string.
Proof.
  destruct (formatConstraintAlt_climb_and_descent_disagree 17960 "+") as (Hd & Hc & _).
  - vm_compute. discriminate.
  - vm_compute. reflexivity.
  - split; [exact Hd |]. rewrite Hc. vm_compute. reflexivity.
Defined.

End ConstraintTextFacts.

(** ** The edit area, further *)

Module EditAreaFacts.

Import EfisSymbols EfisSymbolsFacts.

Lemma Qle_bool_false (a b : Q) : Qle_bool a b = false -> (b < a)%Q.
Proof.
  intros Hle. apply Qnot_le_lt. intros Hab. apply Qle_bool_iff in Hab. congruence.
Qed.

(** X24. For every range the edit area of the three display modes [ARC],
    [ROSE_NAV] and [PLAN] has positive extents ahead, behind and beside.
    For any other mode all three are zero, and with a resolved plan
    centre the edit-area test then rejects every point, the aircraft
    position included. *)
Theorem calculateEditArea_positive_for_display_modes_only :
  (forall (range : Q) (row : TableRow), positiveEditArea range (modeOfRow row))
  /\ (forall (distanceTo bearingTo : Coordinates -> Coordinates -> R) (clampAngle : R -> R)
        (planCentre ppos : Coordinates) (trueHeading : R) (range : Q) (code : Z)
        (ll : Coordinates),
        withinEditArea distanceTo bearingTo clampAngle (Some planCentre) ppos trueHeading
          range (OtherMode code) ll = false)
  /\ (forall (range : Q) (code : Z), calculateEditArea range (OtherMode code) = (0, 0, 0)%Q).
Proof.
  split; [| split; [| reflexivity]].
  - intros range row. unfold positiveEditArea, calculateEditArea.
    destruct row; simpl;
      repeat match goal with
             | |- context [Qle_bool ?a ?b] => destruct (Qle_bool a b)
             end;
      repeat split; reflexivity.
  - intros distanceTo bearingTo clampAngle planCentre ppos trueHeading range code ll.
    unfold withinEditArea, calculateEditArea.
    rewrite bool_decide_eq_false_2 by discriminate.
    match goal with
    | |- (Rltb (Rabs ?dx) _ && _ && _)%bool = false =>
        assert (Rltb (Rabs dx) (Q2R 0) = false) as ->; [| reflexivity];
        destruct (Rltb (Rabs dx) (Q2R 0)) eqn:Hlt; [| reflexivity];
        apply Rltb_true in Hlt; exfalso; apply Rlt_not_le in Hlt; apply Hlt
    end.
    unfold Q2R. simpl. rewrite Rmult_0_l. apply Rabs_pos.
Qed.

(** X25. In every mode the edit area grows with the range: for a
    larger range none of the extents ahead, behind and beside is
    smaller. *)
Theorem calculateEditArea_grows_with_range (mode : EfisNdMode) (range1 range2 : Q)
    (Hle : (range1 <= range2)%Q) :
  let '(ahead1, behind1, beside1) := calculateEditArea range1 mode in
  let '(ahead2, behind2, beside2) := calculateEditArea range2 mode in
  (ahead1 <= ahead2 /\ behind1 <= behind2 /\ beside1 <= beside2)%Q.
Proof.
  unfold calculateEditArea.
  destruct mode;
    repeat match goal with
           | |- context [Qle_bool ?a ?b] =>
               let Hb := fresh "Hb" in
               destruct (Qle_bool a b) eqn:Hb;
               [apply Qle_bool_iff in Hb | apply Qle_bool_false in Hb]
           end;
    try (exfalso; Lqa.lra);
    repeat split; try Lqa.lra; discriminate.
Qed.

Lemma edit_area_of_range_20_covers_that_of_range_10 :
  let '(ahead1, behind1, beside1) := calculateEditArea 10 ARC in
  let '(ahead2, behind2, beside2) := calculateEditArea 20 ARC in
  (ahead1 <= ahead2 /\ behind1 <= behind2 /\ beside1 <= beside2)%Q.
Proof.
  apply (calculateEditArea_grows_with_range ARC 10 20). discriminate.
Defined.

End EditAreaFacts.
